(** * Weston gym bot: planning reconciler, reminder correlator, status
      refresh and rules acceptance, as a shallow embedding.

    The TypeScript sources embedded here are

    - [src/features/planning/planningManager.ts]  ([syncPlanning],
      [initializePlanningChannel]) and the configuration loader that
      follows it ([parseNumericEnv]);
    - the trash reminder service ([getUsersFromPlanning]);
    - [src/features/status/gymStatusManager.ts] and its compiled variant
      ([refreshStatusMessage]);
    - the rules service ([handleAcceptRules], [findRole], [logSignature]).

    Further on, for the properties that go beyond these functions: the
    rest of the planning manager ([initialize], [syncPlanningCommand],
    [ensureCategory], [scheduleMaintenance]) and of the configuration
    loader, the rest of the reminder service ([initialize],
    [ensureChannel], [scheduleReminders], [sendReminder]),
    [publishStatus], the gate service and the event router, source and
    compiled.

    Asynchronous code is written in a state-and-exception monad: an
    [await] that rejects is a [Throw], and [try]/[catch] is [tryCatch].
    The chat platform is an explicit state (the guild's channel cache,
    [guild.channels.cache]) together with an oracle that decides which remote calls are
    rejected. *)

From Stdlib Require Import Ascii String.
From Stdlib Require Import List ZArith NArith QArith Qround Bool Lia Arith.
Import ListNotations.

Set Implicit Arguments.
Local Open Scope nat_scope.
Local Open Scope list_scope.

(* ================================================================== *)
(** * JavaScript strings *)
(* ================================================================== *)

Module JsString.

(** A JavaScript string is a sequence of UTF-16 code units. *)
Definition code_unit := N.
Definition jsstring := list code_unit.

(** ASCII literals. *)
Definition lit (s : string) : jsstring :=
  map (fun a => N.of_nat (nat_of_ascii a)) (list_ascii_of_string s).

Definition hyphen : code_unit := 45%N.

(** The class [\s] of ECMAScript regular expressions: WhiteSpace and
    LineTerminator code points. *)
Definition is_space (c : code_unit) : bool :=
  ((9 <=? c) && (c <=? 13) || (c =? 32) || (c =? 160) || (c =? 5760)
   || (8192 <=? c) && (c <=? 8202)
   || (c =? 8232) || (c =? 8233) || (c =? 8239) || (c =? 8287)
   || (c =? 12288) || (c =? 65279))%N.

(** [s.replace(/\s+/g, '-')]: the scanner emits one hyphen when it
    enters a run of white space ([in_run] tells that the previous code
    unit was white space, so the current match is being extended). *)
Fixpoint replace_ws_from (in_run : bool) (s : jsstring) : jsstring :=
  match s with
  | [] => []
  | c :: rest =>
      if is_space c
      then if in_run then replace_ws_from true rest
           else hyphen :: replace_ws_from true rest
      else c :: replace_ws_from false rest
  end.

Definition replace_ws (s : jsstring) : jsstring := replace_ws_from false s.

(** [a === b] on strings. *)
Fixpoint eqb (a b : jsstring) : bool :=
  match a, b with
  | [], [] => true
  | x :: a', y :: b' => (x =? y)%N && eqb a' b'
  | _, _ => false
  end.

(** What "every run of white space replaced by a hyphen" means, stated
    on maximal runs and independently of the scanner. *)
Definition starts_nonspace (s : jsstring) : Prop :=
  match s with
  | [] => True
  | c :: _ => is_space c = false
  end.

Inductive collapsed : jsstring -> jsstring -> Prop :=
| collapsed_nil : collapsed [] []
| collapsed_char c s t :
    is_space c = false -> collapsed s t -> collapsed (c :: s) (c :: t)
| collapsed_run ws s t :
    ws <> [] -> forallb is_space ws = true -> starts_nonspace s ->
    collapsed s t -> collapsed (ws ++ s) (hyphen :: t).

(** [Set<string>]: insertion-ordered, no duplicates. *)
Definition StringSet := list jsstring.
Definition set_has (s : StringSet) (x : jsstring) : bool := existsb (eqb x) s.
Definition set_add (s : StringSet) (x : jsstring) : StringSet :=
  if set_has s x then s else s ++ [x].

End JsString.
Import JsString.

(* ================================================================== *)
(** * Promises: state and exceptions *)
(* ================================================================== *)

Inductive Result (A : Type) : Type :=
| Ok (a : A)
| Throw.
Arguments Ok {A} a.
Arguments Throw {A}.

Definition M (S A : Type) : Type := S -> Result A * S.

Definition ret {S A} (a : A) : M S A := fun s => (Ok a, s).

Definition bind {S A B} (m : M S A) (k : A -> M S B) : M S B :=
  fun s => match m s with
           | (Ok a, s') => k a s'
           | (Throw, s') => (Throw, s')
           end.

(** [try { body } catch { handler }]: the state reached when [body]
    threw is kept. *)
Definition tryCatch {S A} (body handler : M S A) : M S A :=
  fun s => match body s with
           | (Ok a, s') => (Ok a, s')
           | (Throw, s') => handler s'
           end.

Definition get {S} : M S S := fun s => (Ok s, s).
Definition gets {S A} (f : S -> A) : M S A := fun s => (Ok (f s), s).
Definition modify {S} (f : S -> S) : M S unit := fun s => (Ok tt, f s).

Declare Scope promise_scope.
Delimit Scope promise_scope with promise.
Notation "x <- m ;; k" := (bind m (fun x => k))
  (at level 61, m at next level, right associativity) : promise_scope.
Notation "m ;; k" := (bind m (fun _ => k))
  (at level 61, right associativity) : promise_scope.
Local Open Scope promise_scope.

(** [for (const x of xs) { await body(x) }] *)
Fixpoint forEach {S A} (xs : list A) (body : A -> M S unit) : M S unit :=
  match xs with
  | [] => ret tt
  | x :: rest => body x ;; forEach rest body
  end.

(* ================================================================== *)
(** * The guild: channels, messages, reactions *)
(* ================================================================== *)

Definition Snowflake := N.

(** A [Date] normalised by [setHours(0, 0, 0, 0)] is a local calendar
    day; it is counted in days from 1 January 1970.  [setDate(getDate()
    + i)] moves it by [i] days. *)
Definition Date := Z.
Definition addDays (d : Date) (i : Z) : Date := (d + i)%Z.
(** [Date.prototype.getDay]: 0 is Sunday; day 0 was a Thursday. *)
Definition getDay (d : Date) : Z := ((d + 4) mod 7)%Z.

Inductive ChannelType := GuildText | GuildCategory | OtherChannelType.

Definition ChannelType_eqb (a b : ChannelType) : bool :=
  match a, b with
  | GuildText, GuildText | GuildCategory, GuildCategory
  | OtherChannelType, OtherChannelType => true
  | _, _ => false
  end.

Record User := mkUser {
  user_id : Snowflake;
  user_bot : bool;
  user_username : jsstring
}.

Record MessageReaction := mkReaction {
  reaction_emoji : jsstring;
  reaction_users : list User
}.

(** The body of a message: a plain text or an embed (whose [content] is
    the empty string). *)
Inductive MessageBody :=
| TextBody (content : jsstring)
| PlanningEmbed (dayLabel : jsstring).

Record Message := mkMessage {
  msg_id : Snowflake;
  msg_body : MessageBody;
  msg_reactions : list MessageReaction
}.

Definition msg_content (m : Message) : jsstring :=
  match msg_body m with
  | TextBody c => c
  | PlanningEmbed _ => []
  end.

Record Channel := mkChannel {
  ch_id : Snowflake;
  ch_name : jsstring;
  ch_parentId : option Snowflake;
  ch_type : ChannelType;
  ch_messages : list Message   (* most recent first *)
}.

Definition parent_is (ch : Channel) (id : Snowflake) : bool :=
  match ch_parentId ch with
  | Some p => (p =? id)%N
  | None => false
  end.

(** Remote calls, as issued to the platform. *)
Inductive ApiCall :=
| ChannelDelete (id : Snowflake)
| ChannelsCreate (name : jsstring) (type : ChannelType) (parent : option Snowflake)
| ChannelSend (channel : Snowflake) (body : MessageBody)
| MessageReact (message : Snowflake) (emoji : jsstring)
| MessagesFetch (channel : Snowflake) (limit : nat)
| ReactionUsersFetch (message : Snowflake) (emoji : jsstring)
| UsersFetch (user : Snowflake).

Inductive LogLevel := Info | Warn | Error.

Inductive LogMessage :=
| SuppressionSalon (name : jsstring)
| CreationSalon (name : jsstring)
| RechercheChannel (channelName : jsstring) (currentDayOfWeek dayOfWeek : Z)
| CategorieIntrouvable (categoryName : jsstring)
| ChannelIntrouvable (channelName : jsstring)
| ChannelTrouve (name : jsstring) (id : Snowflake)
| MessagesRecuperes (size : nat)
| RechercheCreneau (timeSlot : jsstring)
| MessageIntrouvable (timeSlot : jsstring)
| MessageTrouve (timeSlot : jsstring) (id : Snowflake)
| AucuneReaction (timeSlot : jsstring)
| UtilisateursAyantReagi (timeSlot : jsstring) (size : nat)
| UtilisateurAjoute (username : jsstring) (id : Snowflake)
| TotalUtilisateurs (size : nat)
| UtilisateurIrrecuperable (userId : Snowflake).

(** The guild as the bot sees it: [guild.channels.cache] in insertion
    order, the remote calls issued so far with their outcome ([true]:
    fulfilled), the log stream, and the next identifier the platform
    will hand out. *)
Record Guild := mkGuild {
  channels_cache : list Channel;
  calls : list (ApiCall * bool);
  log : list (LogLevel * LogMessage);
  next_id : Snowflake
}.

Record PlanningConfig := mkPlanningConfig {
  categoryName : jsstring;
  daysAhead : Q;
  timeSlots : list jsstring
}.

(** The affirmative reaction, U+2705. *)
Definition checkmark : jsstring := [9989%N].

Definition Qlt_bool (x y : Q) : bool := negb (Qle_bool y x).

(** ** Configuration loader *)

Inductive JsNumber :=
| Finite (q : Q)
| NaN
| PosInfinity
| NegInfinity.

Definition isFinite (n : JsNumber) : bool :=
  match n with Finite _ => true | _ => false end.

Section ConfigLoader.
(** [Number(value)], the string-to-number conversion of the runtime. *)
Variable Number : jsstring -> JsNumber.

Definition parseNumericEnv (value : option jsstring) (defaultValue : Q) : Q :=
  match value with
  | None => defaultValue
  | Some v =>
      match Number v with
      | Finite parsed => parsed
      | _ => defaultValue
      end
  end.
End ConfigLoader.

(* ================================================================== *)
(** * Planning manager and reminder correlator *)
(* ================================================================== *)

Record DesiredChannel := mkDesired {
  name : jsstring;
  label : jsstring
}.

Section Bot.

(** The runtime: [toLocaleDateString('fr-FR', {weekday: 'long', day:
    'numeric', month: 'long'})] and [toLowerCase]. *)
Variable toLocaleDateString : Date -> jsstring.
Variable toLowerCase : jsstring -> jsstring.

(** The platform: which remote calls are rejected, given the calls
    issued so far; the account [client.users.fetch] resolves an
    identifier to ([None]: the promise rejects); the bot's own
    account. *)
Variable rejects : list (ApiCall * bool) -> ApiCall -> bool.
Variable accounts : Snowflake -> option User.
Variable clientUser : User.

Variable config : PlanningConfig.

(** ** Effects *)

Definition logger (level : LogLevel) (m : LogMessage) : M Guild unit :=
  modify (fun g => mkGuild (channels_cache g) (calls g)
                           (log g ++ [(level, m)]) (next_id g)).

Definition await (c : ApiCall) : M Guild unit :=
  fun g =>
    let ok := negb (rejects (calls g) c) in
    let g' := mkGuild (channels_cache g) (calls g ++ [(c, ok)])
                      (log g) (next_id g) in
    if ok then (Ok tt, g') else (Throw, g').

Definition set_cache (f : list Channel -> list Channel) : M Guild unit :=
  modify (fun g => mkGuild (f (channels_cache g)) (calls g) (log g) (next_id g)).

Definition fresh_id : M Guild Snowflake :=
  fun g => (Ok (next_id g),
            mkGuild (channels_cache g) (calls g) (log g) (next_id g + 1)%N).

(** [channel.delete(reason)]: on success the channel leaves the cache. *)
Definition channel_delete (ch : Channel) : M Guild unit :=
  await (ChannelDelete (ch_id ch)) ;;
  set_cache (filter (fun c => negb (ch_id c =? ch_id ch)%N)).

(** [guild.channels.create({name, type, parent})]: on success the new
    channel, named as requested, enters the cache. *)
Definition channels_create (nm : jsstring) (ty : ChannelType)
           (parent : option Snowflake) : M Guild Channel :=
  await (ChannelsCreate nm ty parent) ;;
  id <- fresh_id ;;
  let ch := mkChannel id nm parent ty [] in
  set_cache (fun cache => cache ++ [ch]) ;;
  ret ch.

Definition with_message (chan : Snowflake) (f : list Message -> list Message)
           (c : Channel) : Channel :=
  if (ch_id c =? chan)%N
  then mkChannel (ch_id c) (ch_name c) (ch_parentId c) (ch_type c)
                 (f (ch_messages c))
  else c.

(** [channel.send(body)] *)
Definition channel_send (ch : Channel) (body : MessageBody) : M Guild Message :=
  await (ChannelSend (ch_id ch) body) ;;
  id <- fresh_id ;;
  let m := mkMessage id body [] in
  set_cache (map (with_message (ch_id ch) (cons m))) ;;
  ret m.

Definition add_reactor (emoji : jsstring) (u : User)
           (rs : list MessageReaction) : list MessageReaction :=
  if existsb (fun r => eqb (reaction_emoji r) emoji) rs
  then map (fun r =>
              if eqb (reaction_emoji r) emoji
              then mkReaction emoji
                     (if existsb (fun v => (user_id v =? user_id u)%N)
                                 (reaction_users r)
                      then reaction_users r
                      else reaction_users r ++ [u])
              else r) rs
  else rs ++ [mkReaction emoji [u]].

(** [message.react(emoji)], by the bot itself. *)
Definition message_react (ch : Channel) (m : Message) (emoji : jsstring)
  : M Guild unit :=
  await (MessageReact (msg_id m) emoji) ;;
  set_cache (map (with_message (ch_id ch)
    (map (fun x => if (msg_id x =? msg_id m)%N
                   then mkMessage (msg_id x) (msg_body x)
                          (add_reactor emoji clientUser (msg_reactions x))
                   else x)))).

(** [channel.messages.fetch({limit})]: the most recent [limit]
    messages. *)
Definition messages_fetch (ch : Channel) (limit : nat) : M Guild (list Message) :=
  await (MessagesFetch (ch_id ch) limit) ;;
  ret (firstn limit (ch_messages ch)).

(** [reaction.users.fetch()]: one page, of at most 100 users. *)
Definition reaction_users_fetch (m : Message) (r : MessageReaction)
  : M Guild (list User) :=
  await (ReactionUsersFetch (msg_id m) (reaction_emoji r)) ;;
  ret (firstn 100 (reaction_users r)).

(** [client.users.fetch(userId)] *)
Definition users_fetch (userId : Snowflake) : M Guild User :=
  fun g =>
    match accounts userId with
    | Some u => (Ok u, mkGuild (channels_cache g)
                               (calls g ++ [(UsersFetch userId, true)])
                               (log g) (next_id g))
    | None => (Throw, mkGuild (channels_cache g)
                              (calls g ++ [(UsersFetch userId, false)])
                              (log g) (next_id g))
    end.

(** ** The planning window (first loop of [syncPlanning]) *)

Definition dayLabelOf (date : Date) : jsstring :=
  toLowerCase (toLocaleDateString date).

(** [for (let i = 0; i < config.planning.daysAhead; i++)].  The loop
    is driven by its own condition; [fuel] only bounds the recursion,
    and [window_fuel] iterations are enough for the condition to
    become false (lemma [window_loop_exits]). *)
Fixpoint window_loop (today : Date) (fuel : nat) (i : Z)
         (desiredChannels : list DesiredChannel) (allowedNames : StringSet)
  : list DesiredChannel * StringSet * Z :=
  match fuel with
  | O => (desiredChannels, allowedNames, i)
  | S fuel' =>
      if Qlt_bool (inject_Z i) (daysAhead config)
      then
        let date := addDays today i in
        let dayLabel := dayLabelOf date in
        let channelName := replace_ws dayLabel in
        window_loop today fuel' (i + 1)%Z
                    (desiredChannels ++ [mkDesired channelName dayLabel])
                    (set_add allowedNames channelName)
      else (desiredChannels, allowedNames, i)
  end.

Definition window_fuel : nat := Z.to_nat (Qceiling (daysAhead config)).

Definition planningWindow (today : Date) : list DesiredChannel * StringSet :=
  fst (window_loop today window_fuel 0%Z [] []).

(** ** [initializePlanningChannel] *)

Definition initializePlanningChannel (channel : Channel) (dayLabel : jsstring)
  : M Guild unit :=
  channel_send channel (PlanningEmbed dayLabel) ;;
  forEach (timeSlots config) (fun slot =>
    message <- channel_send channel (TextBody slot) ;;
    message_react channel message checkmark).

(** ** [syncPlanning] *)

Definition is_planning_text (category : Channel) (channel : Channel) : bool :=
  parent_is channel (ch_id category) && ChannelType_eqb (ch_type channel) GuildText.

Definition syncPlanning (today : Date) (category : Channel) : M Guild unit :=
  let '(desiredChannels, allowedNames) := planningWindow today in
  cache <- gets channels_cache ;;
  let channels := filter (is_planning_text category) cache in
  forEach channels (fun channel =>
    if negb (set_has allowedNames (ch_name channel))
    then logger Info (SuppressionSalon (ch_name channel)) ;;
         channel_delete channel
    else ret tt) ;;
  forEach desiredChannels (fun d =>
    let channelName := name d in
    let dayLabel := label d in
    cache <- gets channels_cache ;;
    let existingChannel :=
      find (fun channel =>
              eqb (ch_name channel) channelName
              && parent_is channel (ch_id category)
              && ChannelType_eqb (ch_type channel) GuildText)
           cache in
    match existingChannel with
    | Some _ => ret tt
    | None =>
        logger Info (CreationSalon channelName) ;;
        newChannel <- channels_create channelName GuildText (Some (ch_id category)) ;;
        initializePlanningChannel newChannel dayLabel
    end).

(** ** [getUsersFromPlanning] *)

Definition add_id (s : list Snowflake) (x : Snowflake) : list Snowflake :=
  if existsb (N.eqb x) s then s else s ++ [x].

(** The inner loop over the users who reacted; the state monad also
    threads [usersSet]. *)
Fixpoint collect_users (reactedUsers : list User) (usersSet : list Snowflake)
  : M Guild (list Snowflake) :=
  match reactedUsers with
  | [] => ret usersSet
  | user :: rest =>
      if negb (user_bot user)
      then logger Info (UtilisateurAjoute (user_username user) (user_id user)) ;;
           collect_users rest (add_id usersSet (user_id user))
      else collect_users rest usersSet
  end.

Fixpoint scan_slots (messages : list Message) (slots : list jsstring)
         (usersSet : list Snowflake) : M Guild (list Snowflake) :=
  match slots with
  | [] => ret usersSet
  | timeSlot :: rest =>
      logger Info (RechercheCreneau timeSlot) ;;
      match find (fun msg => eqb (msg_content msg) timeSlot) messages with
      | None =>
          logger Warn (MessageIntrouvable timeSlot) ;;
          scan_slots messages rest usersSet
      | Some slotMessage =>
          logger Info (MessageTrouve timeSlot (msg_id slotMessage)) ;;
          match find (fun r => eqb (reaction_emoji r) checkmark)
                     (msg_reactions slotMessage) with
          | None =>
              logger Warn (AucuneReaction timeSlot) ;;
              scan_slots messages rest usersSet
          | Some reaction =>
              reactedUsers <- reaction_users_fetch slotMessage reaction ;;
              logger Info (UtilisateursAyantReagi timeSlot (length reactedUsers)) ;;
              usersSet' <- collect_users reactedUsers usersSet ;;
              scan_slots messages rest usersSet'
          end
      end
  end.

Fixpoint resolve_users (ids : list Snowflake) (users : list User)
  : M Guild (list User) :=
  match ids with
  | [] => ret users
  | userId :: rest =>
      users' <- tryCatch
                  (user <- users_fetch userId ;; ret (users ++ [user]))
                  (logger Warn (UtilisateurIrrecuperable userId) ;; ret users) ;;
      resolve_users rest users'
  end.

Definition reminderChannelName (today : Date) : jsstring :=
  let targetDate := today in
  let dayLabel := toLowerCase (toLocaleDateString targetDate) in
  replace_ws dayLabel.

Definition getUsersFromPlanning (today : Date) (dayOfWeek : Z)
           (slots : list jsstring) : M Guild (list User) :=
  let currentDayOfWeek := getDay today in
  let channelName := reminderChannelName today in
  logger Info (RechercheChannel channelName currentDayOfWeek dayOfWeek) ;;
  cache <- gets channels_cache ;;
  match find (fun channel =>
                ChannelType_eqb (ch_type channel) GuildCategory
                && eqb (ch_name channel) (categoryName config))
             cache with
  | None =>
      logger Warn (CategorieIntrouvable (categoryName config)) ;;
      ret []
  | Some planningCategory =>
      match find (fun channel =>
                    parent_is channel (ch_id planningCategory)
                    && ChannelType_eqb (ch_type channel) GuildText
                    && eqb (ch_name channel) channelName)
                 cache with
      | None =>
          logger Warn (ChannelIntrouvable channelName) ;;
          ret []
      | Some planningChannel =>
          logger Info (ChannelTrouve (ch_name planningChannel) (ch_id planningChannel)) ;;
          messages <- messages_fetch planningChannel 100 ;;
          logger Info (MessagesRecuperes (length messages)) ;;
          usersSet <- scan_slots messages slots [] ;;
          logger Info (TotalUtilisateurs (length usersSet)) ;;
          resolve_users usersSet []
      end
  end.

End Bot.

(* ================================================================== *)
(** * Status manager: [refreshStatusMessage], source and compiled *)
(* ================================================================== *)

Module Status.

Inductive GymStatus := Ouverte | Fermee.

Definition GymStatus_eqb (a b : GymStatus) : bool :=
  match a, b with
  | Ouverte, Ouverte | Fermee, Fermee => true
  | _, _ => false
  end.

Inductive GymStatusButton := Open | Close | Gate.
Inductive ButtonStyle := Success | Danger | Primary.

Record Button := mkButton {
  customId : GymStatusButton;
  style : ButtonStyle;
  disabled : bool
}.

Record Embed := mkEmbed {
  embed_status : GymStatus;
  embed_lastAction : jsstring;
  embed_color : Z;
  embed_image : jsstring
}.

Record Payload := mkPayload {
  embeds : list Embed;
  components : list (list Button)
}.

(** A published message: its identifier and [message.channel]. *)
Record StatusMessage := mkStatusMessage {
  sm_id : Snowflake;
  sm_channel : Snowflake;
  sm_channel_type : ChannelType
}.

Inductive StatusCall :=
| MessageDelete (id : Snowflake)
| MessageEdit (id : Snowflake) (p : Payload)
| Send (channel : Snowflake) (p : Payload).

Inductive StatusLog :=
| WarnSuppressionImpossible
| WarnPasUnSalonTexte
| ErrorMiseAJour.

(** The fields of [GymStatusManager], and around them the calls issued
    to the platform, the log stream and the next message identifier. *)
Record Manager := mkManager {
  status : GymStatus;
  lastActionBy : option jsstring;
  statusMessage : option StatusMessage;
  status_calls : list (StatusCall * bool);
  status_log : list StatusLog;
  status_next_id : Snowflake
}.

Section Manager.

Variable images : GymStatus -> jsstring.
Variable rejects : list (StatusCall * bool) -> StatusCall -> bool.

Definition buildEmbed (this : Manager) : Embed :=
  let lastAction := match lastActionBy this with
                    | Some actor => actor
                    | None => lit "N/A"
                    end in
  mkEmbed (status this) lastAction
          (if GymStatus_eqb (status this) Ouverte then 65280 else 16711680)%Z
          (images (status this)).

Definition buildActionRow (this : Manager) : list Button :=
  [ mkButton Open Success (GymStatus_eqb (status this) Ouverte);
    mkButton Close Danger (GymStatus_eqb (status this) Fermee);
    mkButton Gate Primary false ].

Definition render (this : Manager) : Payload :=
  mkPayload [buildEmbed this] [buildActionRow this].

Definition status_logger (l : StatusLog) : M Manager unit :=
  modify (fun m => mkManager (status m) (lastActionBy m) (statusMessage m)
                             (status_calls m) (status_log m ++ [l])
                             (status_next_id m)).

Definition status_await (c : StatusCall) : M Manager unit :=
  fun m =>
    let ok := negb (rejects (status_calls m) c) in
    let m' := mkManager (status m) (lastActionBy m) (statusMessage m)
                        (status_calls m ++ [(c, ok)]) (status_log m)
                        (status_next_id m) in
    if ok then (Ok tt, m') else (Throw, m').

(** [textChannel.send(payload)] resolves to the message posted. *)
Definition send (channel : Snowflake) (ty : ChannelType) (p : Payload)
  : M Manager StatusMessage :=
  status_await (Send channel p) ;;
  fun m => (Ok (mkStatusMessage (status_next_id m) channel ty),
            mkManager (status m) (lastActionBy m) (statusMessage m)
                      (status_calls m) (status_log m)
                      (status_next_id m + 1)%N).

Definition set_statusMessage (msg : StatusMessage) : M Manager unit :=
  modify (fun m => mkManager (status m) (lastActionBy m) (Some msg)
                             (status_calls m) (status_log m)
                             (status_next_id m)).

(** [updateStatus(newStatus, actor)] *)
Definition updateStatus (newStatus : GymStatus) (actor : jsstring)
  : M Manager unit :=
  modify (fun m => mkManager newStatus (Some actor) (statusMessage m)
                             (status_calls m) (status_log m)
                             (status_next_id m)).

(** [publishStatus(channel)] (identical in both variants). *)
Definition publishStatus (channel : Snowflake) : M Manager StatusMessage :=
  this <- get ;;
  match statusMessage this with
  | Some old =>
      tryCatch (status_await (MessageDelete (sm_id old)))
               (status_logger WarnSuppressionImpossible)
  | None => ret tt
  end ;;
  this <- get ;;
  message <- send channel GuildText (render this) ;;
  set_statusMessage message ;;
  ret message.

(** [refreshStatusMessage] of the TypeScript source
    ([src/features/status/gymStatusManager.ts]). *)
Definition refreshStatusMessage : M Manager unit :=
  this <- get ;;
  match statusMessage this with
  | None => ret tt
  | Some current =>
      tryCatch
        (status_await (MessageEdit (sm_id current) (render this)))
        (status_logger ErrorMiseAJour)
  end.

(** [refreshStatusMessage] of the compiled variant
    ([dist/features/status/gymStatusManager.js]). *)
Definition refreshStatusMessage_dist : M Manager unit :=
  this <- get ;;
  match statusMessage this with
  | None => ret tt
  | Some current =>
      if negb (ChannelType_eqb (sm_channel_type current) GuildText)
      then status_logger WarnPasUnSalonTexte
      else
        let oldMessage := current in
        tryCatch
          (tryCatch (status_await (MessageDelete (sm_id oldMessage)))
                    (status_logger WarnSuppressionImpossible) ;;
           this <- get ;;
           newMessage <- send (sm_channel current) GuildText (render this) ;;
           set_statusMessage newMessage)
          (status_logger ErrorMiseAJour)
  end.

End Manager.

End Status.

(* ================================================================== *)
(** * Rules service: [handleAcceptRules] *)
(* ================================================================== *)

Module Rules.

Record Role := mkRole {
  role_id : Snowflake;
  role_name : jsstring
}.

Record InteractionUser := mkInteractionUser {
  iu_id : Snowflake;
  iu_username : jsstring;
  iu_tag : jsstring
}.

(** [interaction.guild] is [null] outside a guild; otherwise only its
    role cache is read. *)
Record ButtonInteraction := mkInteraction {
  guild_roles : option (list Role);
  user : InteractionUser
}.

Inductive ReplyContent :=
| GuildeIndeterminee
| RoleIntrouvable (roleName : jsstring)
| Merci (username roleName : jsstring)
| ErreurAjoutRole.

Inductive RulesCall :=
| Reply (content : ReplyContent)
| DeferReply
| MembersFetch (userId : Snowflake)
| RolesAdd (member : Snowflake) (role : Role)
| AppendFile (path : jsstring) (tag : jsstring) (id : Snowflake) (date : jsstring)
| EditReply (content : ReplyContent).

Inductive RulesLog :=
| ErrorRoleIntrouvable (roleName : jsstring)
| InfoAccepte (tag : jsstring)
| ErrorAjoutRole
| ErrorJournal.

Record Env := mkEnv {
  rules_calls : list (RulesCall * bool);
  rules_log : list RulesLog
}.

Record RulesConfig := mkRulesConfig {
  memberRoleName : jsstring;
  logFile : jsstring
}.

Section Service.

Variable config : RulesConfig.
Variable rejects : list (RulesCall * bool) -> RulesCall -> bool.
(** [now.toLocaleString('fr-FR', ...)] at the time of the call. *)
Variable formattedDate : jsstring.

Definition rules_logger (l : RulesLog) : M Env unit :=
  modify (fun e => mkEnv (rules_calls e) (rules_log e ++ [l])).

Definition rules_await (c : RulesCall) : M Env unit :=
  fun e =>
    let ok := negb (rejects (rules_calls e) c) in
    let e' := mkEnv (rules_calls e ++ [(c, ok)]) (rules_log e) in
    if ok then (Ok tt, e') else (Throw, e').

Definition findRole (roles : list Role) : option Role :=
  find (fun candidate => eqb (role_name candidate) (memberRoleName config)) roles.

Definition logSignature (interaction : ButtonInteraction) : M Env unit :=
  tryCatch
    (rules_await (AppendFile (logFile config) (iu_tag (user interaction))
                             (iu_id (user interaction)) formattedDate))
    (rules_logger ErrorJournal).

Definition handleAcceptRules (interaction : ButtonInteraction) : M Env unit :=
  match guild_roles interaction with
  | None => rules_await (Reply GuildeIndeterminee)
  | Some roles =>
      match findRole roles with
      | None =>
          rules_logger (ErrorRoleIntrouvable (memberRoleName config)) ;;
          rules_await (Reply (RoleIntrouvable (memberRoleName config)))
      | Some role =>
          rules_await DeferReply ;;
          tryCatch
            (rules_await (MembersFetch (iu_id (user interaction))) ;;
             rules_await (RolesAdd (iu_id (user interaction)) role) ;;
             logSignature interaction ;;
             rules_await (EditReply (Merci (iu_username (user interaction))
                                           (role_name role))) ;;
             rules_logger (InfoAccepte (iu_tag (user interaction))))
            (rules_logger ErrorAjoutRole ;;
             rules_await (EditReply ErreurAjoutRole))
      end
  end.

End Service.

End Rules.

(* ================================================================== *)
(** * A concrete runtime and concrete guilds *)
(* ================================================================== *)

(** An instance of the runtime's date rendering, to evaluate the model:
    the proleptic Gregorian calendar and the fr-FR pattern
    "weekday day month" ("lundi 2 novembre"). *)
Module FrFR.
Local Open Scope Z_scope.

(** Day, month (1..12) of a day count. *)
Definition civil_from_days (days : Z) : Z * Z :=
  let z := days + 719468 in
  let era := z / 146097 in
  let doe := z - era * 146097 in
  let yoe := (doe - doe / 1460 + doe / 36524 - doe / 146096) / 365 in
  let doy := doe - (365 * yoe + yoe / 4 - yoe / 100) in
  let mp := (5 * doy + 2) / 153 in
  let d := doy - (153 * mp + 2) / 5 + 1 in
  let m := if mp <? 10 then mp + 3 else mp - 9 in
  (d, m).

Definition weekdays : list jsstring :=
  [lit "dimanche"; lit "lundi"; lit "mardi"; lit "mercredi";
   lit "jeudi"; lit "vendredi"; lit "samedi"].

(** [é] is U+00E9 and [û] is U+00FB. *)
Definition months : list jsstring :=
  [lit "janvier"; (lit "f" ++ [233%N] ++ lit "vrier")%list; lit "mars";
   lit "avril"; lit "mai"; lit "juin"; lit "juillet";
   (lit "ao" ++ [251%N] ++ lit "t")%list; lit "septembre"; lit "octobre";
   lit "novembre"; (lit "d" ++ [233%N] ++ lit "cembre")%list].

Definition digits (n : Z) : jsstring :=
  if n <? 10 then [Z.to_N (48 + n)]
  else [Z.to_N (48 + n / 10); Z.to_N (48 + n mod 10)].

Definition toLocaleDateString (date : Date) : jsstring :=
  let '(d, m) := civil_from_days date in
  (nth (Z.to_nat (getDay date)) weekdays [] ++ lit " " ++ digits d
   ++ lit " " ++ nth (Z.to_nat (m - 1)) months [])%list.

(** [toLowerCase] on the Basic Latin and Latin-1 letters. *)
Definition toLowerCase (s : jsstring) : jsstring :=
  map (fun c => if ((65 <=? c) && (c <=? 90)
                    || (192 <=? c) && (c <=? 222) && negb (c =? 215))%N
                then (c + 32)%N else c) s.

(** Monday 2 November 2026. *)
Definition monday : Date := 20759.
End FrFR.

Module Examples.
Local Open Scope N_scope.

Definition planning : jsstring := lit "Planning".

Definition slots3 : list jsstring :=
  [lit "18:00 - 20:00"; lit "20:00 - 22:00"; lit "22:00 - 00:00"].

Definition config3 : PlanningConfig := mkPlanningConfig planning 3%Q slots3.

Definition bot : User := mkUser 1 true (lit "weston").
Definition alice : User := mkUser 11 false (lit "alice").
Definition bob : User := mkUser 12 false (lit "bob").
Definition carol : User := mkUser 13 false (lit "carol").

Definition directory (id : Snowflake) : option User :=
  find (fun u => (user_id u =? id)%N) [bot; alice; bob; carol].

Definition never (A : Type) (_ : list (A * bool)) (_ : A) : bool := false.

Definition category : Channel := mkChannel 100 planning None GuildCategory [].

(** Scenario A: a stale channel for Friday 30 October and today's
    channel, still empty, under the category; a channel elsewhere. *)
Definition stale : Channel :=
  mkChannel 101 (lit "vendredi-30-octobre") (Some 100) GuildText [].
Definition today_channel (msgs : list Message) : Channel :=
  mkChannel 102 (lit "lundi-2-novembre") (Some 100) GuildText msgs.
Definition general : Channel :=
  mkChannel 103 (lit "general") None GuildText [].

Definition guildA : Guild :=
  mkGuild [category; stale; today_channel []; general] [] [] 200.

(** Scenario B: A and B on the first slot, B and C on the second, the
    bot alone on the third. *)
Definition slot_message (id : Snowflake) (slot : jsstring) (us : list User)
  : Message :=
  mkMessage id (TextBody slot) [mkReaction checkmark (bot :: us)].

Definition messagesB : list Message :=
  [slot_message 303 (lit "22:00 - 00:00") [];
   slot_message 302 (lit "20:00 - 22:00") [bob; carol];
   slot_message 301 (lit "18:00 - 20:00") [alice; bob];
   mkMessage 300 (PlanningEmbed (lit "lundi 2 novembre")) []].

Definition guildB : Guild :=
  mkGuild [category; today_channel messagesB; general] [] [] 400.

(** A guild without the planning category, and one with the category
    but without today's channel. *)
Definition guild_no_category : Guild := mkGuild [general] [] [] 200.
Definition guild_no_channel : Guild := mkGuild [category; stale; general] [] [] 200.


(** The guilds after one reconcile pass on Monday 2 November 2026 with
    no call rejected. *)
Abbreviation sync_monday cfg :=
  (syncPlanning FrFR.toLocaleDateString FrFR.toLowerCase (@never ApiCall) bot
                cfg FrFR.monday category).

Definition guildA' : Guild := Eval vm_compute in snd (sync_monday config3 guildA).

(** The platform refuses every message the bot sends (a missing
    permission), and nothing else. *)
Definition sends_rejected (_ : list (ApiCall * bool)) (c : ApiCall) : bool :=
  match c with ChannelSend _ _ => true | _ => false end.

Definition guildA_unseeded : Guild :=
  Eval vm_compute in
    snd (syncPlanning FrFR.toLocaleDateString FrFR.toLowerCase sends_rejected bot
                      config3 FrFR.monday category guildA).

(** [PLANNING_DAYS_AHEAD=-2]. *)
Definition number_of (s : jsstring) : JsNumber :=
  if eqb s (lit "-2") then Finite (-2) else NaN.

Definition config_negative : PlanningConfig :=
  mkPlanningConfig planning (parseNumericEnv number_of (Some (lit "-2")) 7) slots3.

Abbreviation correlate g :=
  (getUsersFromPlanning FrFR.toLocaleDateString FrFR.toLowerCase (@never ApiCall)
                        directory config3 FrFR.monday 3 slots3 g).

End Examples.

Module StatusExamples.
Import Status.
Local Open Scope N_scope.

Definition images (s : GymStatus) : jsstring :=
  match s with
  | Ouverte => lit "https://cdn.discordapp.com/open.png"
  | Fermee => lit "https://cdn.discordapp.com/close.png"
  end.

(** A fresh manager, closed by default. *)
Definition fresh : Manager := mkManager Fermee None None [] [] 900.

Definition never (_ : list (StatusCall * bool)) (_ : StatusCall) : bool := false.

(** The status is published in text channel 500, then a member opens
    the gym. *)
Definition published : Manager :=
  snd ((publishStatus images never 500 ;;
        updateStatus Ouverte (lit "alice"))%promise fresh).

End StatusExamples.

Module RulesExamples.
Import Rules.
Local Open Scope N_scope.

Definition config : RulesConfig :=
  mkRulesConfig (lit "Membre") (lit "signatures_log.txt").

Definition member : Role := mkRole 70 (lit "Membre").
Definition staff : Role := mkRole 71 (lit "Staff").

Definition dave : InteractionUser := mkInteractionUser 14 (lit "dave") (lit "dave#0001").

Definition never (_ : list (RulesCall * bool)) (_ : RulesCall) : bool := false.

(** The platform refuses the role grant (missing permission). *)
Definition grant_refused (_ : list (RulesCall * bool)) (c : RulesCall) : bool :=
  match c with RolesAdd _ _ => true | _ => false end.

Definition date : jsstring := lit "2 novembre 2026, 20:00:00".

(** Scenario D: the guild has no role named "Membre". *)
Definition press_no_role : ButtonInteraction := mkInteraction (Some [staff]) dave.
Definition press : ButtonInteraction := mkInteraction (Some [staff; member]) dave.

Definition empty : Env := mkEnv [] [].

End RulesExamples.

(* ================================================================== *)
(** * Auxiliary definitions for the proofs *)
(* ================================================================== *)

(** A string without its leading run of white space, and that run. *)
Fixpoint drop_spaces (s : jsstring) : jsstring :=
  match s with
  | [] => []
  | c :: rest => if is_space c then drop_spaces rest else s
  end.

Fixpoint take_spaces (s : jsstring) : jsstring :=
  match s with
  | [] => []
  | c :: rest => if is_space c then c :: take_spaces rest else []
  end.

(** The window entry of offset [i]: the lower-cased rendering of
    [today + i], and that label with its runs of white space replaced. *)
Definition window_entry (toLocaleDateString : Date -> jsstring)
           (toLowerCase : jsstring -> jsstring) (today : Date) (i : Z)
  : DesiredChannel :=
  mkDesired (replace_ws (toLowerCase (toLocaleDateString (today + i)%Z)))
            (toLowerCase (toLocaleDateString (today + i)%Z)).

(** The names of the text channels under the planning category. *)
Definition planning_names (category : Channel) (cache : list Channel)
  : list jsstring :=
  map ch_name (filter (is_planning_text category) cache).

Definition is_delete (c : ApiCall) : bool :=
  match c with ChannelDelete _ => true | _ => false end.

Definition is_create (c : ApiCall) : bool :=
  match c with ChannelsCreate _ _ _ => true | _ => false end.

(** The calls issued between two states of a run. *)
Definition new_calls (g g' : Guild) : list (ApiCall * bool) :=
  skipn (length (calls g)) (calls g').

(** The channels a list of calls deleted and created. *)
Definition deleted_ids (cs : list (ApiCall * bool)) : list Snowflake :=
  flat_map (fun x => match x with
                     | (ChannelDelete id, true) => [id]
                     | _ => []
                     end) cs.

Definition created (cs : list (ApiCall * bool))
  : list (jsstring * ChannelType * option Snowflake) :=
  flat_map (fun x => match x with
                     | (ChannelsCreate n ty p, true) => [(n, ty, p)]
                     | _ => []
                     end) cs.

(** A channel without its messages. *)
Definition shape (c : Channel) : Channel :=
  mkChannel (ch_id c) (ch_name c) (ch_parentId c) (ch_type c) [].

(** The desired names that have no channel yet, each once, in window
    order. *)
Fixpoint missing (ds present : list jsstring) : list jsstring :=
  match ds with
  | [] => []
  | n :: rest =>
      if set_has present n then missing rest present
      else n :: missing rest (present ++ [n])
  end.

(** Every user found in a reaction of a message of the guild. *)
Definition reactors (cache : list Channel) : list User :=
  flat_map (fun ch =>
    flat_map (fun m => flat_map reaction_users (msg_reactions m))
             (ch_messages ch)) cache.

(** The users read for one slot: the first fetched message whose body is
    the slot string, its affirmative reaction, one page of its users. *)
Definition slot_reactors (messages : list Message) (slot : jsstring)
  : list User :=
  match find (fun msg => eqb (msg_content msg) slot) messages with
  | None => []
  | Some m =>
      match find (fun r => eqb (reaction_emoji r) checkmark) (msg_reactions m) with
      | None => []
      | Some r => firstn 100 (reaction_users r)
      end
  end.

(** Two guild states that differ at most in the log stream. *)
Definition same_but_log (g1 g2 : Guild) : Prop :=
  channels_cache g1 = channels_cache g2 /\ calls g1 = calls g2
  /\ next_id g1 = next_id g2.

(** A computation whose result and effects do not depend on the log. *)
Definition log_blind {A} (m : M Guild A) : Prop :=
  forall g1 g2, same_but_log g1 g2 ->
    fst (m g1) = fst (m g2) /\ same_but_log (snd (m g1)) (snd (m g2)).

Definition result_ok {A} (r : Result A) : bool :=
  match r with Ok _ => true | Throw => false end.

(** Calls that neither delete nor create a channel; all fulfilled when
    the run did not throw. *)
Definition seeding (r_ok : bool) (delta : list (ApiCall * bool)) : Prop :=
  Forall (fun x => is_delete (fst x) = false /\ is_create (fst x) = false
                   /\ (r_ok = true -> snd x = true)) delta.

(** The category [getUsersFromPlanning] looks for. *)
Definition is_planning_category (config : PlanningConfig) (channel : Channel)
  : bool :=
  ChannelType_eqb (ch_type channel) GuildCategory
  && eqb (ch_name channel) (categoryName config).

(** [usersSet] after the users of one reaction, and after all slots. *)
Definition collect_ids (us : list User) (usersSet : list Snowflake)
  : list Snowflake :=
  fold_left (fun s u => if negb (user_bot u) then add_id s (user_id u) else s)
            us usersSet.

Definition reminder_ids (messages : list Message) (slots : list jsstring)
           (usersSet : list Snowflake) : list Snowflake :=
  fold_left (fun s slot => collect_ids (slot_reactors messages slot) s)
            slots usersSet.

(** The accounts a list of identifiers resolves to. *)
Definition resolve (accounts : Snowflake -> option User) (ids : list Snowflake)
  : list User :=
  flat_map (fun i => match accounts i with Some u => [u] | None => [] end) ids.

(** [client.users.fetch] hands back the user object the reaction held
    (both come from the client's user cache). *)
Definition coherent (accounts : Snowflake -> option User) (cache : list Channel)
  : Prop :=
  forall v, In v (reactors cache) ->
            forall u, accounts (user_id v) = Some u -> u = v.

(** The calls the rules service (resp. the status manager) issued
    between two states. *)
Definition new_rules_calls (e e' : Rules.Env) : list (Rules.RulesCall * bool) :=
  skipn (length (Rules.rules_calls e)) (Rules.rules_calls e').

Definition new_status_calls (m m' : Status.Manager)
  : list (Status.StatusCall * bool) :=
  skipn (length (Status.status_calls m)) (Status.status_calls m').

Definition is_append (c : Rules.RulesCall) : bool :=
  match c with Rules.AppendFile _ _ _ _ => true | _ => false end.

(** Scanning the calls in order: every append to the acceptance log
    comes after a fulfilled grant of a role to [member]. *)
Fixpoint log_guarded (member : Snowflake) (granted : bool)
         (cs : list (Rules.RulesCall * bool)) : bool :=
  match cs with
  | [] => true
  | (Rules.RolesAdd m _, true) :: rest =>
      log_guarded member (granted || (m =? member)%N) rest
  | (Rules.AppendFile _ _ _ _, _) :: rest =>
      granted && log_guarded member granted rest
  | _ :: rest => log_guarded member granted rest
  end.

(** The runs of [handleAcceptRules] once the member role is found: the
    calls issued, the lines logged and the result. *)
Inductive accept_outcome (config : Rules.RulesConfig) (formattedDate : jsstring)
          (u : Rules.InteractionUser) (role : Rules.Role)
  : list (Rules.RulesCall * bool) -> list Rules.RulesLog -> Result unit -> Prop :=
| defer_rejected :
    accept_outcome config formattedDate u role
      [(Rules.DeferReply, false)] [] Throw
| fetch_rejected ok :
    accept_outcome config formattedDate u role
      [(Rules.DeferReply, true); (Rules.MembersFetch (Rules.iu_id u), false);
       (Rules.EditReply Rules.ErreurAjoutRole, ok)]
      [Rules.ErrorAjoutRole] (if ok then Ok tt else Throw)
| grant_rejected ok :
    accept_outcome config formattedDate u role
      [(Rules.DeferReply, true); (Rules.MembersFetch (Rules.iu_id u), true);
       (Rules.RolesAdd (Rules.iu_id u) role, false);
       (Rules.EditReply Rules.ErreurAjoutRole, ok)]
      [Rules.ErrorAjoutRole] (if ok then Ok tt else Throw)
| accepted logged :
    accept_outcome config formattedDate u role
      [(Rules.DeferReply, true); (Rules.MembersFetch (Rules.iu_id u), true);
       (Rules.RolesAdd (Rules.iu_id u) role, true);
       (Rules.AppendFile (Rules.logFile config) (Rules.iu_tag u) (Rules.iu_id u)
                         formattedDate, logged);
       (Rules.EditReply (Rules.Merci (Rules.iu_username u) (Rules.role_name role)),
        true)]
      ((if logged then [] else [Rules.ErrorJournal])
         ++ [Rules.InfoAccepte (Rules.iu_tag u)])
      (Ok tt)
| confirm_rejected logged ok :
    accept_outcome config formattedDate u role
      [(Rules.DeferReply, true); (Rules.MembersFetch (Rules.iu_id u), true);
       (Rules.RolesAdd (Rules.iu_id u) role, true);
       (Rules.AppendFile (Rules.logFile config) (Rules.iu_tag u) (Rules.iu_id u)
                         formattedDate, logged);
       (Rules.EditReply (Rules.Merci (Rules.iu_username u) (Rules.role_name role)),
        false);
       (Rules.EditReply Rules.ErreurAjoutRole, ok)]
      ((if logged then [] else [Rules.ErrorJournal]) ++ [Rules.ErrorAjoutRole])
      (if ok then Ok tt else Throw).

(** No call of the list was rejected. *)
Definition fulfilled (cs : list (ApiCall * bool)) : Prop :=
  Forall (fun x => snd x = true) cs.

(** A computation that throws exactly when one of its calls is
    rejected. *)
Definition tracks {A} (m : M Guild A) : Prop :=
  forall g r g',
    m g = (r, g') ->
    exists delta, calls g' = calls g ++ delta
                  /\ (result_ok r = true <-> fulfilled delta).

(* ================================================================== *)
(** * A program logic for the computations *)
(* ================================================================== *)

(** [hoare P m Q E]: started in a state of [P], [m] ends in a state of
    [Q a] when it returns [a] and in a state of [E] when it throws. *)
Definition hoare {S A} (P : S -> Prop) (m : M S A)
           (Q : A -> S -> Prop) (E : S -> Prop) : Prop :=
  forall s r s',
    P s -> m s = (r, s') ->
    match r with
    | Ok a => Q a s'
    | Throw => E s'
    end.

(** The guild as the platform keeps it: channel identifiers are unique
    and older than the next identifier handed out. *)
Definition wf_guild (g : Guild) : Prop :=
  NoDup (map ch_id (channels_cache g))
  /\ forall c, In c (channels_cache g) -> (ch_id c < next_id g)%N.

(** The calls that only read from the platform. *)
Definition is_fetch (c : ApiCall) : bool :=
  match c with
  | MessagesFetch _ _ | ReactionUsersFetch _ _ | UsersFetch _ => true
  | _ => false
  end.

(** The messages seeding puts in front of the [older] ones, most recent
    first: one message per slot, in slot order, each carrying the bot's
    affirmative reaction; identifiers are handed out from [id] on. *)
Fixpoint seeded_slots (bot : User) (slots : list jsstring) (id : Snowflake)
         (older : list Message) : list Message :=
  match slots with
  | [] => older
  | slot :: rest =>
      seeded_slots bot rest (id + 1)%N
        (mkMessage id (TextBody slot) [mkReaction checkmark [bot]] :: older)
  end.

(** The same with the header embed first. *)
Definition seeded (bot : User) (dayLabel : jsstring) (slots : list jsstring)
           (id : Snowflake) (older : list Message) : list Message :=
  seeded_slots bot slots (id + 1)%N
               (mkMessage id (PlanningEmbed dayLabel) [] :: older).

(** The messages of the channels identified by [chan] are older than
    the identifier [n]. *)
Definition older_messages (chan : Snowflake) (cache : list Channel)
           (n : Snowflake) : Prop :=
  forall c m, In c cache -> ch_id c = chan -> In m (ch_messages c) ->
              (msg_id m < n)%N.

(** A channel the reconciler has no reason to delete: not a text
    channel under the category, or one named by a desired slug. *)
Definition kept (category : Channel) (desired : list jsstring) (c : Channel)
  : bool :=
  negb (is_planning_text category c && negb (set_has desired (ch_name c))).

(** What a reconcile pass started in [g0] maintains at every step: the
    guild stays well formed, the channels of [g0] it keeps are still
    there as they were, every other channel is a text channel it
    created under the category for a desired name, and the channels
    that are not text channels under the category are the same, in the
    same order. *)
Definition reconciling (category : Channel) (desired : list jsstring)
           (g0 g : Guild) : Prop :=
  wf_guild g
  /\ (next_id g0 <= next_id g)%N
  /\ (forall c, In c (channels_cache g0) -> kept category desired c = true ->
                In c (channels_cache g))
  /\ (forall c, In c (channels_cache g) ->
                In c (channels_cache g0)
                \/ ((next_id g0 <= ch_id c)%N
                    /\ is_planning_text category c = true
                    /\ In (ch_name c) desired))
  /\ filter (fun c => negb (is_planning_text category c)) (channels_cache g)
     = filter (fun c => negb (is_planning_text category c)) (channels_cache g0).

(** What the correlator started in [g0] maintains: channels and
    identifiers as they were, and only fetches issued. *)
Definition reading (g0 g : Guild) : Prop :=
  channels_cache g = channels_cache g0
  /\ next_id g = next_id g0
  /\ exists delta, calls g = calls g0 ++ delta
                   /\ Forall (fun x => is_fetch (fst x) = true) delta.

(** The fetches the correlator does not guard: a page of messages, a
    page of reacting users. *)
Definition is_page_fetch (c : ApiCall) : bool :=
  match c with
  | MessagesFetch _ _ | ReactionUsersFetch _ _ => true
  | _ => false
  end.

(** The state in which the correlator gives up: it has only read, and
    its last call is a page fetch that was rejected. *)
Definition gave_up (g0 g : Guild) : Prop :=
  reading g0 g
  /\ exists pre c, calls g = pre ++ [(c, false)] /\ is_page_fetch c = true.

(** A computation that leaves a part of the state as it was, whatever
    its outcome. *)
Definition keeps {S A X} (f : S -> X) (m : M S A) : Prop :=
  forall s r s', m s = (r, s') -> f s' = f s.

(* ================================================================== *)
(** * Configuration loader ([config/env]) *)
(* ================================================================== *)

Module Config.

(** A value computed while the module loads, or the [Error] thrown by
    [getRequiredEnv] with the key it names. *)
Inductive Loaded (A : Type) : Type :=
| Value (a : A)
| MissingRequired (key : jsstring).
Arguments Value {A} a.
Arguments MissingRequired {A} key.

Record DiscordConfig := mkDiscordConfig {
  token : jsstring;
  clientId : jsstring;
  guildId : jsstring
}.

Record TwilioConfig := mkTwilioConfig {
  accountSid : jsstring;
  authToken : jsstring;
  fromNumber : jsstring;
  gateNotificationNumbers : list jsstring;
  region : jsstring
}.

Record AppConfig := mkAppConfig {
  discord : DiscordConfig;
  planning : PlanningConfig;
  maintenanceCron : jsstring;
  timeOffsetHours : Q;
  defaultStatus : Status.GymStatus;
  images : Status.GymStatus -> jsstring;
  twilio : option TwilioConfig;
  rules : Rules.RulesConfig;
  trashChannelName : jsstring;
  timezone : jsstring
}.

Definition planningTimeSlots : list jsstring :=
  [ lit "08:00 - 10:00"; lit "10:00 - 12:00"; lit "12:00 - 14:00";
    lit "14:00 - 16:00"; lit "16:00 - 18:00"; lit "18:00 - 20:00";
    lit "20:00 - 22:00"; lit "22:00 - 00:00" ].

Section Loader.

(** [process.env] and [Number]. *)
Variable env : jsstring -> option jsstring.
Variable Number : jsstring -> JsNumber.

(** [Boolean(value)], and [!value], of a string or [undefined]. *)
Definition truthy (value : option jsstring) : bool :=
  match value with
  | Some (_ :: _) => true
  | _ => false
  end.

(** [value ?? fallback] *)
Definition nullish (value : option jsstring) (fallback : jsstring) : jsstring :=
  match value with
  | Some v => v
  | None => fallback
  end.

Definition getRequiredEnv (key : jsstring) : Loaded jsstring :=
  let value := env key in
  match value with
  | Some v => if negb (truthy value) then MissingRequired key else Value v
  | None => MissingRequired key
  end.

(** The strings of a list whose [undefined] entries were filtered out. *)
Definition strings (values : list (option jsstring)) : list jsstring :=
  flat_map (fun value => match value with Some v => [v] | None => [] end) values.

Definition collectGateNumbers : list jsstring :=
  let rawNumbers := [ env (lit "GATE_PHONE_NUMBER");
                      env (lit "GATE_PHONE_NUMBER_1");
                      env (lit "GATE_PHONE_NUMBER_2") ] in
  strings (filter truthy rawNumbers).

Definition buildTwilioConfig : option TwilioConfig :=
  let accountSid := env (lit "TWILIO_ACCOUNT_SID") in
  let authToken := env (lit "TWILIO_AUTH_TOKEN") in
  let fromNumber := env (lit "TWILIO_PHONE_NUMBER") in
  if negb (truthy accountSid) || negb (truthy authToken) || negb (truthy fromNumber)
  then None
  else
    match accountSid, authToken, fromNumber with
    | Some accountSid, Some authToken, Some fromNumber =>
        Some (mkTwilioConfig accountSid authToken fromNumber
                             collectGateNumbers
                             (nullish (env (lit "TWILIO_REGION")) (lit "ie1")))
    | _, _, _ => None
    end.

(** The object literal is evaluated field by field, in source order:
    the first required variable that is missing aborts the load. *)
Definition config : Loaded AppConfig :=
  match getRequiredEnv (lit "DISCORD_TOKEN") with
  | MissingRequired key => MissingRequired key
  | Value token =>
  match getRequiredEnv (lit "DISCORD_CLIENT_ID") with
  | MissingRequired key => MissingRequired key
  | Value clientId =>
  match getRequiredEnv (lit "DISCORD_GUILD_ID") with
  | MissingRequired key => MissingRequired key
  | Value guildId =>
      Value (mkAppConfig
        (mkDiscordConfig token clientId guildId)
        (mkPlanningConfig
           (nullish (env (lit "PLANNING_CATEGORY")) (lit "Planning"))
           (parseNumericEnv Number (env (lit "PLANNING_DAYS_AHEAD")) (inject_Z 7))
           planningTimeSlots)
        (nullish (env (lit "PLANNING_CRON")) (lit "*/1 11-20 * * *"))
        (parseNumericEnv Number (env (lit "TIME_OFFSET_HOURS")) (inject_Z 1))
        Status.Fermee
        (fun s => match s with
                  | Status.Ouverte =>
                      nullish (env (lit "GYM_STATUS_OPEN_IMAGE"))
                        (lit "https://cdn.discordapp.com/attachments/1254003995454996522/1278085289893695559/open.png")
                  | Status.Fermee =>
                      nullish (env (lit "GYM_STATUS_CLOSED_IMAGE"))
                        (lit "https://cdn.discordapp.com/attachments/1254003995454996522/1278085289054572575/close.png")
                  end)
        buildTwilioConfig
        (Rules.mkRulesConfig
           (nullish (env (lit "MEMBER_ROLE_NAME")) (lit "Membre"))
           (nullish (env (lit "RULES_LOG_FILE")) (lit "signatures_log.txt")))
        (nullish (env (lit "TRASH_CHANNEL_NAME")) (lit "rappels-poubelles"))
        (nullish (env (lit "APP_TIMEZONE")) (lit "Europe/Paris")))
  end end end.

End Loader.

End Config.

(* ================================================================== *)
(** * Gate service ([features/gate/gateService]) *)
(* ================================================================== *)

Module Gate.

(** [interaction.member]: a [GuildMember], which has a [nickname]
    property ([null] when no nickname is set), or the raw member data of
    the API, which has none. *)
Inductive InteractionMember :=
| GuildMember (nickname : option jsstring)
| APIInteractionGuildMember.

Record ButtonInteraction := mkInteraction {
  member : option InteractionMember;
  username : jsstring
}.

(** The text message: who asked, and when. *)
Record SmsBody := mkSmsBody {
  sms_userName : jsstring;
  sms_localizedTime : jsstring
}.

(** One line of the reply, per number. *)
Inductive ResultLine :=
| MessageEnvoye (number sid : jsstring)
| EchecEnvoi (number : jsstring).

Inductive ReplyContent :=
| Indisponible
| AucunNumero.

Inductive GateCall :=
| Reply (content : ReplyContent)
| DeferReply
| MessagesCreate (to from : jsstring) (body : SmsBody)
| EditReply (results : list ResultLine)
| AppendFile (path formattedDate userName : jsstring).

Inductive GateLog :=
| WarnTwilioNonConfigure
| ErrorEnvoiSms (number : jsstring)
| ErrorEcriture.

Record Env := mkEnv {
  gate_calls : list (GateCall * bool);
  gate_log : list GateLog
}.

(** The Twilio client, built from the credentials and the region. *)
Record Twilio := mkTwilio {
  twilio_accountSid : jsstring;
  twilio_authToken : jsstring;
  twilio_region : jsstring
}.

Record GateService := mkGateService {
  twilioConfig : option Config.TwilioConfig;
  client : option Twilio
}.

Definition PORTAL_LOG_FILE : jsstring := lit "portal_logs.txt".

Section Service.

(** Which calls are rejected, the [sid] Twilio gives a message it
    accepted, and the two renderings of [now]. *)
Variable rejects : list (GateCall * bool) -> GateCall -> bool.
Variable sid : list (GateCall * bool) -> jsstring.
Variable localizedTime : jsstring.
Variable formattedDate : jsstring.

Definition gate_logger (l : GateLog) : M Env unit :=
  modify (fun e => mkEnv (gate_calls e) (gate_log e ++ [l])).

Definition gate_await (c : GateCall) : M Env unit :=
  fun e =>
    let ok := negb (rejects (gate_calls e) c) in
    let e' := mkEnv (gate_calls e ++ [(c, ok)]) (gate_log e) in
    if ok then (Ok tt, e') else (Throw, e').

(** [client.messages.create({to, from, body})] resolves to a message,
    of which only the [sid] is read. *)
Definition messages_create (to from : jsstring) (body : SmsBody) : M Env jsstring :=
  history <- gets gate_calls ;;
  gate_await (MessagesCreate to from body) ;;
  ret (sid history).

(** [new GateService(twilioConfig)]; the Twilio constructor is taken to
    accept the credentials it is given. *)
Definition new_GateService (twilioConfig : option Config.TwilioConfig)
  : M Env GateService :=
  let client :=
    match twilioConfig with
    | Some c => Some (mkTwilio (Config.accountSid c) (Config.authToken c)
                               (Config.region c))
    | None => None
    end in
  match client with
  | None => gate_logger WarnTwilioNonConfigure
  | Some _ => ret tt
  end ;;
  ret (mkGateService twilioConfig client).

Definition isEnabled (this : GateService) : bool :=
  match client this with
  | Some _ => true
  | None => false
  end.

Definition logGateOpening (userName : jsstring) : M Env unit :=
  tryCatch (gate_await (AppendFile PORTAL_LOG_FILE formattedDate userName))
           (gate_logger ErrorEcriture).

(** The loop over the numbers; the state monad also threads
    [results]. *)
Fixpoint notify (from : jsstring) (messageBody : SmsBody)
         (numbers : list jsstring) (results : list ResultLine)
  : M Env (list ResultLine) :=
  match numbers with
  | [] => ret results
  | number :: rest =>
      results' <- tryCatch
                    (message_sid <- messages_create number from messageBody ;;
                     ret (results ++ [MessageEnvoye number message_sid]))
                    (gate_logger (ErrorEnvoiSms number) ;;
                     ret (results ++ [EchecEnvoi number])) ;;
      notify from messageBody rest results'
  end.

Definition handleOpenGate (this : GateService) (interaction : ButtonInteraction)
  : M Env unit :=
  match client this, twilioConfig this with
  | Some _, Some twilioConfig =>
      let numbers := Config.gateNotificationNumbers twilioConfig in
      if (length numbers =? 0)%nat
      then gate_await (Reply AucunNumero)
      else
        gate_await DeferReply ;;
        let memberNickname :=
          match member interaction with
          | Some (GuildMember nickname) => nickname
          | _ => None
          end in
        let userName :=
          match memberNickname with
          | Some nickname => nickname
          | None => username interaction
          end in
        let messageBody := mkSmsBody userName localizedTime in
        results <- notify (Config.fromNumber twilioConfig) messageBody numbers [] ;;
        gate_await (EditReply results) ;;
        logGateOpening userName
  | _, _ => gate_await (Reply Indisponible)
  end.

End Service.

(** [displayName] of [handleButtonInteraction] in the event router,
    computed from the same interaction. *)
Definition displayName (interaction : ButtonInteraction) : jsstring :=
  match member interaction with
  | Some (GuildMember nickname) =>
      match nickname with
      | Some n => n
      | None => username interaction
      end
  | _ => username interaction
  end.

(** The calls of a run that try to send a text message, and the number
    each goes to. *)
Definition is_sms (c : GateCall) : bool :=
  match c with MessagesCreate _ _ _ => true | _ => false end.

Definition is_journal (c : GateCall) : bool :=
  match c with AppendFile _ _ _ => true | _ => false end.

Definition new_gate_calls (e e' : Env) : list (GateCall * bool) :=
  skipn (length (gate_calls e)) (gate_calls e').

(** A result line reports the outcome of an attempt. *)
Definition reports (attempt : GateCall * bool) (line : ResultLine) : Prop :=
  match attempt with
  | (MessagesCreate to _ _, true) => exists s, line = MessageEnvoye to s
  | (MessagesCreate to _ _, false) => line = EchecEnvoi to
  | _ => False
  end.

Definition failure (attempt : GateCall * bool) : list GateLog :=
  match attempt with
  | (MessagesCreate to _ _, false) => [ErrorEnvoiSms to]
  | _ => []
  end.

(** The runs of [handleOpenGate] of a configured service with numbers
    to notify: the calls issued, the lines logged and the result. *)
Inductive gate_outcome (from : jsstring) (body : SmsBody) (numbers : list jsstring)
          (formattedDate : jsstring)
  : list (GateCall * bool) -> list GateLog -> Result unit -> Prop :=
| defer_rejected :
    gate_outcome from body numbers formattedDate [(DeferReply, false)] [] Throw
| edit_rejected attempts lines :
    map fst attempts = map (fun n => MessagesCreate n from body) numbers ->
    Forall2 reports attempts lines ->
    gate_outcome from body numbers formattedDate
      ((DeferReply, true) :: attempts ++ [(EditReply lines, false)])
      (flat_map failure attempts) Throw
| answered attempts lines written :
    map fst attempts = map (fun n => MessagesCreate n from body) numbers ->
    Forall2 reports attempts lines ->
    gate_outcome from body numbers formattedDate
      ((DeferReply, true) :: attempts
         ++ [(EditReply lines, true);
             (AppendFile PORTAL_LOG_FILE formattedDate (sms_userName body),
              written)])
      (flat_map failure attempts ++ (if written then [] else [ErrorEcriture]))
      (Ok tt).

End Gate.

(* ================================================================== *)
(** * Planning manager, as a whole ([features/planning/planningManager]) *)
(* ================================================================== *)

(** [task.stop()] on the task of index [task] among the scheduled
    ones ([true]: running). *)
Fixpoint stop (task : nat) (tasks : list bool) : list bool :=
  match tasks, task with
  | [], _ => []
  | _ :: rest, O => false :: rest
  | t :: rest, S task' => t :: stop task' rest
  end.

Module Planner.

Inductive PlannerLog :=
| CategorieCreee (categoryName : jsstring)
| ErreurSynchronisationPlanifiee.

(** The fields of [PlanningManager] ([maintenanceTask] is the index of
    the task among those [cron.schedule] has returned so far), and
    around them the guild [client.guilds.fetch] resolves to, the
    outcomes of these fetches, every scheduled task, and the lines the
    manager itself logs, each with the length of the guild's log when
    it was written. *)
Record Manager := mkManager {
  guild : Guild;
  guilds_fetched : list bool;
  categoryId : option Snowflake;
  maintenanceTask : option nat;
  cron_tasks : list bool;
  planner_log : list (nat * LogLevel * PlannerLog)
}.

Section Manager.

Variable toLocaleDateString : Date -> jsstring.
Variable toLowerCase : jsstring -> jsstring.
Variable rejects : list (ApiCall * bool) -> ApiCall -> bool.
(** Whether [client.guilds.fetch(guildId)] rejects, given the outcomes
    of the earlier fetches. *)
Variable unreachable : list bool -> bool.
Variable clientUser : User.
Variable config : PlanningConfig.

(** A computation on the guild, run by the manager. *)
Definition lift {A} (m : M Guild A) : M Manager A :=
  fun this =>
    let (r, g') := m (guild this) in
    (r, mkManager g' (guilds_fetched this) (categoryId this)
                  (maintenanceTask this) (cron_tasks this) (planner_log this)).

Definition planner_logger (level : LogLevel) (l : PlannerLog) : M Manager unit :=
  modify (fun this =>
    mkManager (guild this) (guilds_fetched this) (categoryId this)
              (maintenanceTask this) (cron_tasks this)
              (planner_log this ++ [(length (log (guild this)), level, l)])).

Definition fetchGuild : M Manager unit :=
  fun this =>
    let ok := negb (unreachable (guilds_fetched this)) in
    let this' := mkManager (guild this) (guilds_fetched this ++ [ok])
                           (categoryId this) (maintenanceTask this)
                           (cron_tasks this) (planner_log this) in
    if ok then (Ok tt, this') else (Throw, this').

Definition ensureCategory : M Manager Channel :=
  cache <- lift (gets channels_cache) ;;
  let existing :=
    find (fun channel =>
            ChannelType_eqb (ch_type channel) GuildCategory
            && eqb (ch_name channel) (categoryName config))
         cache in
  match existing with
  | Some existing => ret existing
  | None =>
      created <- lift (channels_create rejects (categoryName config)
                                       GuildCategory None) ;;
      planner_logger Info (CategorieCreee (categoryName config)) ;;
      ret created
  end.

Definition set_categoryId (id : Snowflake) : M Manager unit :=
  modify (fun this =>
    mkManager (guild this) (guilds_fetched this) (Some id)
              (maintenanceTask this) (cron_tasks this) (planner_log this)).

Definition scheduleMaintenance : M Manager unit :=
  this <- get ;;
  match maintenanceTask this with
  | Some task =>
      modify (fun this =>
        mkManager (guild this) (guilds_fetched this) (categoryId this)
                  None (stop task (cron_tasks this)) (planner_log this))
  | None => ret tt
  end ;;
  modify (fun this =>
    mkManager (guild this) (guilds_fetched this) (categoryId this)
              (Some (length (cron_tasks this))) (cron_tasks this ++ [true])
              (planner_log this)).

(** [today] is [new Date()] at local midnight, read when the pass
    starts. *)
Definition initialize (today : Date) : M Manager unit :=
  fetchGuild ;;
  category <- ensureCategory ;;
  set_categoryId (ch_id category) ;;
  lift (syncPlanning toLocaleDateString toLowerCase rejects clientUser config
                     today category) ;;
  scheduleMaintenance.

Definition syncPlanningCommand (today : Date) : M Manager unit :=
  fetchGuild ;;
  category <- ensureCategory ;;
  set_categoryId (ch_id category) ;;
  lift (syncPlanning toLocaleDateString toLowerCase rejects clientUser config
                     today category).

(** The callback [scheduleMaintenance] hands to [cron.schedule]. *)
Definition maintenance (today : Date) : M Manager unit :=
  tryCatch
    (fetchGuild ;;
     category <- ensureCategory ;;
     set_categoryId (ch_id category) ;;
     lift (syncPlanning toLocaleDateString toLowerCase rejects clientUser config
                        today category))
    (planner_logger Error ErreurSynchronisationPlanifiee).

End Manager.

(** [new PlanningManager(client, guildId)] *)
Definition new_PlanningManager (g : Guild) : Manager :=
  mkManager g [] None None [] [].

(** Every running task is the one the manager holds. *)
Definition tracked (this : Manager) : Prop :=
  forall task, nth_error (cron_tasks this) task = Some true ->
               maintenanceTask this = Some task.

End Planner.

(* ================================================================== *)
(** * Trash reminder service *)
(* ================================================================== *)

(** [String(n)] of a natural number. *)
Fixpoint decimal_from (fuel : nat) (n : N) (acc : jsstring) : jsstring :=
  match fuel with
  | O => acc
  | S fuel' =>
      let acc' := (48 + n mod 10)%N :: acc in
      if (n / 10 =? 0)%N then acc' else decimal_from fuel' (n / 10)%N acc'
  end.

Definition decimal (n : N) : jsstring :=
  decimal_from (S (N.to_nat (N.log2 n))) n [].

(** [parts.join(sep)] *)
Fixpoint join (sep : jsstring) (parts : list jsstring) : jsstring :=
  match parts with
  | [] => []
  | [p] => p
  | p :: rest => p ++ sep ++ join sep rest
  end.

Module Reminder.

Inductive TrashType := noir | jaune.

Record TrashReminderConfig := mkReminderConfig {
  type : TrashType;
  dayOfWeek : N;
  hour : N;
  reminder_timeSlots : list jsstring
}.

Definition relevantTimeSlots : list jsstring :=
  [lit "18:00 - 20:00"; lit "20:00 - 22:00"; lit "22:00 - 00:00"].

Definition reminderConfigs : list TrashReminderConfig :=
  [ mkReminderConfig noir 3 20 relevantTimeSlots;
    mkReminderConfig jaune 4 20 relevantTimeSlots ].

Inductive ReminderLog :=
| ServiceInitialise
| ChannelCree (channelName : jsstring) (category : option jsstring)
| RappelProgramme (type : TrashType) (cronExpression : jsstring)
| ErreurEnvoiRappel (type : TrashType)
| ChannelNonInitialise
| ChannelRappelsIntrouvable (channelId : Snowflake)
| RappelEnvoye (trashName : jsstring) (mentioned : nat).

(** The fields of [TrashReminderService] ([reminderTasks] holds the
    indices of its tasks among the scheduled ones), and around them the
    guild, the outcomes of the guild fetches, every scheduled task with
    its cron expression, and the lines the service itself logs, each
    with the length of the guild's log when it was written. *)
Record Service := mkService {
  guild : Guild;
  guilds_fetched : list bool;
  channelId : option Snowflake;
  reminderTasks : list nat;
  cron_tasks : list (jsstring * bool);
  reminder_log : list (nat * LogLevel * ReminderLog)
}.

(** [task.stop()] *)
Fixpoint stop_task (task : nat) (tasks : list (jsstring * bool))
  : list (jsstring * bool) :=
  match tasks, task with
  | [], _ => []
  | (e, _) :: rest, O => (e, false) :: rest
  | t :: rest, S task' => t :: stop_task task' rest
  end.

Section Service.

Variable toLocaleDateString : Date -> jsstring.
Variable toLowerCase : jsstring -> jsstring.
Variable rejects : list (ApiCall * bool) -> ApiCall -> bool.
Variable unreachable : list bool -> bool.
Variable accounts : Snowflake -> option User.
(** [config.planning] and [config.trash.channelName]. *)
Variable config : PlanningConfig.
Variable channelName : jsstring.

Definition lift {A} (m : M Guild A) : M Service A :=
  fun this =>
    let (r, g') := m (guild this) in
    (r, mkService g' (guilds_fetched this) (channelId this)
                  (reminderTasks this) (cron_tasks this) (reminder_log this)).

Definition reminder_logger (level : LogLevel) (l : ReminderLog) : M Service unit :=
  modify (fun this =>
    mkService (guild this) (guilds_fetched this) (channelId this)
              (reminderTasks this) (cron_tasks this)
              (reminder_log this ++ [(length (log (guild this)), level, l)])).

Definition fetchGuild : M Service unit :=
  fun this =>
    let ok := negb (unreachable (guilds_fetched this)) in
    let this' := mkService (guild this) (guilds_fetched this ++ [ok])
                           (channelId this) (reminderTasks this)
                           (cron_tasks this) (reminder_log this) in
    if ok then (Ok tt, this') else (Throw, this').

Definition ensureChannel : M Service Channel :=
  cache <- lift (gets channels_cache) ;;
  let existing :=
    find (fun channel =>
            ChannelType_eqb (ch_type channel) GuildText
            && eqb (ch_name channel) channelName)
         cache in
  match existing with
  | Some existing => ret existing
  | None =>
      let category :=
        find (fun channel =>
                ChannelType_eqb (ch_type channel) GuildCategory
                && eqb (ch_name channel) (lit "Fonctionnement asso"))
             cache in
      created <- lift (channels_create rejects channelName GuildText
                                       (option_map ch_id category)) ;;
      reminder_logger Info (ChannelCree channelName (option_map ch_name category)) ;;
      ret created
  end.

Definition set_channelId (id : Snowflake) : M Service unit :=
  modify (fun this =>
    mkService (guild this) (guilds_fetched this) (Some id)
              (reminderTasks this) (cron_tasks this) (reminder_log this)).

(** [`0 ${hour} * * ${dayOfWeek}`] *)
Definition cronExpression (reminderConfig : TrashReminderConfig) : jsstring :=
  lit "0 " ++ decimal (hour reminderConfig) ++ lit " * * "
      ++ decimal (dayOfWeek reminderConfig).

Definition scheduleReminders : M Service unit :=
  this <- get ;;
  forEach (reminderTasks this) (fun task =>
    modify (fun this =>
      mkService (guild this) (guilds_fetched this) (channelId this)
                (reminderTasks this) (stop_task task (cron_tasks this))
                (reminder_log this))) ;;
  modify (fun this =>
    mkService (guild this) (guilds_fetched this) (channelId this)
              [] (cron_tasks this) (reminder_log this)) ;;
  forEach reminderConfigs (fun reminderConfig =>
    modify (fun this =>
      mkService (guild this) (guilds_fetched this) (channelId this)
                (reminderTasks this ++ [length (cron_tasks this)])
                (cron_tasks this ++ [(cronExpression reminderConfig, true)])
                (reminder_log this)) ;;
    reminder_logger Info (RappelProgramme (type reminderConfig)
                                          (cronExpression reminderConfig))).

Definition initialize : M Service unit :=
  fetchGuild ;;
  channel <- ensureChannel ;;
  set_channelId (ch_id channel) ;;
  scheduleReminders ;;
  reminder_logger Info ServiceInitialise.

(** [`<@${user.id}>`] *)
Definition mention (user : User) : jsstring :=
  lit "<@" ++ decimal (user_id user) ++ lit ">".

(** The text common to both forms of the reminder; the wastebasket
    emoji is U+1F5D1 U+FE0F, the yellow circle U+1F7E1, [à] is
    U+00E0. *)
Definition reminderText (type : TrashType) : jsstring :=
  let trashEmoji := match type with
                    | noir => [55357; 56785; 65039]%N
                    | jaune => [55357; 57313]%N
                    end in
  let trashName := match type with
                   | noir => lit "noire"
                   | jaune => lit "jaune"
                   end in
  trashEmoji ++ lit " **Rappel: Poubelle " ++ trashName ++ lit "**" ++ [10; 10]%N
    ++ lit "N'oubliez pas de sortir la poubelle " ++ trashName
    ++ lit " ce soir " ++ [224%N] ++ lit " 20h !".

(** [today] is [new Date()] at local midnight, read by
    [getUsersFromPlanning]. *)
Definition sendReminder (today : Date) (reminderConfig : TrashReminderConfig)
  : M Service unit :=
  this <- get ;;
  match channelId this with
  | None => reminder_logger Error ChannelNonInitialise
  | Some channelId =>
      fetchGuild ;;
      cache <- lift (gets channels_cache) ;;
      match find (fun channel => (ch_id channel =? channelId)%N) cache with
      | None => reminder_logger Error (ChannelRappelsIntrouvable channelId)
      | Some channel =>
          users <- lift (getUsersFromPlanning toLocaleDateString toLowerCase
                           rejects accounts config today
                           (Z.of_N (dayOfWeek reminderConfig))
                           (reminder_timeSlots reminderConfig)) ;;
          let mentions :=
            if (0 <? length users)%nat
            then join (lit " ") (map mention users)
            else [] in
          let trashName := match type reminderConfig with
                           | noir => lit "noire"
                           | jaune => lit "jaune"
                           end in
          let message :=
            match mentions with
            | _ :: _ => reminderText (type reminderConfig) ++ [10; 10]%N ++ mentions
            | [] => reminderText (type reminderConfig)
            end in
          lift (channel_send rejects channel (TextBody message)) ;;
          reminder_logger Info (RappelEnvoye trashName (length users))
      end
  end.

(** The callback [scheduleReminders] hands to [cron.schedule]. *)
Definition reminder (today : Date) (reminderConfig : TrashReminderConfig)
  : M Service unit :=
  tryCatch (sendReminder today reminderConfig)
           (reminder_logger Error (ErreurEnvoiRappel (type reminderConfig))).

End Service.

End Reminder.

(** The first call issued since [g0] is [c]. *)
Definition first_call (g0 : Guild) (c : ApiCall) (g : Guild) : Prop :=
  exists ok rest, calls g = calls g0 ++ (c, ok) :: rest.

(** The reminder, in one formula: the common text, then, when there is
    somebody to mention, an empty line and the mentions separated by
    spaces. *)
Definition reminder_message (type : Reminder.TrashType) (users : list User)
  : jsstring :=
  Reminder.reminderText type
  ++ match users with
     | [] => []
     | _ :: _ => [10; 10]%N ++ join (lit " ") (map Reminder.mention users)
     end.

(** The new calls of a reminder run: fetches, then at most one message,
    sent to the reminder channel. *)
Definition reminder_calls (channelId : option Snowflake)
           (delta : list (ApiCall * bool)) : Prop :=
  exists fetches tail,
    delta = fetches ++ tail
    /\ Forall (fun x => is_fetch (fst x) = true) fetches
    /\ (tail = []
        \/ exists id message ok,
            channelId = Some id
            /\ tail = [(ChannelSend id (TextBody message), ok)]).

(** Every running task is one the reminder service holds. *)
Definition held (this : Reminder.Service) : Prop :=
  forall task e, nth_error (Reminder.cron_tasks this) task = Some (e, true) ->
                 In task (Reminder.reminderTasks this).

(* ================================================================== *)
(** * Event router ([events/registerEvents]), source and compiled *)
(* ================================================================== *)

(** [throw] *)
Definition throw {S A} : M S A := fun s => (Throw, s).

Module Router.

Inductive InteractionKind :=
| ChatInputCommand (commandName subCommand : jsstring)
| ButtonPress (customId : jsstring)
| OtherInteraction.

(** What the handlers read of an interaction. *)
Record Interaction := mkInteraction {
  kind : InteractionKind;
  channel : option (Snowflake * ChannelType);
  member : option Gate.InteractionMember;
  user : Rules.InteractionUser;
  guild_roles : option (list Rules.Role)
}.

Inductive Content :=
| CommandeIndisponible
| StatutPublie
| SynchronisationTerminee
| AucunMessageDeStatut
| StatutMisAJour (status : Status.GymStatus)
| ErreurMiseAJourStatut.

Inductive InteractionCall :=
| Reply (content : Content)
| FollowUp (content : Content)
| DeferReply
| DeferUpdate
| EditReply (content : Content).

Inductive RouterLog :=
| ConnecteEnTantQue (tag : jsstring)
| ErreurInitialisationPlanning
| ErreurTraitementInteraction
| BoutonNonGere (customId : jsstring)
| ErreurMiseAJourStatutSalle.

(** [EventContext]: the services, and around them the interaction being
    handled (its [replied] and [deferred] flags, the calls issued on
    it) and the lines the router itself logs. *)
Record Context := mkContext {
  statusManager : Status.Manager;
  planningManager : Planner.Manager;
  gateService : Gate.GateService;
  gate_env : Gate.Env;
  rules_env : Rules.Env;
  replied : bool;
  deferred : bool;
  interaction_calls : list (InteractionCall * bool);
  router_log : list RouterLog
}.

Definition hasStatusMessage (this : Status.Manager) : bool :=
  match Status.statusMessage this with
  | Some _ => true
  | None => false
  end.

(** The interaction as the gate service and the rules service read
    it. *)
Definition gate_interaction (interaction : Interaction) : Gate.ButtonInteraction :=
  Gate.mkInteraction (member interaction) (Rules.iu_username (user interaction)).

Definition rules_interaction (interaction : Interaction) : Rules.ButtonInteraction :=
  Rules.mkInteraction (guild_roles interaction) (user interaction).

Section Events.

(** The status manager. *)
Variable images : Status.GymStatus -> jsstring.
Variable status_rejects : list (Status.StatusCall * bool) -> Status.StatusCall -> bool.
(** The planning manager. *)
Variable toLocaleDateString : Date -> jsstring.
Variable toLowerCase : jsstring -> jsstring.
Variable rejects : list (ApiCall * bool) -> ApiCall -> bool.
Variable unreachable : list bool -> bool.
Variable clientUser : User.
Variable config : PlanningConfig.
Variable today : Date.
(** The gate service. *)
Variable gate_rejects : list (Gate.GateCall * bool) -> Gate.GateCall -> bool.
Variable sid : list (Gate.GateCall * bool) -> jsstring.
Variable localizedTime : jsstring.
Variable gate_formattedDate : jsstring.
(** The rules service. *)
Variable rules_config : Rules.RulesConfig.
Variable rules_rejects : list (Rules.RulesCall * bool) -> Rules.RulesCall -> bool.
Variable rules_formattedDate : jsstring.
(** The calls on the interaction itself. *)
Variable interaction_rejects
  : list (InteractionCall * bool) -> InteractionCall -> bool.

Definition liftStatus {A} (m : M Status.Manager A) : M Context A :=
  fun ctx =>
    let (r, s) := m (statusManager ctx) in
    (r, mkContext s (planningManager ctx) (gateService ctx) (gate_env ctx)
                  (rules_env ctx) (replied ctx) (deferred ctx)
                  (interaction_calls ctx) (router_log ctx)).

Definition liftPlanning {A} (m : M Planner.Manager A) : M Context A :=
  fun ctx =>
    let (r, s) := m (planningManager ctx) in
    (r, mkContext (statusManager ctx) s (gateService ctx) (gate_env ctx)
                  (rules_env ctx) (replied ctx) (deferred ctx)
                  (interaction_calls ctx) (router_log ctx)).

Definition liftGate {A} (m : M Gate.Env A) : M Context A :=
  fun ctx =>
    let (r, s) := m (gate_env ctx) in
    (r, mkContext (statusManager ctx) (planningManager ctx) (gateService ctx) s
                  (rules_env ctx) (replied ctx) (deferred ctx)
                  (interaction_calls ctx) (router_log ctx)).

Definition liftRules {A} (m : M Rules.Env A) : M Context A :=
  fun ctx =>
    let (r, s) := m (rules_env ctx) in
    (r, mkContext (statusManager ctx) (planningManager ctx) (gateService ctx)
                  (gate_env ctx) s (replied ctx) (deferred ctx)
                  (interaction_calls ctx) (router_log ctx)).

Definition router_logger (l : RouterLog) : M Context unit :=
  modify (fun ctx =>
    mkContext (statusManager ctx) (planningManager ctx) (gateService ctx)
              (gate_env ctx) (rules_env ctx) (replied ctx) (deferred ctx)
              (interaction_calls ctx) (router_log ctx ++ [l])).

Definition interaction_await (c : InteractionCall) : M Context unit :=
  fun ctx =>
    let ok := negb (interaction_rejects (interaction_calls ctx) c) in
    let ctx' := mkContext (statusManager ctx) (planningManager ctx)
                          (gateService ctx) (gate_env ctx) (rules_env ctx)
                          (replied ctx) (deferred ctx)
                          (interaction_calls ctx ++ [(c, ok)]) (router_log ctx) in
    if ok then (Ok tt, ctx') else (Throw, ctx').

Definition set_replied : M Context unit :=
  modify (fun ctx =>
    mkContext (statusManager ctx) (planningManager ctx) (gateService ctx)
              (gate_env ctx) (rules_env ctx) true (deferred ctx)
              (interaction_calls ctx) (router_log ctx)).

Definition set_deferred : M Context unit :=
  modify (fun ctx =>
    mkContext (statusManager ctx) (planningManager ctx) (gateService ctx)
              (gate_env ctx) (rules_env ctx) (replied ctx) true
              (interaction_calls ctx) (router_log ctx)).

(** The methods of the interaction, as the library has them: a first
    response is refused once the interaction was answered or deferred,
    a later one before it was. *)
Definition reply (content : Content) : M Context unit :=
  ctx <- get ;;
  if deferred ctx || replied ctx then throw
  else interaction_await (Reply content) ;; set_replied.

Definition deferReply : M Context unit :=
  ctx <- get ;;
  if deferred ctx || replied ctx then throw
  else interaction_await DeferReply ;; set_deferred.

Definition deferUpdate : M Context unit :=
  ctx <- get ;;
  if deferred ctx || replied ctx then throw
  else interaction_await DeferUpdate ;; set_deferred.

Definition followUp (content : Content) : M Context unit :=
  ctx <- get ;;
  if negb (deferred ctx) && negb (replied ctx) then throw
  else interaction_await (FollowUp content) ;; set_replied.

Definition editReply (content : Content) : M Context unit :=
  ctx <- get ;;
  if negb (deferred ctx) && negb (replied ctx) then throw
  else interaction_await (EditReply content) ;; set_replied.

(** [updateGymStatus] of the TypeScript source. *)
Definition updateGymStatus (status : Status.GymStatus) (actor : jsstring)
  : M Context unit :=
  ctx <- get ;;
  if negb (hasStatusMessage (statusManager ctx))
  then reply AucunMessageDeStatut
  else
    liftStatus (Status.updateStatus status actor) ;;
    liftStatus (Status.refreshStatusMessage images status_rejects) ;;
    ctx <- get ;;
    if replied ctx || deferred ctx
    then followUp (StatutMisAJour status)
    else reply (StatutMisAJour status).

(** [updateGymStatus] of the compiled variant
    ([dist/events/registerEvents.js]), which goes with the compiled
    status manager. *)
Definition updateGymStatus_dist (status : Status.GymStatus) (actor : jsstring)
  : M Context unit :=
  tryCatch
    (ctx <- get ;;
     if negb (hasStatusMessage (statusManager ctx))
     then reply AucunMessageDeStatut
     else
       deferUpdate ;;
       liftStatus (Status.updateStatus status actor) ;;
       liftStatus (Status.refreshStatusMessage_dist images status_rejects))
    (router_logger ErreurMiseAJourStatutSalle ;;
     ctx <- get ;;
     if replied ctx || deferred ctx
     then followUp ErreurMiseAJourStatut
     else reply ErreurMiseAJourStatut).

Definition handleGymStatusCommand (interaction : Interaction) : M Context unit :=
  match channel interaction with
  | None => reply CommandeIndisponible
  | Some (id, type) =>
      if negb (ChannelType_eqb type GuildText)
      then reply CommandeIndisponible
      else
        deferReply ;;
        liftStatus (Status.publishStatus images status_rejects id) ;;
        editReply StatutPublie
  end.

Definition handleChatInputInteraction (interaction : Interaction)
           (commandName subCommand : jsstring) : M Context unit :=
  if negb (eqb commandName (lit "gym")) then ret tt
  else if eqb subCommand (lit "status") then handleGymStatusCommand interaction
  else if eqb subCommand (lit "setup")
  then
    deferReply ;;
    liftPlanning (Planner.syncPlanningCommand toLocaleDateString toLowerCase
                    rejects unreachable clientUser config today) ;;
    editReply SynchronisationTerminee
  else ret tt.

Definition handleButtonInteraction (interaction : Interaction)
           (customId : jsstring) : M Context unit :=
  let displayName :=
    match member interaction with
    | Some (Gate.GuildMember nickname) =>
        match nickname with
        | Some n => n
        | None => Rules.iu_username (user interaction)
        end
    | _ => Rules.iu_username (user interaction)
    end in
  if eqb customId (lit "openGym")
  then updateGymStatus Status.Ouverte displayName
  else if eqb customId (lit "closeGym")
  then updateGymStatus Status.Fermee displayName
  else if eqb customId (lit "openGate")
  then
    ctx <- get ;;
    liftGate (Gate.handleOpenGate gate_rejects sid localizedTime
                gate_formattedDate (gateService ctx)
                (gate_interaction interaction))
  else if eqb customId (lit "acceptRules")
  then liftRules (Rules.handleAcceptRules rules_config rules_rejects
                    rules_formattedDate (rules_interaction interaction))
  else router_logger (BoutonNonGere customId).

(** The listener of [interactionCreate]. *)
Definition onInteractionCreate (interaction : Interaction) : M Context unit :=
  tryCatch
    match kind interaction with
    | ChatInputCommand commandName subCommand =>
        handleChatInputInteraction interaction commandName subCommand
    | ButtonPress customId => handleButtonInteraction interaction customId
    | OtherInteraction => ret tt
    end
    (router_logger ErreurTraitementInteraction).

(** The listener of [ready]; [clientUser_tag] is [client.user?.tag]. *)
Definition onReady (clientUser_tag : option jsstring) : M Context unit :=
  match clientUser_tag with
  | None => ret tt
  | Some tag =>
      router_logger (ConnecteEnTantQue tag) ;;
      tryCatch
        (liftPlanning (Planner.initialize toLocaleDateString toLowerCase rejects
                         unreachable clientUser config today))
        (router_logger ErreurInitialisationPlanning)
  end.

End Events.

(** A context whose interaction has just arrived. *)
Definition fresh (ctx : Context) : Prop :=
  replied ctx = false /\ deferred ctx = false.

Definition new_interaction_calls (ctx ctx' : Context)
  : list (InteractionCall * bool) :=
  skipn (length (interaction_calls ctx)) (interaction_calls ctx').

End Router.

(* ================================================================== *)
(** * Concrete services *)
(* ================================================================== *)

Module GateExamples.
Import Gate.

Definition cfg : Config.TwilioConfig :=
  Config.mkTwilioConfig (lit "AC0123") (lit "secret") (lit "+33100000000")
                        [lit "+33611111111"; lit "+33622222222"] (lit "ie1").

Definition service : GateService :=
  mkGateService (Some cfg) (Some (mkTwilio (lit "AC0123") (lit "secret") (lit "ie1"))).

Definition disabled : GateService := mkGateService None None.

(** Twilio numbers the messages it accepts. *)
Definition sid (history : list (GateCall * bool)) : jsstring :=
  lit "SM" ++ decimal (N.of_nat (length history)).

(** The second number cannot be reached. *)
Definition second_fails (_ : list (GateCall * bool)) (c : GateCall) : bool :=
  match c with
  | MessagesCreate to _ _ => eqb to (lit "+33622222222")
  | _ => false
  end.

Definition press : ButtonInteraction :=
  mkInteraction (Some (GuildMember (Some (lit "Dave L.")))) (lit "dave").

Definition empty : Env := mkEnv [] [].

Definition time : jsstring := lit "20:00".
Definition date : jsstring := lit "2 novembre 2026, 20:00:00".

End GateExamples.

Module ServiceExamples.
Import Examples.
Local Open Scope N_scope.

Definition reachable (_ : list bool) : bool := false.

(** The planning manager on the guild of scenario A, and after one
    manual pass on Monday 2 November 2026. *)
Definition managerA : Planner.Manager := Planner.new_PlanningManager guildA.

Abbreviation setup_monday :=
  (Planner.syncPlanningCommand FrFR.toLocaleDateString FrFR.toLowerCase
     (@never ApiCall) reachable bot config3 FrFR.monday).

Definition managerA' : Planner.Manager :=
  Eval vm_compute in snd (setup_monday managerA).

(** A manager on a guild that has no planning category yet, and after
    [ensureCategory]. *)
Definition manager0 : Planner.Manager :=
  Planner.new_PlanningManager guild_no_category.

Definition created_category : Channel :=
  mkChannel 200 planning None GuildCategory [].

Definition manager1 : Planner.Manager :=
  Eval vm_compute in
    snd (Planner.ensureCategory (@never ApiCall) config3 manager0).

(** The reminder service: scenario B with a reminder channel. *)
Definition reminders : Channel :=
  mkChannel 104 (lit "rappels-poubelles") None GuildText [].

Definition guildR : Guild :=
  mkGuild [category; today_channel messagesB; reminders] [] [] 400.

Definition serviceR : Reminder.Service :=
  Reminder.mkService guildR [] (Some 104) [] [] [].

Definition unstarted : Reminder.Service :=
  Reminder.mkService guildB [] None [] [] [].

Definition noir_reminder : Reminder.TrashReminderConfig :=
  Reminder.mkReminderConfig Reminder.noir 3 20 Reminder.relevantTimeSlots.

Abbreviation remind_monday :=
  (Reminder.sendReminder FrFR.toLocaleDateString FrFR.toLowerCase
     (@never ApiCall) reachable directory config3 FrFR.monday).

Definition serviceR' : Reminder.Service :=
  Eval vm_compute in snd (remind_monday noir_reminder serviceR).

Abbreviation start_reminders :=
  (Reminder.initialize (@never ApiCall) reachable (lit "rappels-poubelles")).

Definition started : Reminder.Service :=
  Eval vm_compute in snd (start_reminders unstarted).

End ServiceExamples.

Module RouterExamples.
Import Router.
Local Open Scope N_scope.

(** The context when a member presses a button under the published
    status message. *)
Definition ctx0 : Context :=
  mkContext StatusExamples.published ServiceExamples.managerA
            GateExamples.service GateExamples.empty RulesExamples.empty
            false false [] [].

Definition tracked_message : Status.StatusMessage :=
  Status.mkStatusMessage 900 500 GuildText.

Definition command_in_text_channel : Interaction :=
  mkInteraction (ChatInputCommand (lit "gym") (lit "status"))
                (Some (500, GuildText)) None RulesExamples.dave None.

End RouterExamples.

(* ================================================================== *)
(** * Strings and the planning window *)
(* ================================================================== *)

Unset Implicit Arguments.

Lemma eqb_eq (a b : jsstring) : eqb a b = true <-> a = b.
Proof.
  revert b; induction a as [|x a IH]; intros [|y b]; simpl;
    try (split; [discriminate | congruence]); try tauto.
  rewrite andb_true_iff, N.eqb_eq, IH. split.
  - intros [-> ->]; reflexivity.
  - intros H; inversion H; auto.
Qed.

Lemma eqb_refl (a : jsstring) : eqb a a = true.
Proof. apply eqb_eq; reflexivity. Qed.

Lemma eqb_sym (a b : jsstring) : eqb a b = eqb b a.
Proof.
  destruct (eqb a b) eqn:E; symmetry.
  - apply eqb_eq in E; subst; apply eqb_refl.
  - destruct (eqb b a) eqn:E'; auto. apply eqb_eq in E'; subst.
    rewrite eqb_refl in E; discriminate.
Qed.

Lemma set_has_In (s : StringSet) (x : jsstring) : set_has s x = true <-> In x s.
Proof.
  unfold set_has. rewrite existsb_exists. split.
  - intros (y & Hy & E). apply eqb_eq in E; subst; auto.
  - intros H. exists x. split; auto using eqb_refl.
Qed.

Lemma set_add_In (s : StringSet) (x y : jsstring) :
  In y (set_add s x) <-> In y s \/ y = x.
Proof.
  unfold set_add. destruct (set_has s x) eqn:E.
  - apply set_has_In in E. split; [auto | intros [H | ->]; auto].
  - rewrite in_app_iff; simpl. intuition.
Qed.

Lemma take_drop_spaces (s : jsstring) : take_spaces s ++ drop_spaces s = s.
Proof.
  induction s as [|c s IH]; simpl; auto.
  destruct (is_space c); simpl; congruence.
Qed.

Lemma take_spaces_all (s : jsstring) : forallb is_space (take_spaces s) = true.
Proof.
  induction s as [|c s IH]; simpl; auto.
  destruct (is_space c) eqn:E; simpl; auto. rewrite E; auto.
Qed.

Lemma drop_spaces_starts (s : jsstring) : starts_nonspace (drop_spaces s).
Proof.
  induction s as [|c s IH]; simpl; auto.
  destruct (is_space c) eqn:E; simpl; auto.
Qed.

Lemma drop_spaces_length (s : jsstring) : length (drop_spaces s) <= length s.
Proof.
  induction s as [|c s IH]; simpl; auto.
  destruct (is_space c); simpl; lia.
Qed.

Lemma replace_ws_in_run (s : jsstring) :
  replace_ws_from true s = replace_ws_from false (drop_spaces s).
Proof.
  induction s as [|c s IH]; simpl; auto.
  destruct (is_space c) eqn:E; simpl; auto. rewrite E; auto.
Qed.

Lemma replace_ws_collapsed (s : jsstring) : collapsed s (replace_ws s).
Proof.
  unfold replace_ws.
  remember (length s) as n eqn:Hn.
  assert (Hle : length s <= n) by lia. clear Hn.
  revert s Hle; induction n as [|n IH]; intros [|c s] Hle; simpl in *;
    try constructor; try lia.
  destruct (is_space c) eqn:E.
  - rewrite replace_ws_in_run.
    pattern s at 1; rewrite <- (take_drop_spaces s).
    change (c :: take_spaces s ++ drop_spaces s)
      with ((c :: take_spaces s) ++ drop_spaces s).
    apply collapsed_run.
    + discriminate.
    + simpl. rewrite E, take_spaces_all; reflexivity.
    + apply drop_spaces_starts.
    + apply IH. pose proof (drop_spaces_length s). lia.
  - constructor; auto. apply IH; lia.
Qed.

Lemma replace_ws_no_space (s : jsstring) :
  forallb (fun c => negb (is_space c)) (replace_ws s) = true.
Proof.
  unfold replace_ws. generalize false.
  induction s as [|c s IH]; intros b; simpl; auto.
  destruct (is_space c) eqn:E.
  - destruct b; simpl; auto.
  - simpl. rewrite E; simpl; auto.
Qed.

Lemma Qlt_bool_iff (x y : Q) : Qlt_bool x y = true <-> (x < y)%Q.
Proof.
  unfold Qlt_bool. rewrite negb_true_iff.
  destruct (Qle_bool y x) eqn:E.
  - apply Qle_bool_iff in E. split; [discriminate|].
    intros H. exfalso. apply (Qlt_irrefl x). eapply Qlt_le_trans; eauto.
  - split; auto. intros _. apply Qnot_le_lt. intros H.
    apply Qle_bool_iff in H. congruence.
Qed.

(** The integers of [[0, daysAhead)] are those below the ceiling. *)
Lemma below_ceiling (d : Q) (i : Z) :
  (0 <= i)%Z -> ((inject_Z i < d)%Q <-> (i < Qceiling d)%Z).
Proof.
  intros Hi. split; intros H.
  - destruct (Z_lt_le_dec i (Qceiling d)) as [|Hge]; auto.
    exfalso. apply (Qlt_irrefl d).
    eapply Qle_lt_trans; [apply Qle_ceiling|].
    eapply Qle_lt_trans; [|exact H].
    rewrite <- Zle_Qle; exact Hge.
  - eapply Qle_lt_trans; [|apply Qceiling_lt].
    rewrite <- Zle_Qle. lia.
Qed.

Section Window.
Variable toLocaleDateString : Date -> jsstring.
Variable toLowerCase : jsstring -> jsstring.
Variable config : PlanningConfig.
Variable today : Date.

Local Abbreviation entry := (window_entry toLocaleDateString toLowerCase today).

Lemma window_loop_spec (fuel : nat) :
  forall i dc an,
    (forall k, k < fuel ->
               (inject_Z (i + Z.of_nat k) < daysAhead config)%Q) ->
    window_loop toLocaleDateString toLowerCase config today fuel i dc an =
    (dc ++ map (fun k => entry (i + Z.of_nat k)) (seq 0 fuel),
     fold_left set_add
       (map (fun k => name (entry (i + Z.of_nat k))) (seq 0 fuel)) an,
     (i + Z.of_nat fuel)%Z).
Proof.
  induction fuel as [|fuel IH]; intros i dc an Hlt.
  - simpl. rewrite app_nil_r, Z.add_0_r. reflexivity.
  - cbn [window_loop].
    assert (H0 : Qlt_bool (inject_Z i) (daysAhead config) = true).
    { apply Qlt_bool_iff. specialize (Hlt 0%nat ltac:(lia)).
      rewrite Z.add_0_r in Hlt. exact Hlt. }
    rewrite H0. rewrite IH.
    + cbn [seq map fold_left]. rewrite <- seq_shift, !map_map.
      unfold addDays, dayLabelOf. rewrite Z.add_0_r, <- app_assoc.
      cbn [app]. f_equal; [f_equal|lia].
      * f_equal. f_equal. apply map_ext. intros k. f_equal. lia.
      * f_equal. apply map_ext. intros k. do 2 f_equal. lia.
    + intros k Hk. specialize (Hlt (S k) ltac:(lia)).
      replace (i + 1 + Z.of_nat k)%Z with (i + Z.of_nat (S k))%Z by lia.
      exact Hlt.
Qed.

Lemma window_fuel_enough (k : nat) :
  k < window_fuel config -> (inject_Z (0 + Z.of_nat k) < daysAhead config)%Q.
Proof.
  unfold window_fuel. intros Hk. apply below_ceiling; lia.
Qed.

(** The loop stops because its condition is false, not for lack of
    fuel. *)
Lemma window_loop_exits :
  let '(_, _, i) :=
    window_loop toLocaleDateString toLowerCase config today
                (window_fuel config) 0 [] [] in
  Qlt_bool (inject_Z i) (daysAhead config) = false.
Proof.
  rewrite window_loop_spec by apply window_fuel_enough.
  destruct (Qlt_bool _ _) eqn:E; auto.
  apply Qlt_bool_iff, below_ceiling in E; unfold window_fuel in *; lia.
Qed.

Lemma planningWindow_entries :
  fst (planningWindow toLocaleDateString toLowerCase config today) =
  map (fun k => entry (Z.of_nat k)) (seq 0 (window_fuel config)).
Proof.
  unfold planningWindow.
  rewrite window_loop_spec by apply window_fuel_enough. reflexivity.
Qed.

Lemma fold_set_add_In (xs : list jsstring) :
  forall s y, In y (fold_left set_add xs s) <-> In y s \/ In y xs.
Proof.
  induction xs as [|x xs IH]; intros s y; simpl; [tauto|].
  rewrite IH, set_add_In. intuition.
Qed.

Lemma planningWindow_allowed (n : jsstring) :
  set_has (snd (planningWindow toLocaleDateString toLowerCase config today)) n = true
  <-> In n (map name (fst (planningWindow toLocaleDateString toLowerCase config today))).
Proof.
  rewrite set_has_In, planningWindow_entries. unfold planningWindow.
  rewrite window_loop_spec by apply window_fuel_enough. cbn [fst snd].
  rewrite fold_set_add_In, map_map. simpl. tauto.
Qed.

(** The desired names are the slugs of [today + i] for the integers
    [i] of [[0, daysAhead)]. *)
Lemma desired_names_spec (n : jsstring) :
  In n (map name (fst (planningWindow toLocaleDateString toLowerCase config today)))
  <-> exists i : Z, (0 <= i)%Z /\ (inject_Z i < daysAhead config)%Q
                    /\ n = name (entry i).
Proof.
  rewrite planningWindow_entries, map_map, in_map_iff. split.
  - intros (k & <- & Hk). apply in_seq in Hk. exists (Z.of_nat k).
    split; [lia|]. split; auto.
    apply below_ceiling; unfold window_fuel in *; lia.
  - intros (i & Hi & Hlt & ->). exists (Z.to_nat i).
    rewrite Z2Nat.id by lia. split; auto.
    apply in_seq. apply below_ceiling in Hlt; auto.
    unfold window_fuel; lia.
Qed.

Lemma planningWindow_empty :
  (daysAhead config <= 0)%Q ->
  planningWindow toLocaleDateString toLowerCase config today = ([], []).
Proof.
  intros Hle. unfold planningWindow.
  assert (Hf : window_fuel config = 0%nat).
  { unfold window_fuel.
    assert (Qceiling (daysAhead config) <= 0)%Z; [|lia].
    change 0%Z with (Qceiling 0). apply Qceiling_resp_le; exact Hle. }
  rewrite Hf. reflexivity.
Qed.

Lemma Qceiling_inject (n : Z) (d : Q) : (d == inject_Z n)%Q -> Qceiling d = n.
Proof.
  intros E. rewrite (Qceiling_comp _ _ E). apply Qceiling_Z.
Qed.

(** C3. The planning window is a function of [today], the window size
    and the runtime's rendering only (no guild state, no oracle enters
    it), so every call yields the same sequence.  It has one entry for
    each integer offset [i] of [[0, daysAhead)], in order; [N] entries
    when [daysAhead] is the integer [N].  The entry of offset [i] has as
    label the lower-cased fr-FR rendering of [today + i], and as slug
    that label with every maximal run of white space replaced by one
    hyphen, so that no white space is left in it.  The reminder
    correlator computes the slug of offset 0. *)
Theorem planningWindow_deterministic :
  let N := window_fuel config in
  let window := fst (planningWindow toLocaleDateString toLowerCase config today) in
  (forall i : Z, (0 <= i < Z.of_nat N)%Z <->
                 (0 <= i)%Z /\ (inject_Z i < daysAhead config)%Q)
  /\ (forall n : nat, (daysAhead config == inject_Z (Z.of_nat n))%Q -> N = n)
  /\ length window = N
  /\ (forall k, k < N ->
        nth_error window k
        = Some (mkDesired
                  (replace_ws (toLowerCase (toLocaleDateString (today + Z.of_nat k)%Z)))
                  (toLowerCase (toLocaleDateString (today + Z.of_nat k)%Z))))
  /\ (forall d, In d window ->
                collapsed (label d) (name d)
                /\ forallb (fun c => negb (is_space c)) (name d) = true)
  /\ reminderChannelName toLocaleDateString toLowerCase today
     = replace_ws (toLowerCase (toLocaleDateString (today + 0)%Z)).
Proof.
  cbv zeta. rewrite planningWindow_entries.
  split; [|split; [|split; [|split; [|split]]]].
  - intros i. unfold window_fuel. split.
    + intros Hi. split; [lia|]. apply below_ceiling; lia.
    + intros (Hi & Hlt). apply below_ceiling in Hlt; lia.
  - intros n E. unfold window_fuel. rewrite (Qceiling_inject _ _ E). lia.
  - rewrite length_map, length_seq. reflexivity.
  - intros k Hk. rewrite nth_error_map, nth_error_seq.
    apply Nat.ltb_lt in Hk. rewrite Hk. reflexivity.
  - intros d Hd. apply in_map_iff in Hd. destruct Hd as (k & <- & _).
    split; [apply replace_ws_collapsed | apply replace_ws_no_space].
  - unfold reminderChannelName. rewrite Z.add_0_r. reflexivity.
Qed.

End Window.

(* ================================================================== *)
(** * Runs of monadic code *)
(* ================================================================== *)

Lemma bind_run {S A B} (m : M S A) (k : A -> M S B) s r s' :
  bind m k s = (r, s') ->
  (exists a s1, m s = (Ok a, s1) /\ k a s1 = (r, s'))
  \/ (m s = (Throw, s') /\ r = Throw).
Proof.
  unfold bind. destruct (m s) as [[a|] s1]; intros H.
  - left; eauto.
  - right; inversion H; auto.
Qed.

Ltac run_bind H a g H1 :=
  apply bind_run in H;
  destruct H as [(a & g & H1 & H) | (H1 & H)].

Lemma planning_names_app category (c1 c2 : list Channel) :
  planning_names category (c1 ++ c2)
  = planning_names category c1 ++ planning_names category c2.
Proof. unfold planning_names. rewrite filter_app, map_app. reflexivity. Qed.

Lemma planning_names_shape category (c1 c2 : list Channel) :
  map shape c1 = map shape c2 ->
  planning_names category c1 = planning_names category c2.
Proof.
  revert c2; induction c1 as [|a c1 IH]; intros [|b c2] H; try discriminate; auto.
  simpl in H. injection H as Hid Hname Hparent Htype Hrest.
  specialize (IH _ Hrest). unfold planning_names in *. simpl.
  assert (E : is_planning_text category a = is_planning_text category b).
  { unfold is_planning_text, parent_is. rewrite Hparent, Htype. reflexivity. }
  rewrite E. destruct (is_planning_text category b); simpl; auto.
  congruence.
Qed.

Lemma planning_names_In category cache n :
  In n (planning_names category cache) <->
  exists c, In c cache /\ is_planning_text category c = true /\ ch_name c = n.
Proof.
  unfold planning_names. rewrite in_map_iff. split.
  - intros (c & <- & Hc). apply filter_In in Hc. exists c. tauto.
  - intros (c & Hc & Hp & <-). exists c. rewrite filter_In. tauto.
Qed.

Lemma find_existing category cache nm :
  find (fun channel => eqb (ch_name channel) nm
                       && parent_is channel (ch_id category)
                       && ChannelType_eqb (ch_type channel) GuildText) cache
  = None <-> set_has (planning_names category cache) nm = false.
Proof.
  unfold planning_names, set_has.
  induction cache as [|c cache IH]; simpl; [tauto|].
  unfold is_planning_text at 1.
  destruct (parent_is c (ch_id category) && ChannelType_eqb (ch_type c) GuildText) eqn:E.
  - simpl. rewrite <- andb_assoc, E, andb_true_r, (eqb_sym nm).
    destruct (eqb (ch_name c) nm); simpl; [split; discriminate | exact IH].
  - rewrite <- andb_assoc, E, andb_false_r. exact IH.
Qed.

Lemma missing_spec (ds : list jsstring) :
  forall present,
    NoDup (missing ds present)
    /\ forall n, In n (missing ds present) <-> In n ds /\ ~ In n present.
Proof.
  induction ds as [|d ds IH]; intros present; simpl.
  - split; [constructor | tauto].
  - destruct (set_has present d) eqn:E.
    + apply set_has_In in E. destruct (IH present) as [ND Hin].
      split; auto. intros n. rewrite Hin. intuition congruence.
    + assert (Hnot : ~ In d present).
      { intros H. apply set_has_In in H. congruence. }
      destruct (IH (present ++ [d])) as [ND Hin]. split.
      * constructor; auto. rewrite Hin, in_app_iff. simpl. tauto.
      * intros n. simpl. rewrite Hin, in_app_iff. simpl.
        split.
        -- intros [<- | (H1 & H2)]; auto.
        -- intros ([<- | H1] & H2); auto.
           destruct (list_eq_dec N.eq_dec d n) as [->|Hne]; auto.
           right. split; auto. intros [H | [H | []]]; auto.
Qed.

Lemma NoDup_id_filter (P : Channel -> bool) (cache : list Channel) (c : Channel) :
  NoDup (map ch_id cache) -> In c cache ->
  (In (ch_id c) (map ch_id (filter P cache)) <-> P c = true).
Proof.
  intros ND Hc. rewrite in_map_iff. split.
  - intros (c' & Hid & Hc'). apply filter_In in Hc'. destruct Hc' as [Hc' HP].
    assert (c' = c); [|subst; auto].
    clear HP. induction cache as [|x cache IH]; simpl in *; [tauto|].
    inversion ND as [|? ? Hx ND']; subst.
    destruct Hc as [-> | Hc], Hc' as [-> | Hc']; auto.
    + exfalso. apply Hx. rewrite <- Hid. apply in_map; auto.
    + exfalso. apply Hx. rewrite Hid. apply in_map; auto.
  - intros HP. exists c. rewrite filter_In. auto.
Qed.

(* ================================================================== *)
(** * The channel reconciler *)
(* ================================================================== *)

Section Reconciler.
Variable toLocaleDateString : Date -> jsstring.
Variable toLowerCase : jsstring -> jsstring.
Variable rejects : list (ApiCall * bool) -> ApiCall -> bool.
Variable clientUser : User.
Variable config : PlanningConfig.
Variable today : Date.
Variable category : Channel.

Local Abbreviation window :=
  (planningWindow toLocaleDateString toLowerCase config today).
Local Abbreviation slug i :=
  (replace_ws (toLowerCase (toLocaleDateString (today + i)%Z))).

(** *** Primitives *)

Lemma logger_run level m g r g' :
  logger level m g = (r, g') ->
  r = Ok tt /\ channels_cache g' = channels_cache g /\ calls g' = calls g.
Proof. unfold logger, modify. intros H; inversion H; auto. Qed.

Lemma await_run c g r g' :
  await rejects c g = (r, g') ->
  channels_cache g' = channels_cache g
  /\ ((r = Ok tt /\ calls g' = calls g ++ [(c, true)])
      \/ (r = Throw /\ calls g' = calls g ++ [(c, false)])).
Proof.
  unfold await. destruct (rejects (calls g) c); simpl;
    intros H; inversion H; subst; simpl; auto.
Qed.

Lemma channel_delete_run ch g r g' :
  channel_delete rejects ch g = (r, g') ->
  (r = Ok tt /\ calls g' = calls g ++ [(ChannelDelete (ch_id ch), true)]
   /\ channels_cache g'
      = filter (fun c => negb (ch_id c =? ch_id ch)%N) (channels_cache g))
  \/ (r = Throw /\ calls g' = calls g ++ [(ChannelDelete (ch_id ch), false)]
      /\ channels_cache g' = channels_cache g).
Proof.
  unfold channel_delete. intros H. run_bind H u g1 H1.
  - apply await_run in H1. destruct H1 as (Hc & [(_ & Hk) | (Habs & _)]);
      [|discriminate].
    unfold set_cache, modify in H. inversion H; subst; simpl.
    left. rewrite Hc. auto.
  - apply await_run in H1. destruct H1 as (Hc & [(Habs & _) | (_ & Hk)]);
      [discriminate|]. right; auto.
Qed.

Lemma channels_create_run nm ty parent g r g' :
  channels_create rejects nm ty parent g = (r, g') ->
  (r = Ok (mkChannel (next_id g) nm parent ty [])
   /\ calls g' = calls g ++ [(ChannelsCreate nm ty parent, true)]
   /\ channels_cache g'
      = channels_cache g ++ [mkChannel (next_id g) nm parent ty []])
  \/ (r = Throw /\ calls g' = calls g ++ [(ChannelsCreate nm ty parent, false)]
      /\ channels_cache g' = channels_cache g).
Proof.
  unfold channels_create, await, bind, fresh_id, set_cache, modify, ret.
  destruct (rejects (calls g) _); simpl; intros H; inversion H; subst; simpl; auto.
Qed.

Lemma shape_with_message chan f cache :
  map shape (map (with_message chan f) cache) = map shape cache.
Proof.
  rewrite map_map. apply map_ext. intros c. unfold with_message.
  destruct (ch_id c =? chan)%N; reflexivity.
Qed.

Lemma channel_send_run ch body g r g' :
  channel_send rejects ch body g = (r, g') ->
  map shape (channels_cache g') = map shape (channels_cache g)
  /\ exists ok, calls g' = calls g ++ [(ChannelSend (ch_id ch) body, ok)]
                /\ (r = Throw <-> ok = false).
Proof.
  unfold channel_send, await, bind, fresh_id, set_cache, modify, ret.
  destruct (rejects (calls g) _); simpl; intros H; inversion H; subst; simpl.
  - split; eauto. exists false. intuition.
  - rewrite shape_with_message. split; auto. exists true.
    intuition discriminate.
Qed.

Lemma message_react_run ch m emoji g r g' :
  message_react rejects clientUser ch m emoji g = (r, g') ->
  map shape (channels_cache g') = map shape (channels_cache g)
  /\ exists ok, calls g' = calls g ++ [(MessageReact (msg_id m) emoji, ok)]
                /\ (r = Throw <-> ok = false).
Proof.
  unfold message_react, await, bind, set_cache, modify.
  destruct (rejects (calls g) _); simpl; intros H; inversion H; subst; simpl.
  - split; eauto. exists false. intuition.
  - rewrite shape_with_message. split; auto. exists true.
    intuition discriminate.
Qed.


(** *** [initializePlanningChannel] leaves the channel set alone *)

Lemma seed_slots_run channel (slots : list jsstring) :
  forall g r g',
    forEach slots (fun slot =>
      message <- channel_send rejects channel (TextBody slot) ;;
      message_react rejects clientUser channel message checkmark) g = (r, g') ->
    map shape (channels_cache g') = map shape (channels_cache g)
    /\ exists delta, calls g' = calls g ++ delta /\ seeding (result_ok r) delta.
Proof.
  induction slots as [|slot slots IH]; intros g r g' H; simpl in H.
  - inversion H; subst. split; auto. exists []. rewrite app_nil_r.
    split; auto. constructor.
  - run_bind H u g1 H1.
    + run_bind H1 m g0 H0.
      * apply channel_send_run in H0. destruct H0 as (S0 & ok0 & C0 & T0).
        apply message_react_run in H1. destruct H1 as (S1 & ok1 & C1 & T1).
        apply IH in H. destruct H as (S2 & delta & C2 & Hd).
        split; [congruence|].
        exists ((ChannelSend (ch_id channel) (TextBody slot), ok0)
                  :: (MessageReact (msg_id m) checkmark, ok1) :: delta).
        split.
        { rewrite C2, C1, C0, <- !app_assoc. reflexivity. }
        assert (ok0 = true) by (destruct ok0; auto; destruct T0 as [_ T0];
                                specialize (T0 eq_refl); discriminate).
        assert (ok1 = true) by (destruct ok1; auto; destruct T1 as [_ T1];
                                specialize (T1 eq_refl); discriminate).
        subst. constructor; [simpl; auto|]. constructor; [simpl; auto|]. exact Hd.
      * discriminate.
    + subst r. run_bind H1 m g0 H0.
      * apply channel_send_run in H0. destruct H0 as (S0 & ok0 & C0 & T0).
        apply message_react_run in H1. destruct H1 as (S1 & ok1 & C1 & T1).
        split; [congruence|].
        exists [(ChannelSend (ch_id channel) (TextBody slot), ok0);
                (MessageReact (msg_id m) checkmark, ok1)].
        split; [rewrite C1, C0, <- app_assoc; reflexivity|].
        repeat constructor; simpl; auto; discriminate.
      * apply channel_send_run in H0. destruct H0 as (S0 & ok0 & C0 & T0).
        split; auto. exists [(ChannelSend (ch_id channel) (TextBody slot), ok0)].
        split; auto. repeat constructor; simpl; auto; discriminate.
Qed.

Lemma initializePlanningChannel_run channel dayLabel g r g' :
  initializePlanningChannel rejects clientUser config channel dayLabel g = (r, g') ->
  map shape (channels_cache g') = map shape (channels_cache g)
  /\ exists delta, calls g' = calls g ++ delta /\ seeding (result_ok r) delta.
Proof.
  unfold initializePlanningChannel. intros H. run_bind H m g1 H1.
  - apply channel_send_run in H1. destruct H1 as (S1 & ok & C1 & T1).
    apply seed_slots_run in H. destruct H as (S2 & delta & C2 & Hd).
    split; [congruence|].
    exists ((ChannelSend (ch_id channel) (PlanningEmbed dayLabel), ok) :: delta).
    split; [rewrite C2, C1, <- app_assoc; reflexivity|].
    constructor; auto. simpl. repeat split; auto. intros _.
    destruct ok; auto. destruct T1 as [_ T1]. specialize (T1 eq_refl). discriminate.
  - subst r. apply channel_send_run in H1. destruct H1 as (S1 & ok & C1 & T1).
    split; auto. exists [(ChannelSend (ch_id channel) (PlanningEmbed dayLabel), ok)].
    split; auto. repeat constructor; simpl; auto; discriminate.
Qed.

(** *** The deletion phase *)

Local Abbreviation delete_phase allowedNames :=
  (fun channel : Channel =>
     if negb (set_has allowedNames (ch_name channel))
     then logger Info (SuppressionSalon (ch_name channel)) ;;
          channel_delete rejects channel
     else ret tt).

Lemma delete_phase_run allowedNames (channels : list Channel) :
  forall g r g',
    forEach channels (delete_phase allowedNames) g = (r, g') ->
    exists delta,
      calls g' = calls g ++ delta
      /\ Forall (fun x => is_delete (fst x) = true) delta
      /\ (r = Ok tt ->
          delta = map (fun c => (ChannelDelete (ch_id c), true))
                      (filter (fun c => negb (set_has allowedNames (ch_name c)))
                              channels)
          /\ forall c, In c (channels_cache g') <->
                       In c (channels_cache g)
                       /\ ~ In (ch_id c)
                            (map ch_id
                               (filter (fun c => negb (set_has allowedNames (ch_name c)))
                                       channels))).
Proof.
  induction channels as [|ch channels IH]; intros g r g' H; simpl in H.
  - inversion H; subst. exists []. rewrite app_nil_r. repeat split; auto.
    simpl. tauto.
  - run_bind H u g1 H1.
    + destruct (negb (set_has allowedNames (ch_name ch))) eqn:E.
      * run_bind H1 u0 g0 H0; [|apply logger_run in H0; destruct H0; discriminate].
        apply logger_run in H0. destruct H0 as (_ & L1 & L2).
        apply channel_delete_run in H1.
        destruct H1 as [(_ & C1 & K1) | (Habs & _)]; [|discriminate].
        apply IH in H. destruct H as (delta & C2 & Hd & Hok).
        exists ((ChannelDelete (ch_id ch), true) :: delta). split.
        { rewrite C2, C1, L2, <- app_assoc. reflexivity. }
        split; [constructor; auto|].
        intros ->. destruct (Hok eq_refl) as (-> & Hin). cbn [filter]. rewrite E.
        split; [reflexivity|]. intros c. rewrite Hin, K1, filter_In, L1.
        cbn [map In]. rewrite negb_true_iff, N.eqb_neq. intuition congruence.
      * inversion H1; subst. apply IH in H.
        destruct H as (delta & C2 & Hd & Hok). exists delta.
        split; [auto|]. split; [auto|]. intros Hr. cbn [filter]. rewrite E.
        apply Hok; auto.
    + subst r. destruct (negb (set_has allowedNames (ch_name ch))) eqn:E;
        [|inversion H1].
      run_bind H1 u0 g0 H0; [|apply logger_run in H0; destruct H0; discriminate].
      apply logger_run in H0. destruct H0 as (_ & L1 & L2).
      apply channel_delete_run in H1.
      destruct H1 as [(Habs & _) | (_ & C1 & K1)]; [discriminate|].
      exists [(ChannelDelete (ch_id ch), false)]. rewrite C1, L2.
      repeat split; auto; discriminate.
Qed.

(** *** The creation phase *)

Local Abbreviation create_phase :=
  (fun d : DesiredChannel =>
     cache <- gets channels_cache ;;
     match find (fun channel =>
                   eqb (ch_name channel) (name d)
                   && parent_is channel (ch_id category)
                   && ChannelType_eqb (ch_type channel) GuildText) cache with
     | Some _ => ret tt
     | None =>
         logger Info (CreationSalon (name d)) ;;
         newChannel <- channels_create rejects (name d) GuildText
                                       (Some (ch_id category)) ;;
         initializePlanningChannel rejects clientUser config newChannel (label d)
     end).

Lemma new_channel_is_planning_text id nm :
  planning_names category [mkChannel id nm (Some (ch_id category)) GuildText []]
  = [nm].
Proof.
  unfold planning_names, is_planning_text, parent_is. simpl.
  rewrite N.eqb_refl. reflexivity.
Qed.

Lemma create_phase_run (ds : list DesiredChannel) :
  forall g r g',
    forEach ds create_phase g = (r, g') ->
    exists delta,
      calls g' = calls g ++ delta
      /\ Forall (fun x => is_delete (fst x) = false) delta
      /\ (r = Ok tt ->
          created delta
          = map (fun n => (n, GuildText, Some (ch_id category)))
                (missing (map name ds) (planning_names category (channels_cache g)))
          /\ planning_names category (channels_cache g')
             = planning_names category (channels_cache g)
               ++ missing (map name ds) (planning_names category (channels_cache g))).
Proof.
  induction ds as [|d ds IH]; intros g r g' H; simpl in H.
  - inversion H; subst. exists []. rewrite !app_nil_r. repeat split; auto.
  - run_bind H u g1 H1.
    + unfold bind at 1, gets at 1 in H1.
      destruct (find _ (channels_cache g)) as [existing|] eqn:F.
      * inversion H1; subst.
        assert (Hhas : set_has (planning_names category (channels_cache g1)) (name d) = true).
        { destruct (set_has _ _) eqn:E; auto.
          apply find_existing in E. congruence. }
        apply IH in H. destruct H as (delta & C2 & Hd & Hok).
        exists delta. repeat split; auto; simpl; rewrite Hhas; apply Hok; auto.
      * apply find_existing in F.
        run_bind H1 u0 g0 H0; [|apply logger_run in H0; destruct H0; discriminate].
        apply logger_run in H0. destruct H0 as (_ & L1 & L2).
        run_bind H1 newChannel g2 H2; [|discriminate].
        apply channels_create_run in H2.
        destruct H2 as [(Hr & C1 & K1) | (Habs & _)]; [|discriminate].
        apply initializePlanningChannel_run in H1.
        destruct H1 as (S1 & d1 & C3 & Hseed).
        assert (Hnames : planning_names category (channels_cache g1)
                         = planning_names category (channels_cache g) ++ [name d]).
        { rewrite (planning_names_shape category _ _ S1), K1, L1.
          rewrite planning_names_app, new_channel_is_planning_text. reflexivity. }
        apply IH in H. destruct H as (delta & C2 & Hd & Hok).
        exists ((ChannelsCreate (name d) GuildText (Some (ch_id category)), true)
                  :: d1 ++ delta).
        split.
        { rewrite C2, C3, C1, L2, <- !app_assoc. reflexivity. }
        split.
        { constructor; auto. apply Forall_app. split; auto.
          eapply Forall_impl; [|exact Hseed]. simpl. tauto. }
        intros ->. destruct (Hok eq_refl) as (Hcr & Hfinal).
        simpl. rewrite F. simpl. rewrite Hnames in Hcr, Hfinal.
        split.
        -- unfold created in *. rewrite flat_map_app, Hcr. f_equal.
           replace (flat_map _ d1) with (@nil (jsstring * ChannelType * option Snowflake));
             auto.
           clear - Hseed. induction Hseed as [|[c ok] l (_ & Hc & _) _ IHl]; auto.
           simpl in *. rewrite <- IHl. destruct c; try discriminate; destruct ok; auto.
        -- rewrite Hfinal, <- app_assoc. reflexivity.
    + subst r. unfold bind at 1, gets at 1 in H1.
      destruct (find _ (channels_cache g)) as [existing|] eqn:F; [inversion H1|].
      run_bind H1 u0 g0 H0; [|apply logger_run in H0; destruct H0; discriminate].
      apply logger_run in H0. destruct H0 as (_ & L1 & L2).
      run_bind H1 newChannel g2 H2.
      * apply channels_create_run in H2.
        destruct H2 as [(Hr & C1 & K1) | (Habs & _)]; [|discriminate].
        apply initializePlanningChannel_run in H1.
        destruct H1 as (S1 & d1 & C3 & Hseed).
        exists ((ChannelsCreate (name d) GuildText (Some (ch_id category)), true) :: d1).
        split; [rewrite C3, C1, L2, <- app_assoc; reflexivity|].
        split; [|discriminate]. constructor; auto.
        eapply Forall_impl; [|exact Hseed]. simpl. tauto.
      * apply channels_create_run in H2.
        destruct H2 as [(Habs & _) | (_ & C1 & K1)]; [discriminate|].
        exists [(ChannelsCreate (name d) GuildText (Some (ch_id category)), false)].
        rewrite C1, L2. repeat split; auto; discriminate.
Qed.

(** *** One reconcile pass *)

Local Abbreviation sync :=
  (syncPlanning toLocaleDateString toLowerCase rejects clientUser config
                today category).
Local Abbreviation desired_names := (map name (fst window)).
Local Abbreviation stale :=
  (fun c : Channel =>
     is_planning_text category c && negb (set_has desired_names (ch_name c))).

Lemma allowed_is_desired (n : jsstring) :
  set_has (snd window) n = set_has desired_names n.
Proof.
  destruct (set_has desired_names n) eqn:E.
  - apply planningWindow_allowed, set_has_In; exact E.
  - destruct (set_has (snd window) n) eqn:E'; auto.
    apply planningWindow_allowed, set_has_In in E'. congruence.
Qed.

Lemma filter_filter_and {A} (f g : A -> bool) (l : list A) :
  filter g (filter f l) = filter (fun x => f x && g x) l.
Proof.
  induction l as [|x l IH]; simpl; auto.
  destruct (f x); simpl; [destruct (g x)|]; simpl; congruence.
Qed.

Lemma new_calls_app g g' delta :
  calls g' = calls g ++ delta -> new_calls g g' = delta.
Proof.
  unfold new_calls. intros ->.
  rewrite skipn_app, skipn_all, Nat.sub_diag. reflexivity.
Qed.

Lemma deleted_ids_deletes (cs : list Channel) :
  deleted_ids (map (fun c => (ChannelDelete (ch_id c), true)) cs) = map ch_id cs.
Proof. induction cs; simpl; congruence. Qed.

Lemma created_deletes (d : list (ApiCall * bool)) :
  Forall (fun x => is_delete (fst x) = true) d -> created d = [].
Proof.
  induction 1 as [|[c ok] l Hc _ IH]; auto. simpl in *.
  rewrite IH. destruct c; try discriminate; reflexivity.
Qed.

Lemma deleted_ids_none (c : list (ApiCall * bool)) :
  Forall (fun x => is_delete (fst x) = false) c -> deleted_ids c = [].
Proof.
  induction 1 as [|[a ok] l Ha _ IH]; auto. simpl in *.
  rewrite IH. destruct a; try discriminate; reflexivity.
Qed.

(** The two phases of a run, whatever its outcome, and their effect
    when the run completes. *)
Lemma sync_run g r g' :
  sync g = (r, g') ->
  exists d c,
    calls g' = calls g ++ d ++ c
    /\ Forall (fun x => is_delete (fst x) = true) d
    /\ Forall (fun x => is_delete (fst x) = false) c
    /\ (r = Ok tt ->
        exists mid,
          d = map (fun ch => (ChannelDelete (ch_id ch), true))
                  (filter stale (channels_cache g))
          /\ (forall ch, In ch mid <->
                         In ch (channels_cache g)
                         /\ ~ In (ch_id ch)
                              (map ch_id (filter stale (channels_cache g))))
          /\ created c
             = map (fun n => (n, GuildText, Some (ch_id category)))
                   (missing desired_names (planning_names category mid))
          /\ planning_names category (channels_cache g')
             = planning_names category mid
               ++ missing desired_names (planning_names category mid)).
Proof.
  unfold syncPlanning. destruct window as [desiredChannels allowedNames] eqn:W.
  assert (Hallowed : forall n, set_has allowedNames n
                                = set_has (map name desiredChannels) n).
  { intros n. pose proof (allowed_is_desired n) as E. rewrite W in E. exact E. }
  cbn [fst].
  assert (Hstale : filter (fun c => negb (set_has allowedNames (ch_name c)))
                          (filter (is_planning_text category) (channels_cache g))
                   = filter (fun c => is_planning_text category c
                                      && negb (set_has (map name desiredChannels)
                                                       (ch_name c)))
                            (channels_cache g)).
  { rewrite filter_filter_and. apply filter_ext. intros c.
    rewrite Hallowed. reflexivity. }
  intros H. unfold bind at 1, gets at 1 in H.
  run_bind H u g1 H1.
  - destruct u. apply delete_phase_run in H1. destruct H1 as (d & C1 & Hd & Hok1).
    apply create_phase_run in H. destruct H as (c & C2 & Hc & Hok2).
    exists d, c. split; [rewrite C2, C1, <- app_assoc; reflexivity|].
    split; auto. split; auto. intros ->.
    destruct (Hok1 eq_refl) as (-> & Hmid). destruct (Hok2 eq_refl) as (Hcr & Hfin).
    exists (channels_cache g1). rewrite Hstale in *. auto.
  - subst r. apply delete_phase_run in H1. destruct H1 as (d & C1 & Hd & _).
    exists d, []. rewrite app_nil_r. repeat split; auto. discriminate.
Qed.

Lemma NoDup_map_create (cat : Snowflake) (l : list jsstring) :
  NoDup l -> NoDup (map (fun n => (n, GuildText, Some cat)) l).
Proof.
  induction 1 as [|n l Hn _ IH]; simpl; constructor; auto.
  rewrite in_map_iff. intros (n' & E & Hin). inversion E; subst. auto.
Qed.

Lemma In_dec_names (n : jsstring) (l : list jsstring) : In n l \/ ~ In n l.
Proof.
  destruct (set_has l n) eqn:E.
  - left. apply set_has_In; auto.
  - right. intros H. apply set_has_In in H. congruence.
Qed.

(** What remains under the category after the deletion phase. *)
Lemma after_deletion g mid :
  NoDup (map ch_id (channels_cache g)) ->
  (forall ch, In ch mid <->
              In ch (channels_cache g)
              /\ ~ In (ch_id ch) (map ch_id (filter stale (channels_cache g)))) ->
  forall n, In n (planning_names category mid)
            <-> In n (planning_names category (channels_cache g))
                /\ In n desired_names.
Proof.
  intros ND Hmid n. rewrite !planning_names_In. split.
  - intros (ch & Hin & Hp & <-). apply Hmid in Hin. destruct Hin as (Hin & Hnot).
    rewrite (NoDup_id_filter _ _ _ ND Hin) in Hnot.
    rewrite Hp in Hnot. simpl in Hnot.
    destruct (set_has desired_names (ch_name ch)) eqn:E; [|simpl in Hnot; tauto].
    apply set_has_In in E. split; eauto.
  - intros ((ch & Hin & Hp & <-) & Hd). exists ch. split; auto.
    apply Hmid. split; auto. rewrite (NoDup_id_filter _ _ _ ND Hin).
    apply set_has_In in Hd. rewrite Hd, andb_false_r. discriminate.
Qed.

(** The names left under the category by a pass that completes. *)
Lemma syncPlanning_converges_aux g g' :
  NoDup (map ch_id (channels_cache g)) ->
  sync g = (Ok tt, g') ->
  forall n, In n (planning_names category (channels_cache g'))
            <-> In n desired_names.
Proof.
  intros ND H n.
  apply sync_run in H. destruct H as (d & c & Hcalls & Hd & Hc & Hok).
  destruct (Hok eq_refl) as (mid & Hdel & Hmid & Hcr & Hfin). clear Hok. subst d.
  pose proof (@after_deletion g mid ND Hmid) as Hafter.
  destruct (missing_spec desired_names (planning_names category mid)) as [NDm Hm].
  rewrite Hfin, in_app_iff, Hm, Hafter.
  destruct (In_dec_names n (planning_names category (channels_cache g))); tauto.
Qed.

(** The effects of a pass that completes. *)
Lemma sync_effects g g' :
  NoDup (map ch_id (channels_cache g)) ->
  sync g = (Ok tt, g') ->
  (forall n, In n desired_names <->
             exists i : Z, (0 <= i)%Z /\ (inject_Z i < daysAhead config)%Q
                           /\ n = slug i)
  /\ calls g' = calls g ++ new_calls g g'
  /\ deleted_ids (new_calls g g')
     = map ch_id (filter stale (channels_cache g))
  /\ NoDup (created (new_calls g g'))
  /\ (forall n ty p,
         In (n, ty, p) (created (new_calls g g')) <->
         ty = GuildText /\ p = Some (ch_id category) /\ In n desired_names
         /\ ~ In n (planning_names category (channels_cache g)))
  /\ (forall n, In n (planning_names category (channels_cache g'))
                <-> In n desired_names).
Proof.
  intros ND H. split; [intros n; apply desired_names_spec|].
  apply sync_run in H. destruct H as (d & c & Hcalls & Hd & Hc & Hok).
  destruct (Hok eq_refl) as (mid & Hdel & Hmid & Hcr & Hfin). clear Hok. subst d.
  rewrite (new_calls_app g g' _ Hcalls).
  pose proof (@after_deletion g mid ND Hmid) as Hafter.
  destruct (missing_spec desired_names (planning_names category mid)) as [NDm Hm].
  split; [exact Hcalls|]. split; [|split; [|split]].
  - unfold deleted_ids. rewrite flat_map_app. fold (deleted_ids c).
    rewrite (deleted_ids_none c Hc), app_nil_r. apply deleted_ids_deletes.
  - unfold created. rewrite flat_map_app. fold (created c).
    match goal with |- NoDup (?x ++ _) => replace x with (created
      (map (fun ch => (ChannelDelete (ch_id ch), true))
           (filter stale (channels_cache g)))) by reflexivity end.
    rewrite (created_deletes _ Hd), Hcr. simpl. apply NoDup_map_create, NDm.
  - intros n ty p. unfold created. rewrite flat_map_app. fold (created c).
    match goal with |- In _ (?x ++ _) <-> _ => replace x with (created
      (map (fun ch => (ChannelDelete (ch_id ch), true))
           (filter stale (channels_cache g)))) by reflexivity end.
    rewrite (created_deletes _ Hd), Hcr. simpl. rewrite in_map_iff. split.
    + intros (n' & E & Hin). inversion E; subst. apply Hm in Hin.
      destruct Hin as (Hdes & Hnot). repeat split; auto.
      intros Hg. apply Hnot. apply Hafter. auto.
    + intros (-> & -> & Hdes & Hnot). exists n. split; auto.
      apply Hm. split; auto. intros Hin. apply Hafter in Hin. tauto.
  - intros n. rewrite Hfin, in_app_iff, Hm, Hafter.
    destruct (In_dec_names n (planning_names category (channels_cache g))); tauto.
Qed.

(** *** A pass completes exactly when none of its calls is rejected *)

Lemma tracks_ret {A} (a : A) : tracks (ret a).
Proof.
  intros g r g' H. inversion H; subst. exists []. rewrite app_nil_r.
  split; auto. simpl. split; auto. intros _. constructor.
Qed.

Lemma tracks_bind {A B} (m : M Guild A) (k : A -> M Guild B) :
  tracks m -> (forall a, tracks (k a)) -> tracks (bind m k).
Proof.
  intros Hm Hk g r g' H. run_bind H a g1 H1.
  - destruct (Hm _ _ _ H1) as (d1 & C1 & O1).
    destruct (Hk a _ _ _ H) as (d2 & C2 & O2).
    exists (d1 ++ d2). split; [rewrite C2, C1, app_assoc; reflexivity|].
    unfold fulfilled in *. rewrite Forall_app. simpl in O1.
    split; [intros Hr; split; tauto | intros (_ & H2); tauto].
  - subst r. destruct (Hm _ _ _ H1) as (d1 & C1 & O1). exists d1. split; auto.
Qed.

Lemma tracks_forEach {A} (xs : list A) (body : A -> M Guild unit) :
  (forall x, tracks (body x)) -> tracks (forEach xs body).
Proof.
  intros Hb. induction xs as [|x xs IH]; simpl.
  - apply tracks_ret.
  - apply tracks_bind; auto.
Qed.

Lemma tracks_logger level m : tracks (logger level m).
Proof.
  intros g r g' H. inversion H; subst. exists []. simpl. rewrite app_nil_r.
  split; auto. split; auto. intros _. constructor.
Qed.

Lemma tracks_await c : tracks (await rejects c).
Proof.
  intros g r g' H. unfold await in H.
  destruct (rejects (calls g) c); simpl in H; inversion H; subst; simpl;
    eexists; (split; [reflexivity|]); simpl; split; try discriminate.
  - intros F. inversion F; subst. discriminate.
  - intros _. repeat constructor.
  - reflexivity.
Qed.

Lemma tracks_set_cache f : tracks (set_cache f).
Proof.
  intros g r g' H. inversion H; subst. exists []. simpl. rewrite app_nil_r.
  split; auto. split; auto. intros _. constructor.
Qed.

Lemma tracks_fresh_id : tracks fresh_id.
Proof.
  intros g r g' H. inversion H; subst. exists []. simpl. rewrite app_nil_r.
  split; auto. split; auto. intros _. constructor.
Qed.

Lemma tracks_cache : tracks (gets channels_cache).
Proof.
  intros g r g' H. inversion H; subst. exists []. rewrite app_nil_r.
  split; auto. simpl. split; auto. intros _. constructor.
Qed.

Lemma tracks_channel_send ch body : tracks (channel_send rejects ch body).
Proof.
  unfold channel_send. apply tracks_bind; [apply tracks_await|]. intros _.
  apply tracks_bind; [apply tracks_fresh_id|]. intros id.
  apply tracks_bind; [apply tracks_set_cache|]. intros _. apply tracks_ret.
Qed.

Lemma tracks_initializePlanningChannel ch dayLabel :
  tracks (initializePlanningChannel rejects clientUser config ch dayLabel).
Proof.
  unfold initializePlanningChannel.
  apply tracks_bind; [apply tracks_channel_send|]. intros _.
  apply tracks_forEach. intros slot.
  apply tracks_bind; [apply tracks_channel_send|]. intros m.
  unfold message_react. apply tracks_bind; [apply tracks_await|]. intros _.
  apply tracks_set_cache.
Qed.

Lemma tracks_syncPlanning : tracks sync.
Proof.
  unfold syncPlanning. destruct window as [desiredChannels allowedNames].
  apply tracks_bind; [apply tracks_cache|]. intros cache.
  apply tracks_bind.
  - apply tracks_forEach. intros ch.
    destruct (negb (set_has allowedNames (ch_name ch))); [|apply tracks_ret].
    apply tracks_bind; [apply tracks_logger|]. intros _.
    unfold channel_delete. apply tracks_bind; [apply tracks_await|]. intros _.
    apply tracks_set_cache.
  - intros _. apply tracks_forEach. intros d.
    apply tracks_bind; [apply tracks_cache|]. intros cache'.
    destruct (find _ cache'); [apply tracks_ret|].
    apply tracks_bind; [apply tracks_logger|]. intros _.
    apply tracks_bind.
    + unfold channels_create. apply tracks_bind; [apply tracks_await|]. intros _.
      apply tracks_bind; [apply tracks_fresh_id|]. intros id.
      apply tracks_bind; [apply tracks_set_cache|]. intros _. apply tracks_ret.
    + intros newChannel. apply tracks_initializePlanningChannel.
Qed.

Lemma syncPlanning_completes g :
  fst (sync g) = Ok tt <-> fulfilled (new_calls g (snd (sync g))).
Proof.
  destruct (sync g) as [r g'] eqn:H. cbn [fst snd].
  destruct (tracks_syncPlanning _ _ _ H) as (delta & C & O).
  rewrite (new_calls_app g g' delta C), <- O.
  destruct r as [[]|]; simpl; split; auto; discriminate.
Qed.

(** C1 (as amended). For every channel set and every [today], a
    reconcile pass none of whose operations is rejected (deletions,
    creations, and the sends and reactions that seed a created channel)
    completes; it deletes exactly the text channels under the planning
    category whose names are not desired slugs (the slugs of [today + i]
    for the integers [i] of [[0, daysAhead)]), creates exactly the
    desired slugs that had no text channel under the category, each
    once, and leaves under the category text channels whose names are
    exactly the desired slugs. *)
Theorem syncPlanning_converges g :
  NoDup (map ch_id (channels_cache g)) ->
  fulfilled (new_calls g (snd (sync g))) ->
  let g' := snd (sync g) in
  fst (sync g) = Ok tt
  /\ (forall n, In n desired_names <->
                exists i : Z, (0 <= i)%Z /\ (inject_Z i < daysAhead config)%Q
                              /\ n = slug i)
  /\ calls g' = calls g ++ new_calls g g'
  /\ deleted_ids (new_calls g g')
     = map ch_id (filter stale (channels_cache g))
  /\ NoDup (created (new_calls g g'))
  /\ (forall n ty p,
         In (n, ty, p) (created (new_calls g g')) <->
         ty = GuildText /\ p = Some (ch_id category) /\ In n desired_names
         /\ ~ In n (planning_names category (channels_cache g)))
  /\ (forall n, In n (planning_names category (channels_cache g'))
                <-> In n desired_names).
Proof.
  intros ND Hok. cbv zeta. apply syncPlanning_completes in Hok.
  split; [exact Hok|]. apply sync_effects; auto.
  rewrite <- Hok. apply surjective_pairing.
Qed.

(** *** A converged guild is a fixed point *)

Lemma delete_phase_noop allowedNames (channels : list Channel) g :
  (forall c, In c channels -> set_has allowedNames (ch_name c) = true) ->
  forEach channels (delete_phase allowedNames) g = (Ok tt, g).
Proof.
  induction channels as [|ch channels IH]; intros Hall; simpl; auto.
  unfold bind. rewrite (Hall ch) by (left; auto). simpl.
  apply IH. intros c Hc. apply Hall. right; auto.
Qed.

Lemma create_phase_noop (ds : list DesiredChannel) g :
  (forall d, In d ds -> In (name d) (planning_names category (channels_cache g))) ->
  forEach ds create_phase g = (Ok tt, g).
Proof.
  induction ds as [|d ds IH]; intros Hall; simpl; auto.
  unfold bind at 1. unfold bind at 1, gets at 1.
  destruct (find _ (channels_cache g)) eqn:F.
  - simpl. apply IH. intros d' Hd'. apply Hall. right; auto.
  - apply find_existing in F. specialize (Hall d (or_introl eq_refl)).
    apply set_has_In in Hall. congruence.
Qed.

Lemma sync_converged g :
  (forall n, In n (planning_names category (channels_cache g))
             <-> In n desired_names) ->
  sync g = (Ok tt, g).
Proof.
  intros Hconv. unfold syncPlanning.
  pose proof allowed_is_desired as Hallowed.
  destruct window as [desiredChannels allowedNames] eqn:W. cbn [fst snd] in *.
  unfold bind at 1, gets at 1. unfold bind at 1.
  rewrite delete_phase_noop.
  - apply create_phase_noop. intros d Hd. apply (proj2 (Hconv _)).
    apply in_map; auto.
  - intros c Hc. apply filter_In in Hc. destruct Hc as (Hc & Hp).
    rewrite Hallowed. apply set_has_In. apply (proj1 (Hconv _)).
    apply planning_names_In. exists c. auto.
Qed.

(** C2. For every channel state, when a reconcile pass has completed, a
    second pass with the same [today] on the channel set the first pass
    produced issues no call at all (no creation, no deletion), completes
    and leaves the guild as it found it. *)
Theorem syncPlanning_idempotent g g1 :
  NoDup (map ch_id (channels_cache g)) ->
  sync g = (Ok tt, g1) ->
  sync g1 = (Ok tt, g1)
  /\ new_calls g1 (snd (sync g1)) = []
  /\ filter (fun x => is_create (fst x) || is_delete (fst x))
            (new_calls g1 (snd (sync g1))) = [].
Proof.
  intros ND H. pose proof (syncPlanning_converges_aux g g1 ND H) as Hconv.
  rewrite (sync_converged g1 Hconv). simpl.
  rewrite (new_calls_app g1 g1 []) by (rewrite app_nil_r; auto). auto.
Qed.

(** C5. Within a reconcile run, whatever its outcome, every deletion
    call is issued before every creation call: among the calls of the
    run, a [ChannelsCreate] at position [i] and a [ChannelDelete] at
    position [j] always have [j < i]. *)
Theorem syncPlanning_deletes_before_creates g :
  forall i j x y,
    nth_error (new_calls g (snd (sync g))) i = Some x ->
    nth_error (new_calls g (snd (sync g))) j = Some y ->
    is_create (fst x) = true -> is_delete (fst y) = true ->
    j < i.
Proof.
  intros i j x y Hi Hj Hx Hy.
  destruct (sync g) as [r g'] eqn:H. cbn [snd] in *.
  apply sync_run in H. destruct H as (d & c & Hcalls & Hd & Hc & _).
  rewrite (new_calls_app g g' _ Hcalls) in Hi, Hj.
  rewrite Forall_forall in Hd, Hc.
  assert (Hi' : length d <= i).
  { destruct (Nat.lt_ge_cases i (length d)) as [Hlt|]; auto.
    rewrite nth_error_app1 in Hi by auto. apply nth_error_In, Hd in Hi.
    destruct (fst x); discriminate. }
  assert (Hj' : j < length d).
  { destruct (Nat.lt_ge_cases j (length d)) as [|Hge]; auto.
    rewrite nth_error_app2 in Hj by auto. apply nth_error_In, Hc in Hj.
    congruence. }
  lia.
Qed.

(** C9. The configuration loader accepts any finite number, also zero
    or a negative one; with such a [daysAhead] the desired-name set is
    empty, so a reconcile pass issues deletions only and never a
    creation; when none of these deletions is rejected, the pass
    completes having deleted every text channel under the planning
    category, and no text channel is left under the category. *)
Theorem syncPlanning_nonpositive_window
        (Number : jsstring -> JsNumber) (value : jsstring) (q : Q) g :
  Number value = Finite q -> (q <= 0)%Q ->
  daysAhead config = parseNumericEnv Number (Some value) 7 ->
  let g' := snd (sync g) in
  daysAhead config = q
  /\ window = ([], [])
  /\ created (new_calls g g') = []
  /\ Forall (fun x => is_delete (fst x) = true) (new_calls g g')
  /\ (fulfilled (new_calls g g') ->
      fst (sync g) = Ok tt
      /\ deleted_ids (new_calls g g')
         = map ch_id (filter (is_planning_text category) (channels_cache g))
      /\ planning_names category (channels_cache g') = []).
Proof.
  intros HN Hq Hcfg. cbv zeta.
  assert (Hd : daysAhead config = q).
  { rewrite Hcfg. unfold parseNumericEnv. rewrite HN. reflexivity. }
  assert (Hw : window = ([], [])).
  { apply planningWindow_empty. rewrite Hd. exact Hq. }
  split; [exact Hd|]. split; [exact Hw|].
  pose proof (syncPlanning_completes g) as Hcompl.
  destruct (sync g) as [r g'] eqn:H. cbn [fst snd] in *.
  unfold syncPlanning in H. rewrite Hw in H.
  unfold bind at 1, gets at 1 in H.
  assert (Hphase : exists d,
             calls g' = calls g ++ d
             /\ Forall (fun x => is_delete (fst x) = true) d
             /\ (r = Ok tt ->
                 d = map (fun c => (ChannelDelete (ch_id c), true))
                         (filter (is_planning_text category) (channels_cache g))
                 /\ forall c, In c (channels_cache g') <->
                              In c (channels_cache g)
                              /\ ~ In (ch_id c)
                                   (map ch_id (filter (is_planning_text category)
                                                      (channels_cache g))))).
  { assert (Hfilter : forall l,
               filter (fun c => negb (set_has [] (ch_name c)))
                      (filter (is_planning_text category) l)
               = filter (is_planning_text category) l).
    { intros l. rewrite filter_filter_and. apply filter_ext. intros a.
      apply andb_true_r. }
    run_bind H u g1 H1.
    - simpl in H. inversion H; subst r g1. clear H.
      apply delete_phase_run in H1. destruct H1 as (d & Hcalls & Hdel & Hok).
      exists d. rewrite Hfilter in Hok. destruct u. auto.
    - subst r. apply delete_phase_run in H1.
      destruct H1 as (d & Hcalls & Hdel & _). exists d.
      split; auto. split; auto. discriminate. }
  destruct Hphase as (d & Hcalls & Hdel & Hok).
  rewrite (new_calls_app g g' d Hcalls) in *.
  split; [apply created_deletes; exact Hdel|]. split; [exact Hdel|].
  intros Hful. apply Hcompl in Hful. split; [exact Hful|].
  destruct (Hok Hful) as (-> & Hmid). split; [apply deleted_ids_deletes|].
  unfold planning_names.
  destruct (filter (is_planning_text category) (channels_cache g'))
    as [|ch rest] eqn:F; auto.
  exfalso.
  assert (Hin : In ch (filter (is_planning_text category) (channels_cache g')))
    by (rewrite F; left; auto).
  apply filter_In in Hin. destruct Hin as (Hin & Hp).
  apply Hmid in Hin. destruct Hin as (Hin & Hnot). apply Hnot.
  apply in_map. apply filter_In. auto.
Qed.
End Reconciler.

(* ================================================================== *)
(** * The reminder correlator *)
(* ================================================================== *)

Lemma ChannelType_eqb_eq (a b : ChannelType) : ChannelType_eqb a b = true <-> a = b.
Proof. destruct a, b; simpl; split; congruence. Qed.

Lemma parent_is_eq (c : Channel) (id : Snowflake) :
  parent_is c id = true <-> ch_parentId c = Some id.
Proof.
  unfold parent_is. destruct (ch_parentId c) as [p|].
  - rewrite N.eqb_eq. split; congruence.
  - split; discriminate.
Qed.

Lemma find_none_iff {A} (f : A -> bool) (l : list A) :
  find f l = None <-> forall x, In x l -> f x = false.
Proof.
  split.
  - intros H x Hx. exact (find_none f l H x Hx).
  - intros H. destruct (find f l) as [a|] eqn:F; auto.
    apply find_some in F. destruct F as (Ha & Hf).
    rewrite (H a Ha) in Hf. discriminate.
Qed.

Lemma add_id_In (s : list Snowflake) (x y : Snowflake) :
  In y (add_id s x) <-> In y s \/ y = x.
Proof.
  unfold add_id. destruct (existsb (N.eqb x) s) eqn:E.
  - apply existsb_exists in E. destruct E as (z & Hz & E).
    apply N.eqb_eq in E. subst z. split; [auto | intros [H | ->]; auto].
  - rewrite in_app_iff. simpl. intuition.
Qed.

Lemma add_id_NoDup (s : list Snowflake) (x : Snowflake) :
  NoDup s -> NoDup (add_id s x).
Proof.
  intros ND. unfold add_id. destruct (existsb (N.eqb x) s) eqn:E; auto.
  apply NoDup_app; [assumption | repeat constructor; simpl; tauto |].
  intros y Hy [<- | []].
  assert (existsb (N.eqb x) s = true); [|congruence].
  apply existsb_exists. exists x. split; auto. apply N.eqb_refl.
Qed.

Lemma collect_ids_spec (us : list User) :
  forall s, (NoDup s -> NoDup (collect_ids us s))
            /\ forall i, In i (collect_ids us s) <->
                         In i s \/ exists u, In u us /\ user_bot u = false
                                             /\ user_id u = i.
Proof.
  induction us as [|u us IH]; intros s; simpl.
  - split; auto. intros i. split; auto. intros [H | (u & [] & _)]; auto.
  - destruct (IH (if negb (user_bot u) then add_id s (user_id u) else s))
      as (ND & Hin). split.
    + intros Hs. apply ND. destruct (user_bot u); simpl; auto using add_id_NoDup.
    + intros i. unfold collect_ids in *. simpl. rewrite Hin.
      destruct (user_bot u) eqn:B; simpl.
      * split.
        -- intros [H | (v & Hv & Hb & Hi)]; eauto 6.
        -- intros [H | (v & [<- | Hv] & Hb & Hi)]; [auto | congruence | eauto 7].
      * rewrite add_id_In. split.
        -- intros [[H | ->] | (v & Hv & Hb & Hi)]; eauto 7.
        -- intros [H | (v & [<- | Hv] & Hb & Hi)]; eauto 7.
Qed.

Lemma reminder_ids_spec (messages : list Message) (slots : list jsstring) :
  forall s, (NoDup s -> NoDup (reminder_ids messages slots s))
            /\ forall i, In i (reminder_ids messages slots s) <->
                         In i s \/ exists slot u,
                                     In slot slots
                                     /\ In u (slot_reactors messages slot)
                                     /\ user_bot u = false /\ user_id u = i.
Proof.
  induction slots as [|slot slots IH]; intros s; simpl.
  - split; auto. intros i. split; auto.
    intros [H | (sl & u & Hsl & _)]; [auto | destruct Hsl].
  - destruct (IH (collect_ids (slot_reactors messages slot) s)) as (ND & Hin).
    destruct (collect_ids_spec (slot_reactors messages slot) s) as (ND' & Hin').
    split; [auto|]. intros i. unfold reminder_ids in *. simpl.
    rewrite Hin, Hin'. split.
    + intros [[H | (u & Hu & Hb & Hi)] | (sl & u & Hsl & Hu & Hb & Hi)]; eauto 9.
    + intros [H | (sl & u & [<- | Hsl] & Hu & Hb & Hi)]; eauto 9.
Qed.

Lemma In_firstn {A} (n : nat) (l : list A) (x : A) : In x (firstn n l) -> In x l.
Proof.
  revert l; induction n as [|n IH]; intros [|a l]; simpl; try tauto.
  intros [-> | H]; auto.
Qed.

Lemma slot_reactors_In (cache : list Channel) (ch : Channel) (n : nat)
      (slot : jsstring) (u : User) :
  In ch cache -> In u (slot_reactors (firstn n (ch_messages ch)) slot) ->
  In u (reactors cache).
Proof.
  intros Hch Hu. unfold slot_reactors in Hu.
  destruct (find _ (firstn n (ch_messages ch))) as [m|] eqn:Fm; [|destruct Hu].
  destruct (find _ (msg_reactions m)) as [r|] eqn:Fr; [|destruct Hu].
  apply find_some in Fm, Fr. destruct Fm as (Hm & _), Fr as (Hr & _).
  apply In_firstn in Hm, Hu.
  unfold reactors. apply in_flat_map. exists ch. split; auto.
  apply in_flat_map. exists m. split; auto.
  apply in_flat_map. exists r. auto.
Qed.

Section Correlator.
Variable toLocaleDateString : Date -> jsstring.
Variable toLowerCase : jsstring -> jsstring.
Variable rejects : list (ApiCall * bool) -> ApiCall -> bool.
Variable accounts : Snowflake -> option User.
Variable config : PlanningConfig.
Variable today : Date.

Local Abbreviation getUsers :=
  (getUsersFromPlanning toLocaleDateString toLowerCase rejects accounts config today).
Local Abbreviation slug := (reminderChannelName toLocaleDateString toLowerCase today).
Local Abbreviation is_today_channel cat :=
  (fun channel : Channel =>
     parent_is channel (ch_id cat)
     && ChannelType_eqb (ch_type channel) GuildText
     && eqb (ch_name channel) slug).

(** *** What the loops compute *)

Lemma collect_users_run (us : list User) :
  forall s g r g',
    collect_users us s g = (r, g') ->
    r = Ok (collect_ids us s)
    /\ channels_cache g' = channels_cache g /\ calls g' = calls g.
Proof.
  induction us as [|u us IH]; intros s g r g' H; simpl in H.
  - inversion H; auto.
  - destruct (user_bot u) eqn:B; simpl in H.
    + apply IH in H. unfold collect_ids. simpl. rewrite B. exact H.
    + run_bind H x g1 H1; [|apply logger_run in H1; destruct H1; discriminate].
      apply logger_run in H1. destruct H1 as (_ & L1 & L2).
      apply IH in H. unfold collect_ids. simpl. rewrite B.
      destruct H as (-> & Hc & Hk). split; [reflexivity | split; congruence].
Qed.

Lemma scan_slots_run (messages : list Message) (slots : list jsstring) :
  forall s g res g',
    scan_slots rejects messages slots s g = (Ok res, g') ->
    res = reminder_ids messages slots s
    /\ channels_cache g' = channels_cache g.
Proof.
  induction slots as [|slot slots IH]; intros s g res g' H; simpl in H.
  - inversion H; auto.
  - run_bind H x g1 H1; [|discriminate].
    apply logger_run in H1. destruct H1 as (_ & L1 & _).
    unfold reminder_ids. simpl. fold (reminder_ids messages slots).
    unfold slot_reactors.
    destruct (find _ messages) as [m|] eqn:Fm.
    + run_bind H x0 g2 H2; [|discriminate].
      apply logger_run in H2. destruct H2 as (_ & L2 & _).
      destruct (find _ (msg_reactions m)) as [re|] eqn:Fr.
      * run_bind H reacted g3 H3; [|discriminate].
        unfold reaction_users_fetch in H3. run_bind H3 x1 g4 H4; [|discriminate].
        apply await_run in H4. destruct H4 as (L4 & _).
        inversion H3; subst reacted g4. clear H3.
        run_bind H x2 g5 H5; [|discriminate].
        apply logger_run in H5. destruct H5 as (_ & L5 & _).
        run_bind H set' g6 H6; [|discriminate].
        apply collect_users_run in H6. destruct H6 as (E6 & L6 & _).
        inversion E6; subst set'. apply IH in H. destruct H as (-> & L7).
        split; [reflexivity | congruence].
      * run_bind H x1 g3 H3; [|discriminate].
        apply logger_run in H3. destruct H3 as (_ & L3 & _).
        apply IH in H. destruct H as (-> & L7).
        split; [reflexivity | congruence].
    + run_bind H x0 g2 H2; [|discriminate].
      apply logger_run in H2. destruct H2 as (_ & L2 & _).
      apply IH in H. destruct H as (-> & L7).
      split; [reflexivity | congruence].
Qed.

Lemma resolve_users_run (ids : list Snowflake) :
  forall users g r g',
    resolve_users accounts ids users g = (r, g') ->
    r = Ok (users ++ resolve accounts ids)
    /\ channels_cache g' = channels_cache g.
Proof.
  induction ids as [|i ids IH]; intros users g r g' H; simpl in H.
  - inversion H. rewrite app_nil_r. auto.
  - unfold bind at 1, tryCatch at 1, bind at 1, users_fetch at 1 in H.
    unfold resolve. simpl. fold (resolve accounts ids).
    destruct (accounts i) as [u|]; simpl in H.
    + apply IH in H. destruct H as (-> & L). rewrite <- app_assoc. auto.
    + apply IH in H. destruct H as (-> & L). auto.
Qed.

(** The result of a run that returns: nothing when the category or the
    channel is missing, and otherwise the accounts of the identifiers
    collected over the slots. *)
Lemma getUsers_result dayOfWeek slots g users g' :
  getUsers dayOfWeek slots g = (Ok users, g') ->
  channels_cache g' = channels_cache g
  /\ ((users = []
       /\ (find (is_planning_category config) (channels_cache g) = None
           \/ exists cat,
               find (is_planning_category config) (channels_cache g) = Some cat
               /\ find (is_today_channel cat) (channels_cache g) = None))
      \/ exists cat ch,
          find (is_planning_category config) (channels_cache g) = Some cat
          /\ find (is_today_channel cat) (channels_cache g) = Some ch
          /\ users = resolve accounts
                       (reminder_ids (firstn 100 (ch_messages ch)) slots [])).
Proof.
  unfold getUsersFromPlanning. intros H.
  run_bind H x g1 H1; [|discriminate].
  apply logger_run in H1. destruct H1 as (_ & L1 & _).
  unfold bind at 1, gets at 1 in H. rewrite L1 in H.
  fold (is_planning_category config) in H.
  destruct (find (is_planning_category config) (channels_cache g)) as [cat|] eqn:Fc.
  - destruct (find _ (channels_cache g)) as [ch|] eqn:Fch in H.
    + run_bind H x0 g2 H2; [|discriminate].
      apply logger_run in H2. destruct H2 as (_ & L2 & _).
      run_bind H messages g3 H3; [|discriminate].
      unfold messages_fetch in H3. run_bind H3 x1 g4 H4; [|discriminate].
      apply await_run in H4. destruct H4 as (L4 & _).
      inversion H3; subst messages g4. clear H3.
      run_bind H x2 g5 H5; [|discriminate].
      apply logger_run in H5. destruct H5 as (_ & L5 & _).
      run_bind H ids g6 H6; [|discriminate].
      apply scan_slots_run in H6. destruct H6 as (-> & L6).
      run_bind H x3 g7 H7; [|discriminate].
      apply logger_run in H7. destruct H7 as (_ & L7 & _).
      apply resolve_users_run in H. destruct H as (E & L8).
      inversion E; subst users. split; [congruence|].
      right. exists cat, ch. auto.
    + run_bind H x0 g2 H2; [|discriminate].
      apply logger_run in H2. destruct H2 as (_ & L2 & _).
      inversion H; subst. split; [congruence|]. left. split; auto.
      right. exists cat. auto.
  - run_bind H x0 g2 H2; [|discriminate].
    apply logger_run in H2. destruct H2 as (_ & L2 & _).
    inversion H; subst. split; [congruence|]. left. auto.
Qed.

(** *** Missing category or channel *)

(** C6. When the guild has no category of the configured name, or has
    one but no text channel under it named by today's slug, the
    correlator returns the empty list without throwing: it issues no
    remote call, leaves the channels alone and only logs the search and
    a "not found" warning. *)
Theorem getUsersFromPlanning_not_found dayOfWeek slots g :
  (forall c, In c (channels_cache g) ->
             ~ (ch_type c = GuildCategory /\ ch_name c = categoryName config))
  \/ (exists cat,
         find (is_planning_category config) (channels_cache g) = Some cat
         /\ forall c, In c (channels_cache g) ->
                      ~ (ch_parentId c = Some (ch_id cat)
                         /\ ch_type c = GuildText /\ ch_name c = slug)) ->
  exists warning,
    getUsers dayOfWeek slots g
    = (Ok [],
       mkGuild (channels_cache g) (calls g)
               (log g ++ [(Info, RechercheChannel slug (getDay today) dayOfWeek);
                          (Warn, warning)])
               (next_id g))
    /\ (warning = CategorieIntrouvable (categoryName config)
        \/ warning = ChannelIntrouvable slug).
Proof.
  intros [Hno | (cat & Hcat & Hno)].
  - exists (CategorieIntrouvable (categoryName config)). split; auto.
    assert (F : find (is_planning_category config) (channels_cache g) = None).
    { apply find_none_iff. intros c Hc. unfold is_planning_category.
      destruct (ChannelType_eqb _ _) eqn:E1; auto.
      destruct (eqb _ _) eqn:E2; auto.
      apply ChannelType_eqb_eq in E1. apply eqb_eq in E2.
      exfalso. apply (Hno c Hc). auto. }
    unfold getUsersFromPlanning, bind, logger, modify, gets, ret. simpl.
    fold (is_planning_category config). rewrite F. cbn.
    rewrite <- app_assoc. reflexivity.
  - exists (ChannelIntrouvable slug). split; auto.
    assert (F : find (is_today_channel cat) (channels_cache g) = None).
    { apply find_none_iff. intros c Hc.
      destruct (parent_is c (ch_id cat)) eqn:E0; auto.
      destruct (ChannelType_eqb (ch_type c) GuildText) eqn:E1; auto.
      destruct (eqb (ch_name c) slug) eqn:E2; auto.
      apply parent_is_eq in E0. apply ChannelType_eqb_eq in E1. apply eqb_eq in E2.
      exfalso. apply (Hno c Hc). auto. }
    unfold getUsersFromPlanning, bind, logger, modify, gets, ret. simpl.
    fold (is_planning_category config). rewrite Hcat. cbn. rewrite F. cbn.
    rewrite <- app_assoc. reflexivity.
Qed.

(** *** Deduplication and bots *)

Lemma resolve_ids (cache : list Channel) (ids : list Snowflake) :
  coherent accounts cache ->
  (forall i, In i ids -> exists v, In v (reactors cache) /\ user_bot v = false
                                   /\ user_id v = i) ->
  map user_id (resolve accounts ids)
  = filter (fun i => match accounts i with Some _ => true | None => false end) ids
  /\ forall u, In u (resolve accounts ids) ->
               user_bot u = false /\ In (user_id u) ids /\ In u (reactors cache).
Proof.
  intros Hco. induction ids as [|i ids IH]; intros Hids; simpl.
  - split; auto. intros u [].
  - destruct IH as (IH1 & IH2); [intros j Hj; apply Hids; right; auto|].
    destruct (Hids i (or_introl eq_refl)) as (v & Hv & Hb & Hi).
    destruct (accounts i) as [u|] eqn:A; simpl.
    + rewrite <- Hi in A. apply (Hco v Hv) in A. subst u. split.
      * rewrite IH1. congruence.
      * intros u [<- | Hu]; auto. destruct (IH2 u Hu) as (? & ? & ?). auto.
    + split; auto. intros u Hu. destruct (IH2 u Hu) as (? & ? & ?). auto.
Qed.


(** *** The log does not feed back into the computation *)

Lemma logger_same_but_log level1 m1 level2 m2 g1 g2 :
  same_but_log g1 g2 ->
  fst (logger level1 m1 g1) = fst (logger level2 m2 g2)
  /\ same_but_log (snd (logger level1 m1 g1)) (snd (logger level2 m2 g2)).
Proof. unfold same_but_log, logger, modify. simpl. auto. Qed.

Lemma log_blind_logger level m : log_blind (logger level m).
Proof. intros g1 g2. apply logger_same_but_log. Qed.

Lemma log_blind_ret {A} (a : A) : log_blind (ret a).
Proof. intros g1 g2 H. simpl. auto. Qed.

Lemma log_blind_bind {A B} (m : M Guild A) (k : A -> M Guild B) :
  log_blind m -> (forall a, log_blind (k a)) -> log_blind (bind m k).
Proof.
  intros Hm Hk g1 g2 Hg. unfold bind.
  destruct (Hm g1 g2 Hg) as (E & Hs).
  destruct (m g1) as [[a1|] s1], (m g2) as [[a2|] s2]; simpl in *;
    try discriminate; auto.
  inversion E; subst. apply Hk. exact Hs.
Qed.

Lemma log_blind_tryCatch {A} (body handler : M Guild A) :
  log_blind body -> log_blind handler -> log_blind (tryCatch body handler).
Proof.
  intros Hb Hh g1 g2 Hg. unfold tryCatch.
  destruct (Hb g1 g2 Hg) as (E & Hs).
  destruct (body g1) as [[a1|] s1], (body g2) as [[a2|] s2]; simpl in *;
    try discriminate; auto.
Qed.

Lemma log_blind_cache : log_blind (gets channels_cache).
Proof.
  intros g1 g2 Hg. unfold gets. simpl. split; auto.
  destruct Hg as (-> & _). reflexivity.
Qed.

Lemma log_blind_await c : log_blind (await rejects c).
Proof.
  intros g1 g2 (Hc & Hk & Hn). unfold await, same_but_log. rewrite Hk.
  destruct (rejects (calls g2) c); simpl; rewrite Hc, Hn; auto.
Qed.

Lemma log_blind_users_fetch i : log_blind (users_fetch accounts i).
Proof.
  intros g1 g2 (Hc & Hk & Hn). unfold users_fetch, same_but_log.
  destruct (accounts i); simpl; rewrite Hc, Hk, Hn; auto.
Qed.

Lemma log_blind_collect_users (us : list User) :
  forall s, log_blind (collect_users us s).
Proof.
  induction us as [|u us IH]; intros s; simpl.
  - apply log_blind_ret.
  - destruct (negb (user_bot u)); auto.
    apply log_blind_bind; auto using log_blind_logger.
Qed.

Lemma log_blind_scan_slots (messages : list Message) (slots : list jsstring) :
  forall s, log_blind (scan_slots rejects messages slots s).
Proof.
  induction slots as [|slot slots IH]; intros s; simpl.
  - apply log_blind_ret.
  - apply log_blind_bind; [apply log_blind_logger|]. intros _.
    destruct (find _ messages) as [m|].
    + apply log_blind_bind; [apply log_blind_logger|]. intros _.
      destruct (find _ (msg_reactions m)) as [r|].
      * apply log_blind_bind.
        { unfold reaction_users_fetch. apply log_blind_bind.
          - apply log_blind_await.
          - intros _. apply log_blind_ret. }
        intros reacted. apply log_blind_bind; [apply log_blind_logger|].
        intros _. apply log_blind_bind; [apply log_blind_collect_users|]. auto.
      * apply log_blind_bind; [apply log_blind_logger|]. auto.
    + apply log_blind_bind; [apply log_blind_logger|]. auto.
Qed.

Lemma log_blind_resolve_users (ids : list Snowflake) :
  forall users, log_blind (resolve_users accounts ids users).
Proof.
  induction ids as [|i ids IH]; intros users; simpl.
  - apply log_blind_ret.
  - apply log_blind_bind; auto. apply log_blind_tryCatch.
    + apply log_blind_bind; [apply log_blind_users_fetch|].
      intros u. apply log_blind_ret.
    + apply log_blind_bind; [apply log_blind_logger|].
      intros _. apply log_blind_ret.
Qed.

Lemma bind_logger_blind {A} level m1 m2 (k : unit -> M Guild A) :
  log_blind (k tt) ->
  forall g, fst (bind (logger level m1) k g) = fst (bind (logger level m2) k g)
            /\ same_but_log (snd (bind (logger level m1) k g))
                            (snd (bind (logger level m2) k g)).
Proof.
  intros Hk g. unfold bind, logger, modify. apply Hk.
  unfold same_but_log. simpl. auto.
Qed.

(** C10. The result of the correlator does not depend on the
    [dayOfWeek] argument: on the same guild, messages and reactions and
    with the same slots, two invocations that differ only in
    [dayOfWeek] return the same users (or both throw), issue the same
    remote calls and leave the same channels; they differ at most in
    the log.  The channel looked up is named from the current date
    alone. *)
Theorem getUsersFromPlanning_ignores_dayOfWeek dayOfWeek1 dayOfWeek2 slots g :
  fst (getUsers dayOfWeek1 slots g) = fst (getUsers dayOfWeek2 slots g)
  /\ same_but_log (snd (getUsers dayOfWeek1 slots g))
                  (snd (getUsers dayOfWeek2 slots g)).
Proof.
  unfold getUsersFromPlanning. apply bind_logger_blind.
  apply log_blind_bind; [apply log_blind_cache|].
  intros cache. destruct (find _ cache) as [cat|].
  - destruct (find _ cache) as [ch|].
    + apply log_blind_bind; [apply log_blind_logger|]. intros _.
      apply log_blind_bind.
      { unfold messages_fetch. apply log_blind_bind.
        - apply log_blind_await.
        - intros _. apply log_blind_ret. }
      intros messages. apply log_blind_bind; [apply log_blind_logger|]. intros _.
      apply log_blind_bind; [apply log_blind_scan_slots|]. intros ids.
      apply log_blind_bind; [apply log_blind_logger|]. intros _.
      apply log_blind_resolve_users.
    + apply log_blind_bind; [apply log_blind_logger|]. intros _.
      apply log_blind_ret.
  - apply log_blind_bind; [apply log_blind_logger|]. intros _.
    apply log_blind_ret.
Qed.
End Correlator.

(* ================================================================== *)
(** * Status refresh: the two variants *)
(* ================================================================== *)

Lemma skipn_length_app {A} (l x : list A) : skipn (length l) (l ++ x) = x.
Proof. rewrite skipn_app, skipn_all, Nat.sub_diag. reflexivity. Qed.

Section StatusRefresh.
Import Status.
Variable images : GymStatus -> jsstring.
Variable rejects : list (StatusCall * bool) -> StatusCall -> bool.

Local Abbreviation refresh_source := (refreshStatusMessage images rejects).
Local Abbreviation refresh_dist := (refreshStatusMessage_dist images rejects).

(** C7 (as amended). With no tracked message both variants do nothing.
    With a tracked message, the TypeScript source edits it in place: one
    [MessageEdit] call with the current rendering, the tracked message
    unchanged, no exception.  The compiled variant reposts when the
    tracked message sits in a text channel: a [MessageDelete] of the
    tracked message, then a [Send] of the current rendering to the same
    channel, and the message posted becomes the tracked one (the old one
    stays tracked when the send is rejected); in another kind of channel
    it only logs a warning. *)
Theorem refreshStatusMessage_variants (m : Manager) :
  (statusMessage m = None ->
   refresh_source m = (Ok tt, m) /\ refresh_dist m = (Ok tt, m))
  /\ (forall current,
         statusMessage m = Some current ->
         (fst (refresh_source m) = Ok tt
          /\ (exists ok,
                 new_status_calls m (snd (refresh_source m))
                 = [(MessageEdit (sm_id current) (render images m), ok)])
          /\ statusMessage (snd (refresh_source m)) = Some current)
         /\ (sm_channel_type current = GuildText ->
             fst (refresh_dist m) = Ok tt
             /\ exists ok1 ok2,
                 new_status_calls m (snd (refresh_dist m))
                 = [(MessageDelete (sm_id current), ok1);
                    (Send (sm_channel current) (render images m), ok2)]
                 /\ statusMessage (snd (refresh_dist m))
                    = Some (if ok2
                            then mkStatusMessage (status_next_id m)
                                                 (sm_channel current) GuildText
                            else current))
         /\ (sm_channel_type current <> GuildText ->
             refresh_dist m
             = (Ok tt, mkManager (status m) (lastActionBy m) (statusMessage m)
                                 (status_calls m)
                                 (status_log m ++ [WarnPasUnSalonTexte])
                                 (status_next_id m)))).
Proof.
  split.
  - intros Hnone. unfold refreshStatusMessage, refreshStatusMessage_dist, bind, get.
    rewrite Hnone. auto.
  - intros current Hsome. split; [|split].
    + unfold refreshStatusMessage, bind, get, tryCatch, status_await, status_logger,
        modify, new_status_calls.
      rewrite Hsome.
      destruct (rejects (status_calls m) _); simpl;
        rewrite skipn_length_app; eauto.
    + intros Htext.
      unfold refreshStatusMessage_dist, send, set_statusMessage, status_logger.
      unfold bind, get, tryCatch, status_await, modify, new_status_calls.
      rewrite Hsome, Htext. simpl.
      repeat match goal with
             | |- context [rejects ?h ?c] => destruct (rejects h c); simpl
             end;
        rewrite <- app_assoc, skipn_length_app;
        (split; [reflexivity|]); do 2 eexists; (split; [reflexivity|]);
        cbn; auto.
    + intros Hother.
      unfold refreshStatusMessage_dist, bind, get, status_logger, modify.
      rewrite Hsome.
      destruct (sm_channel_type current); simpl; congruence.
Qed.

End StatusRefresh.

(* ================================================================== *)
(** * Rules acceptance *)
(* ================================================================== *)

Lemma log_guarded_spec (member : Snowflake) (cs : list (Rules.RulesCall * bool)) :
  forall granted,
    log_guarded member granted cs = true ->
    forall pre path tag id date ok post,
      cs = pre ++ (Rules.AppendFile path tag id date, ok) :: post ->
      granted = true
      \/ exists role, In (Rules.RolesAdd member role, true) pre.
Proof.
  induction cs as [|[c b] cs IH]; intros granted H pre path tag id date ok post E.
  - destruct pre; discriminate.
  - destruct pre as [|x pre]; simpl in E; inversion E; subst.
    + simpl in H. apply andb_true_iff in H. tauto.
    + assert (Hstep : forall g', log_guarded member g' (pre ++ (Rules.AppendFile path tag id date, ok) :: post) = true ->
                        g' = true
                        \/ exists role, In (Rules.RolesAdd member role, true)
                                            ((c, b) :: pre)).
      { intros g' Hg'. destruct (IH _ Hg' _ _ _ _ _ _ _ eq_refl) as [G | (r & Hin)];
          [auto | right; exists r; right; auto]. }
      destruct c; simpl in H; try (apply Hstep; exact H).
      * destruct b; [|apply Hstep; exact H].
        destruct (Hstep _ H) as [G | Hex]; auto.
        apply orb_true_iff in G. destruct G as [G | G]; auto.
        apply N.eqb_eq in G. subst. right. exists role. left. reflexivity.
      * apply andb_true_iff in H. destruct H as (G & H). auto.
Qed.

Section RulesAcceptance.
Import Rules.
Variable config : RulesConfig.
Variable rejects : list (RulesCall * bool) -> RulesCall -> bool.
Variable formattedDate : jsstring.

Local Abbreviation accept := (handleAcceptRules config rejects formattedDate).

Lemma handleAcceptRules_outcome interaction roles role e :
  guild_roles interaction = Some roles ->
  findRole config roles = Some role ->
  exists delta logs,
    rules_calls (snd (accept interaction e)) = rules_calls e ++ delta
    /\ rules_log (snd (accept interaction e)) = rules_log e ++ logs
    /\ accept_outcome config formattedDate (user interaction) role delta logs
                      (fst (accept interaction e)).
Proof.
  intros Hg Hr. unfold handleAcceptRules, logSignature. rewrite Hg, Hr.
  unfold bind, tryCatch, rules_await, rules_logger, modify.
  repeat match goal with
         | |- context [rejects ?h ?c] => destruct (rejects h c); simpl
         end;
    rewrite <- ?app_assoc; simpl;
    do 2 eexists; (split; [reflexivity|]);
    (split; [first [reflexivity | symmetry; apply app_nil_r]|]).
  all: try (apply defer_rejected).
  all: try (apply (fetch_rejected config formattedDate (user interaction) role true)).
  all: try (apply (fetch_rejected config formattedDate (user interaction) role false)).
  all: try (apply (grant_rejected config formattedDate (user interaction) role true)).
  all: try (apply (grant_rejected config formattedDate (user interaction) role false)).
  all: try (apply (accepted config formattedDate (user interaction) role true)).
  all: try (apply (accepted config formattedDate (user interaction) role false)).
  all: try (apply (confirm_rejected config formattedDate (user interaction) role true true)).
  all: try (apply (confirm_rejected config formattedDate (user interaction) role true false)).
  all: try (apply (confirm_rejected config formattedDate (user interaction) role false true)).
  all: try (apply (confirm_rejected config formattedDate (user interaction) role false false)).
Qed.

Lemma find_role_absent roles :
  (forall r, In r roles -> role_name r <> memberRoleName config) ->
  findRole config roles = None.
Proof.
  intros Habs. unfold findRole. apply find_none_iff. intros r Hr.
  destruct (eqb (role_name r) (memberRoleName config)) eqn:E; auto.
  apply eqb_eq in E. exfalso. exact (Habs r Hr E).
Qed.

(** C8. [handleAcceptRules] appends to the acceptance log only after
    the role grant was fulfilled.  When the configured member role is
    not among the guild's roles it logs the error and replies with the
    administrator-contact message: that reply is its only call, so no
    role is granted and nothing is appended.  When the role grant is
    rejected the exception is caught: the error is logged, the generic
    error is sent to the requester as the last call, nothing is
    appended, and the handler throws only if that last reply is itself
    rejected. *)
Theorem handleAcceptRules_logs_only_granted interaction e :
  let run := accept interaction e in
  let delta := new_rules_calls e (snd run) in
  rules_calls (snd run) = rules_calls e ++ delta
  /\ (forall pre path tag id date ok post,
         delta = pre ++ (AppendFile path tag id date, ok) :: post ->
         exists role, In (RolesAdd (iu_id (user interaction)) role, true) pre)
  /\ (forall roles,
         guild_roles interaction = Some roles ->
         (forall r, In r roles -> role_name r <> memberRoleName config) ->
         (exists ok, delta = [(Reply (RoleIntrouvable (memberRoleName config)), ok)])
         /\ rules_log (snd run)
            = rules_log e ++ [ErrorRoleIntrouvable (memberRoleName config)])
  /\ (forall role,
         In (RolesAdd (iu_id (user interaction)) role, false) delta ->
         (forall x, In x delta -> is_append (fst x) = false)
         /\ rules_log (snd run) = rules_log e ++ [ErrorAjoutRole]
         /\ exists pre ok,
             delta = pre ++ [(EditReply ErreurAjoutRole, ok)]
             /\ fst run = if ok then Ok tt else Throw).
Proof.
  cbv zeta.
  assert (Hguard : forall delta,
             log_guarded (iu_id (user interaction)) false delta = true ->
             forall pre path tag id date ok post,
               delta = pre ++ (AppendFile path tag id date, ok) :: post ->
               exists role, In (RolesAdd (iu_id (user interaction)) role, true) pre).
  { intros delta Hd pre path tag id date ok post E.
    destruct (log_guarded_spec _ _ _ Hd _ _ _ _ _ _ _ E) as [G | G];
      [discriminate | exact G]. }
  destruct (guild_roles interaction) as [roles|] eqn:Hg.
  - destruct (findRole config roles) as [role|] eqn:Hr.
    + destruct (handleAcceptRules_outcome interaction roles role e Hg Hr)
        as (delta & logs & Hcalls & Hlogs & Hout).
      unfold new_rules_calls. rewrite Hcalls, Hlogs, skipn_length_app.
      split; [reflexivity|]. split; [|split].
      * apply Hguard.
        inversion Hout; subst; simpl; rewrite ?N.eqb_refl; reflexivity.
      * intros roles' E Habs. inversion E; subst roles'.
        rewrite (find_role_absent roles Habs) in Hr. discriminate.
      * intros role' Hin.
        inversion Hout as [| ok Hd Hl Hres | ok Hd Hl Hres | logged Hd Hl Hres
                           | logged ok Hd Hl Hres];
          subst delta logs; simpl in Hin;
          repeat (destruct Hin as [Hin | Hin]; try discriminate Hin);
          try contradiction.
        split; [|split; [reflexivity|]].
        -- intros x Hx. simpl in Hx.
           repeat (destruct Hx as [<- | Hx]; [reflexivity|]). destruct Hx.
        -- exists [(DeferReply, true); (MembersFetch (iu_id (user interaction)), true);
                   (RolesAdd (iu_id (user interaction)) role, false)], ok.
           split; reflexivity.
    + unfold handleAcceptRules, new_rules_calls. rewrite Hg, Hr.
      unfold bind, rules_await, rules_logger, modify. simpl.
      destruct (rejects (rules_calls e) _); simpl; rewrite skipn_length_app.
      all: split; [reflexivity|]; split; [apply Hguard; reflexivity|]; split;
        [intros roles' _ _; split; eauto
        |intros role [Hin | []]; discriminate Hin].
  - unfold handleAcceptRules, new_rules_calls. rewrite Hg.
    unfold rules_await. destruct (rejects (rules_calls e) _); simpl;
      rewrite skipn_length_app.
    all: split; [reflexivity|]; split; [apply Hguard; reflexivity|]; split;
      [intros roles' E; discriminate E
      |intros role [Hin | []]; discriminate Hin].
Qed.
End RulesAcceptance.

(* ================================================================== *)
(** * The theorems on concrete guilds *)
(* ================================================================== *)

Module Witnesses.
Import Examples.

Lemma guildA_ids : NoDup (map ch_id (channels_cache guildA)).
Proof.
  repeat (constructor; [simpl; intuition discriminate|]). constructor.
Defined.

Lemma guildA_run : sync_monday config3 guildA = (Ok tt, guildA').
Proof. vm_compute. reflexivity. Defined.

Lemma guildA_fulfilled :
  fulfilled (new_calls guildA (snd (sync_monday config3 guildA))).
Proof. vm_compute. repeat constructor. Defined.

(** Scenario A: the Friday channel goes, Tuesday and Wednesday are
    created, Monday stays. *)
Lemma syncPlanning_converges_witness :
  NoDup (map ch_id (channels_cache guildA))
  /\ fulfilled (new_calls guildA (snd (sync_monday config3 guildA)))
  /\ deleted_ids (new_calls guildA (snd (sync_monday config3 guildA))) = [101%N]
  /\ (forall n, In n (planning_names category
                        (channels_cache (snd (sync_monday config3 guildA))))
                <-> In n [lit "lundi-2-novembre"; lit "mardi-3-novembre";
                          lit "mercredi-4-novembre"]).
Proof.
  split; [exact guildA_ids|]. split; [exact guildA_fulfilled|].
  destruct (syncPlanning_converges FrFR.toLocaleDateString FrFR.toLowerCase
              (@never ApiCall) bot config3 FrFR.monday category guildA
              guildA_ids guildA_fulfilled) as (_ & _ & _ & Hdel & _ & _ & Hfin).
  vm_compute in Hdel, Hfin. vm_compute. split; [exact Hdel | exact Hfin].
Defined.

(** The same guild when the platform rejects the bot's messages: the
    stale channel is deleted and Tuesday's channel created, both calls
    fulfilled, then the header message of Tuesday's channel is rejected
    and the pass stops; Wednesday's channel is missing.  No deletion or
    creation was rejected. *)
Lemma syncPlanning_stops_on_seeding_failure :
  new_calls guildA guildA_unseeded
  = [(ChannelDelete 101%N, true);
     (ChannelsCreate (lit "mardi-3-novembre") GuildText (Some 100%N), true);
     (ChannelSend 200%N (PlanningEmbed (lit "mardi 3 novembre")), false)]
  /\ syncPlanning FrFR.toLocaleDateString FrFR.toLowerCase sends_rejected bot
                  config3 FrFR.monday category guildA
     = (Throw, guildA_unseeded)
  /\ Forall (fun x => is_create (fst x) || is_delete (fst x) = true -> snd x = true)
            (new_calls guildA guildA_unseeded)
  /\ planning_names category (channels_cache guildA_unseeded)
     = [lit "lundi-2-novembre"; lit "mardi-3-novembre"]
  /\ ~ (forall n,
          In n (planning_names category (channels_cache guildA_unseeded))
          <-> In n (map name (fst (planningWindow FrFR.toLocaleDateString
                                     FrFR.toLowerCase config3 FrFR.monday)))).
Proof.
  split; [vm_compute; reflexivity|]. split; [vm_compute; reflexivity|].
  split; [vm_compute; repeat constructor; discriminate|].
  split; [vm_compute; reflexivity|].
  intros H. specialize (H (lit "mercredi-4-novembre")). vm_compute in H.
  destruct H as [_ H].
  destruct (H (or_intror (or_intror (or_introl eq_refl)))) as [E | [E | []]];
    discriminate E.
Qed.

Lemma syncPlanning_idempotent_witness :
  NoDup (map ch_id (channels_cache guildA))
  /\ sync_monday config3 guildA = (Ok tt, guildA')
  /\ sync_monday config3 guildA' = (Ok tt, guildA').
Proof.
  split; [exact guildA_ids|]. split; [exact guildA_run|].
  exact (proj1 (syncPlanning_idempotent FrFR.toLocaleDateString FrFR.toLowerCase
                  (@never ApiCall) bot config3 FrFR.monday category guildA guildA'
                  guildA_ids guildA_run)).
Defined.

Lemma planningWindow_deterministic_witness :
  2 < window_fuel config3
  /\ nth_error (fst (planningWindow FrFR.toLocaleDateString FrFR.toLowerCase
                                    config3 FrFR.monday)) 2
     = Some (mkDesired (lit "mercredi-4-novembre") (lit "mercredi 4 novembre")).
Proof.
  assert (H : 2 < window_fuel config3) by (vm_compute; lia).
  split; [exact H|].
  pose proof (proj1 (proj2 (proj2 (proj2
           (planningWindow_deterministic FrFR.toLocaleDateString FrFR.toLowerCase
              config3 FrFR.monday)))) 2 H) as E.
  vm_compute in E. vm_compute. exact E.
Defined.

(** The first creation of the run comes after its only deletion. *)
Lemma syncPlanning_deletes_before_creates_witness : 0 < 1.
Proof.
  apply (syncPlanning_deletes_before_creates FrFR.toLocaleDateString
           FrFR.toLowerCase (@never ApiCall) bot config3 FrFR.monday category
           guildA 1 0
           (ChannelsCreate (lit "mardi-3-novembre") GuildText (Some 100%N), true)
           (ChannelDelete 101%N, true)).
  - vm_compute. reflexivity.
  - vm_compute. reflexivity.
  - reflexivity.
  - reflexivity.
Defined.

Lemma guildA_fulfilled_negative :
  fulfilled (new_calls guildA (snd (sync_monday config_negative guildA))).
Proof. vm_compute. repeat constructor. Defined.

Lemma syncPlanning_nonpositive_window_witness :
  number_of (lit "-2") = Finite (-2)
  /\ (-2 <= 0)%Q
  /\ fulfilled (new_calls guildA (snd (sync_monday config_negative guildA)))
  /\ deleted_ids (new_calls guildA (snd (sync_monday config_negative guildA)))
     = [101%N; 102%N]
  /\ planning_names category
       (channels_cache (snd (sync_monday config_negative guildA))) = [].
Proof.
  assert (HN : number_of (lit "-2") = Finite (-2)) by (vm_compute; reflexivity).
  assert (Hq : (-2 <= 0)%Q) by (vm_compute; discriminate).
  split; [exact HN|]. split; [exact Hq|]. split; [exact guildA_fulfilled_negative|].
  destruct (syncPlanning_nonpositive_window FrFR.toLocaleDateString
              FrFR.toLowerCase (@never ApiCall) bot config_negative FrFR.monday
              category number_of (lit "-2") (-2) guildA
              HN Hq eq_refl) as (_ & _ & _ & _ & Hrun).
  destruct (Hrun guildA_fulfilled_negative) as (_ & Hdel & Hfin).
  vm_compute in Hdel. split; [exact Hdel | exact Hfin].
Defined.

(** Scenario B: A and B on the first slot, B and C on the second. *)
Lemma guildB_coherent : coherent directory (channels_cache guildB).
Proof.
  intros v Hv u Hu. vm_compute in Hv.
  repeat (destruct Hv as [<- | Hv];
          [vm_compute in Hu; inversion Hu; reflexivity|]).
  destruct Hv.
Defined.

Lemma guildB_run :
  fst (correlate guildB) = Ok [alice; bob; carol].
Proof. vm_compute. reflexivity. Defined.


(** A guild without the planning category, and one with the category
    but no channel for today. *)
Lemma getUsersFromPlanning_not_found_witness :
  (forall c, In c (channels_cache guild_no_category) ->
             ~ (ch_type c = GuildCategory /\ ch_name c = categoryName config3))
  /\ fst (correlate guild_no_category) = Ok []
  /\ find (is_planning_category config3) (channels_cache guild_no_channel)
     = Some category
  /\ fst (correlate guild_no_channel) = Ok [].
Proof.
  assert (H : forall c, In c (channels_cache guild_no_category) ->
                ~ (ch_type c = GuildCategory /\ ch_name c = categoryName config3)).
  { intros c [<- | []] [E _]. discriminate E. }
  assert (Hcat : find (is_planning_category config3) (channels_cache guild_no_channel)
                 = Some category) by (vm_compute; reflexivity).
  assert (H' : forall c, In c (channels_cache guild_no_channel) ->
                 ~ (ch_parentId c = Some (ch_id category) /\ ch_type c = GuildText
                    /\ ch_name c
                       = reminderChannelName FrFR.toLocaleDateString
                                             FrFR.toLowerCase FrFR.monday)).
  { intros c [<- | [<- | [<- | []]]] (E1 & E2 & E3);
      vm_compute in E1, E2, E3; discriminate. }
  split; [exact H|]. split; [|split; [exact Hcat|]].
  - destruct (getUsersFromPlanning_not_found FrFR.toLocaleDateString
                FrFR.toLowerCase (@never ApiCall) directory config3 FrFR.monday
                3 slots3 guild_no_category (or_introl H)) as (w & E & _).
    rewrite E. reflexivity.
  - destruct (getUsersFromPlanning_not_found FrFR.toLocaleDateString
                FrFR.toLowerCase (@never ApiCall) directory config3 FrFR.monday
                3 slots3 guild_no_channel
                (or_intror (ex_intro _ category (conj Hcat H')))) as (w & E & _).
    rewrite E. reflexivity.
Defined.


Import Status StatusExamples.

(** After [/gym status] and a press on "open": the source edits message
    900 where the compiled variant deletes it and posts message 901. *)
Lemma refreshStatusMessage_variants_differ :
  statusMessage published = Some (mkStatusMessage 900%N 500%N GuildText)
  /\ new_status_calls published
       (snd (refreshStatusMessage images StatusExamples.never published))
     = [(MessageEdit 900%N (render images published), true)]
  /\ statusMessage (snd (refreshStatusMessage images StatusExamples.never published))
     = Some (mkStatusMessage 900%N 500%N GuildText)
  /\ new_status_calls published
       (snd (refreshStatusMessage_dist images StatusExamples.never published))
     = [(MessageDelete 900%N, true); (Send 500%N (render images published), true)]
  /\ statusMessage (snd (refreshStatusMessage_dist images StatusExamples.never published))
     = Some (mkStatusMessage 901%N 500%N GuildText)
  /\ refreshStatusMessage images StatusExamples.never published
     <> refreshStatusMessage_dist images StatusExamples.never published.
Proof.
  repeat split; try (vm_compute; reflexivity).
  vm_compute. discriminate.
Qed.

Lemma refreshStatusMessage_variants_witness :
  statusMessage published = Some (mkStatusMessage 900%N 500%N GuildText)
  /\ statusMessage (snd (refreshStatusMessage images StatusExamples.never published))
     = Some (mkStatusMessage 900%N 500%N GuildText)
  /\ fst (refreshStatusMessage_dist images StatusExamples.never published) = Ok tt.
Proof.
  assert (H : statusMessage published = Some (mkStatusMessage 900%N 500%N GuildText))
    by (vm_compute; reflexivity).
  split; [exact H|].
  destruct (proj2 (refreshStatusMessage_variants images StatusExamples.never published)
                  _ H) as ((_ & _ & Hsrc) & Hdist & _).
  split; [exact Hsrc|]. exact (proj1 (Hdist eq_refl)).
Defined.

Import Rules RulesExamples.

(** Scenario D, and a grant the platform refuses. *)
Lemma handleAcceptRules_logs_only_granted_witness :
  guild_roles press_no_role = Some [staff]
  /\ (forall r, In r [staff] -> role_name r <> memberRoleName config)
  /\ rules_log (snd (handleAcceptRules config RulesExamples.never date press_no_role empty))
     = [ErrorRoleIntrouvable (lit "Membre")]
  /\ In (RolesAdd 14%N member, false)
        (new_rules_calls empty
           (snd (handleAcceptRules config grant_refused date press empty)))
  /\ rules_log (snd (handleAcceptRules config grant_refused date press empty))
     = [ErrorAjoutRole].
Proof.
  assert (Habs : forall r, In r [staff] -> role_name r <> memberRoleName config).
  { intros r [<- | []]. vm_compute. discriminate. }
  assert (Hin : In (RolesAdd 14%N member, false)
                   (new_rules_calls empty
                      (snd (handleAcceptRules config grant_refused date press empty)))).
  { vm_compute. auto. }
  split; [reflexivity|]. split; [exact Habs|].
  split.
  - exact (proj2 (proj1 (proj2 (proj2
             (handleAcceptRules_logs_only_granted config RulesExamples.never date
                press_no_role empty))) [staff] eq_refl Habs)).
  - split; [exact Hin|].
    exact (proj1 (proj2 (proj2 (proj2 (proj2
             (handleAcceptRules_logs_only_granted config grant_refused date
                press empty))) member Hin))).
Defined.

End Witnesses.

(* ================================================================== *)
(** * Further properties: seeding a planning channel *)
(* ================================================================== *)

Lemma with_message_compose chan (f h : list Message -> list Message) cache :
  map (with_message chan f) (map (with_message chan h) cache)
  = map (with_message chan (fun msgs => f (h msgs))) cache.
Proof.
  rewrite map_map. apply map_ext. intros c. unfold with_message.
  destruct (ch_id c =? chan)%N eqn:E; simpl; rewrite E; reflexivity.
Qed.

Lemma with_message_ext_in chan (f h : list Message -> list Message) cache :
  (forall c, In c cache -> ch_id c = chan -> f (ch_messages c) = h (ch_messages c)) ->
  map (with_message chan f) cache = map (with_message chan h) cache.
Proof.
  intros H. apply map_ext_in. intros c Hc. unfold with_message.
  destruct (ch_id c =? chan)%N eqn:E; auto.
  apply N.eqb_eq in E. rewrite (H c Hc E). reflexivity.
Qed.

Lemma with_message_In chan (f : list Message -> list Message) cache c :
  In c (map (with_message chan f) cache) -> ch_id c = chan ->
  exists c0, In c0 cache /\ ch_id c0 = chan /\ ch_messages c = f (ch_messages c0).
Proof.
  intros Hc Hid. apply in_map_iff in Hc. destruct Hc as (c0 & <- & Hc0).
  unfold with_message in *. destruct (ch_id c0 =? chan)%N eqn:E; simpl in *.
  - exists c0. auto.
  - apply N.eqb_neq in E. contradiction.
Qed.

Lemma older_messages_cons chan cache n m :
  older_messages chan cache n -> (msg_id m < n + 1)%N ->
  older_messages chan (map (with_message chan (cons m)) cache) (n + 1)%N.
Proof.
  intros Hold Hm c x Hc Hid Hx. apply in_map_iff in Hc.
  destruct Hc as (c0 & <- & Hc0). unfold with_message in *.
  destruct (ch_id c0 =? chan)%N eqn:E; simpl in *.
  - destruct Hx as [<- | Hx]; auto.
    specialize (Hold c0 x Hc0 Hid Hx). lia.
  - specialize (Hold c0 x Hc0 Hid Hx). lia.
Qed.

Lemma seeded_slots_app bot (slots : list jsstring) :
  forall id older,
    seeded_slots bot slots id older = seeded_slots bot slots id [] ++ older.
Proof.
  induction slots as [|slot slots IH]; intros id older; simpl; auto.
  rewrite IH. rewrite (IH _ [_]). rewrite <- app_assoc. reflexivity.
Qed.

Lemma seeded_slots_length bot (slots : list jsstring) :
  forall id older,
    length (seeded_slots bot slots id older) = length slots + length older.
Proof.
  induction slots as [|slot slots IH]; intros id older; simpl; auto.
  rewrite IH. simpl. lia.
Qed.

(** The newest message whose body is a seeded slot is a seeded one. *)
Lemma seeded_slots_find bot (slot : jsstring) (slots : list jsstring) :
  forall id older,
    In slot slots
    \/ (exists m, find (fun msg => eqb (msg_content msg) slot) older = Some m
                  /\ msg_reactions m = [mkReaction checkmark [bot]]) ->
    exists m,
      find (fun msg => eqb (msg_content msg) slot) (seeded_slots bot slots id older)
      = Some m
      /\ msg_reactions m = [mkReaction checkmark [bot]].
Proof.
  induction slots as [|s slots IH]; intros id older H; simpl.
  - destruct H as [[] | H]; exact H.
  - apply IH. destruct H as [[-> | Hin] | (m & Hm & Hr)]; auto; right; simpl.
    + unfold msg_content at 1. simpl. rewrite eqb_refl. eauto.
    + unfold msg_content at 1. simpl. destruct (eqb s slot); eauto.
Qed.

Lemma find_app_some {A} (f : A -> bool) (l1 l2 : list A) (x : A) :
  find f l1 = Some x -> find f (l1 ++ l2) = Some x.
Proof.
  induction l1 as [|a l1 IH]; simpl; [discriminate|].
  destruct (f a); auto.
Qed.

Section Seeding.
Variable rejects : list (ApiCall * bool) -> ApiCall -> bool.
Variable clientUser : User.
Variable config : PlanningConfig.

Lemma channel_send_ok ch body g m g' :
  channel_send rejects ch body g = (Ok m, g') ->
  m = mkMessage (next_id g) body []
  /\ channels_cache g' = map (with_message (ch_id ch) (cons m)) (channels_cache g)
  /\ next_id g' = (next_id g + 1)%N.
Proof.
  unfold channel_send, await, bind, fresh_id, set_cache, modify, ret.
  destruct (rejects (calls g) _); simpl; intros H; inversion H; subst; simpl; auto.
Qed.

Lemma message_react_ok ch m emoji g g' :
  message_react rejects clientUser ch m emoji g = (Ok tt, g') ->
  channels_cache g'
  = map (with_message (ch_id ch)
           (map (fun x => if (msg_id x =? msg_id m)%N
                          then mkMessage (msg_id x) (msg_body x)
                                 (add_reactor emoji clientUser (msg_reactions x))
                          else x))) (channels_cache g)
  /\ next_id g' = next_id g.
Proof.
  unfold message_react, await, bind, set_cache, modify.
  destruct (rejects (calls g) _); simpl; intros H; inversion H; subst; simpl; auto.
Qed.

Lemma seed_step ch slot g g' :
  older_messages (ch_id ch) (channels_cache g) (next_id g) ->
  (message <- channel_send rejects ch (TextBody slot) ;;
   message_react rejects clientUser ch message checkmark) g = (Ok tt, g') ->
  channels_cache g'
  = map (with_message (ch_id ch)
           (cons (mkMessage (next_id g) (TextBody slot)
                            [mkReaction checkmark [clientUser]])))
        (channels_cache g)
  /\ next_id g' = (next_id g + 1)%N.
Proof.
  intros Hold H. run_bind H m g1 H1; [|discriminate].
  apply channel_send_ok in H1. destruct H1 as (-> & C1 & N1).
  apply message_react_ok in H. destruct H as (C2 & N2).
  split; [|congruence]. rewrite C2, C1, with_message_compose.
  apply with_message_ext_in. intros c Hc Hid. cbn [map msg_id msg_body msg_reactions].
  rewrite N.eqb_refl. f_equal.
  rewrite <- (map_id (ch_messages c)) at 2. apply map_ext_in.
  intros x Hx. specialize (Hold c x Hc Hid Hx).
  destruct (msg_id x =? next_id g)%N eqn:E; auto.
  apply N.eqb_eq in E. lia.
Qed.

Lemma seed_slots_ok ch (slots : list jsstring) :
  forall g g',
    older_messages (ch_id ch) (channels_cache g) (next_id g) ->
    forEach slots (fun slot =>
      message <- channel_send rejects ch (TextBody slot) ;;
      message_react rejects clientUser ch message checkmark) g = (Ok tt, g') ->
    channels_cache g'
    = map (with_message (ch_id ch) (seeded_slots clientUser slots (next_id g)))
          (channels_cache g).
Proof.
  induction slots as [|slot slots IH]; intros g g' Hold H; simpl in H.
  - inversion H; subst. simpl. rewrite <- (map_id (channels_cache g')) at 1.
    apply map_ext. intros c. unfold with_message.
    destruct (ch_id c =? ch_id ch)%N; destruct c; reflexivity.
  - run_bind H u g1 H1; [|discriminate]. destruct u.
    destruct (seed_step ch slot g g1 Hold H1) as (C1 & N1).
    apply IH in H.
    + rewrite H, C1, N1, with_message_compose. reflexivity.
    + rewrite C1, N1. apply older_messages_cons; auto. simpl. lia.
Qed.

(** X1. Slot-placeholder round trip.  When seeding completes, the
    channel has gained, in front of its older messages, the header and
    one message per configured slot, in slot order; if the slot list has
    fewer than 100 entries, the lookup the reminder correlator performs
    on that channel (newest message of the last 100 whose body is the
    slot string, its affirmative reaction) finds for every configured
    slot exactly one user: the bot itself. *)
Theorem initializePlanningChannel_round_trip ch dayLabel g g' :
  older_messages (ch_id ch) (channels_cache g) (next_id g) ->
  initializePlanningChannel rejects clientUser config ch dayLabel g = (Ok tt, g') ->
  channels_cache g'
  = map (with_message (ch_id ch)
           (seeded clientUser dayLabel (timeSlots config) (next_id g)))
        (channels_cache g)
  /\ (length (timeSlots config) < 100 ->
      forall c slot,
        In c (channels_cache g') -> ch_id c = ch_id ch ->
        In slot (timeSlots config) ->
        slot_reactors (firstn 100 (ch_messages c)) slot = [clientUser]).
Proof.
  intros Hold H. unfold initializePlanningChannel in H.
  run_bind H m g1 H1; [|discriminate].
  apply channel_send_ok in H1. destruct H1 as (-> & C1 & N1).
  apply seed_slots_ok in H.
  2:{ rewrite C1, N1. apply older_messages_cons; auto. simpl. lia. }
  assert (Hcache : channels_cache g'
                   = map (with_message (ch_id ch)
                            (seeded clientUser dayLabel (timeSlots config) (next_id g)))
                         (channels_cache g)).
  { rewrite H, C1, N1, with_message_compose. reflexivity. }
  split; [exact Hcache|].
  intros Hlen c slot Hc Hid Hslot. rewrite Hcache in Hc.
  destruct (with_message_In _ _ _ _ Hc Hid) as (c0 & _ & _ & ->).
  unfold seeded. rewrite seeded_slots_app.
  set (new := seeded_slots clientUser (timeSlots config) (next_id g + 1)%N []).
  assert (Hnew : length new = length (timeSlots config))
    by (unfold new; rewrite seeded_slots_length; simpl; lia).
  destruct (seeded_slots_find clientUser slot (timeSlots config) (next_id g + 1)%N []
              (or_introl Hslot)) as (m & Hfind & Hreact).
  fold new in Hfind.
  rewrite firstn_app, (firstn_all2 (n:=100) new) by lia.
  unfold slot_reactors. rewrite (find_app_some _ new _ m Hfind), Hreact.
  simpl. reflexivity.
Qed.

End Seeding.

(* ================================================================== *)
(** * Further properties: what a reconcile pass leaves alone *)
(* ================================================================== *)

Lemma hoare_ret {S A} (a : A) (I : S -> Prop) E :
  hoare I (ret a) (fun _ => I) E.
Proof. intros g r g' HP H. inversion H; subst. exact HP. Qed.

Lemma hoare_bind {S A B} P (m : M S A) (k : A -> M S B) R Q E :
  hoare P m R E -> (forall a, hoare (R a) (k a) Q E) -> hoare P (bind m k) Q E.
Proof.
  intros Hm Hk g r g' HP H. run_bind H a g1 H1.
  - exact (Hk a g1 r g' (Hm g (Ok a) g1 HP H1) H).
  - subst r. exact (Hm g Throw g' HP H1).
Qed.

Lemma hoare_weaken {S A} (P P' : S -> Prop) (m : M S A) Q E :
  (forall g, P' g -> P g) -> hoare P m Q E -> hoare P' m Q E.
Proof. intros HPP Hm g r g' HP H. exact (Hm g r g' (HPP g HP) H). Qed.

Lemma hoare_forEach {S A} (I : S -> Prop) (xs : list A) (body : A -> M S unit) :
  (forall x, In x xs -> hoare I (body x) (fun _ => I) I) ->
  hoare I (forEach xs body) (fun _ => I) I.
Proof.
  induction xs as [|x xs IH]; intros Hb; simpl.
  - apply hoare_ret.
  - eapply hoare_bind with (R := fun _ => I); [apply Hb; left; reflexivity|].
    intros _. apply IH. intros y Hy. apply Hb. right; exact Hy.
Qed.

(** A step that changes neither the channels nor the next identifier
    keeps every property that speaks of these two only. *)
Lemma hoare_frame {A} (I : Guild -> Prop) (m : M Guild A) :
  (forall g g', channels_cache g' = channels_cache g -> next_id g' = next_id g ->
                I g -> I g') ->
  (forall g r g', m g = (r, g') ->
                  channels_cache g' = channels_cache g /\ next_id g' = next_id g) ->
  hoare I m (fun _ => I) I.
Proof.
  intros HI Hm g r g' HP H. destruct (Hm g r g' H) as (C & N).
  destruct r; exact (HI g g' C N HP).
Qed.

Lemma logger_frame level msg g r g' :
  logger level msg g = (r, g') ->
  channels_cache g' = channels_cache g /\ next_id g' = next_id g.
Proof. unfold logger, modify. intros H; inversion H; auto. Qed.

Lemma NoDup_id_filter_keep (P : Channel -> bool) (cache : list Channel) :
  NoDup (map ch_id cache) -> NoDup (map ch_id (filter P cache)).
Proof.
  induction cache as [|c cache IH]; simpl; intros ND; [constructor|].
  inversion ND as [|? ? Hc ND']; subst. destruct (P c); simpl; auto.
  constructor; auto. intros Hin. apply Hc.
  apply in_map_iff in Hin. destruct Hin as (x & E & Hx).
  apply filter_In in Hx. rewrite <- E. apply in_map. tauto.
Qed.

Lemma with_message_ids chan f cache :
  map ch_id (map (with_message chan f) cache) = map ch_id cache.
Proof.
  rewrite map_map. apply map_ext. intros c. unfold with_message.
  destruct (ch_id c =? chan)%N; reflexivity.
Qed.

Lemma NoDup_ids_unique (cache : list Channel) (a b : Channel) :
  NoDup (map ch_id cache) -> In a cache -> In b cache -> ch_id a = ch_id b -> a = b.
Proof.
  induction cache as [|x cache IH]; simpl; intros ND Ha Hb E; [tauto|].
  inversion ND as [|? ? Hx ND']; subst.
  destruct Ha as [-> | Ha], Hb as [-> | Hb]; auto.
  - exfalso. apply Hx. rewrite E. apply in_map; auto.
  - exfalso. apply Hx. rewrite <- E. apply in_map; auto.
Qed.

Lemma filter_filter_keep {A} (P Q : A -> bool) (l : list A) :
  (forall x, In x l -> P x = true -> Q x = true) ->
  filter P (filter Q l) = filter P l.
Proof.
  induction l as [|x l IH]; simpl; intros H; auto.
  destruct (Q x) eqn:EQ; simpl.
  - rewrite IH by auto. reflexivity.
  - destruct (P x) eqn:EP; [|apply IH; auto].
    rewrite (H x (or_introl eq_refl) EP) in EQ. discriminate.
Qed.

Lemma filter_map_fix {A} (P : A -> bool) (h : A -> A) (l : list A) :
  (forall x, In x l -> P (h x) = P x /\ (P x = true -> h x = x)) ->
  filter P (map h l) = filter P l.
Proof.
  induction l as [|x l IH]; simpl; intros H; auto.
  destruct (H x (or_introl eq_refl)) as (E & F). rewrite E.
  destruct (P x); rewrite IH by auto; auto. rewrite F; auto.
Qed.

Section Frame.
Variable toLocaleDateString : Date -> jsstring.
Variable toLowerCase : jsstring -> jsstring.
Variable rejects : list (ApiCall * bool) -> ApiCall -> bool.
Variable clientUser : User.
Variable config : PlanningConfig.
Variable today : Date.
Variable category : Channel.
Variable g0 : Guild.
Hypothesis wf0 : wf_guild g0.

Local Abbreviation window :=
  (planningWindow toLocaleDateString toLowerCase config today).
Local Abbreviation desired := (map name (fst window)).
Local Abbreviation J := (reconciling category desired g0).

Lemma await_frame c g r g' :
  await rejects c g = (r, g') ->
  channels_cache g' = channels_cache g /\ next_id g' = next_id g.
Proof.
  unfold await. destruct (rejects (calls g) c); simpl; intros H; inversion H; auto.
Qed.

Lemma reconciling_frame g g' :
  channels_cache g' = channels_cache g -> next_id g' = next_id g -> J g -> J g'.
Proof.
  unfold reconciling, wf_guild. intros -> ->. auto.
Qed.

Lemma reconciling_start : J g0.
Proof.
  unfold reconciling. split; [exact wf0|]. split; [lia|]. auto.
Qed.

Lemma channel_delete_effect ch g r g' :
  channel_delete rejects ch g = (r, g') ->
  next_id g' = next_id g
  /\ ((r = Ok tt
       /\ channels_cache g'
          = filter (fun c => negb (ch_id c =? ch_id ch)%N) (channels_cache g))
      \/ (r = Throw /\ channels_cache g' = channels_cache g)).
Proof.
  unfold channel_delete, await, bind, set_cache, modify.
  destruct (rejects (calls g) _); simpl; intros H; inversion H; subst; simpl; auto.
Qed.

Lemma channels_create_effect nm ty parent g r g' :
  channels_create rejects nm ty parent g = (r, g') ->
  (r = Ok (mkChannel (next_id g) nm parent ty [])
   /\ channels_cache g'
      = channels_cache g ++ [mkChannel (next_id g) nm parent ty []]
   /\ next_id g' = (next_id g + 1)%N)
  \/ (r = Throw /\ channels_cache g' = channels_cache g /\ next_id g' = next_id g).
Proof.
  unfold channels_create, await, bind, fresh_id, set_cache, modify, ret.
  destruct (rejects (calls g) _); simpl; intros H; inversion H; subst; simpl; auto.
Qed.

Lemma channel_send_effect ch body g r g' :
  channel_send rejects ch body g = (r, g') ->
  (exists m, r = Ok m
             /\ channels_cache g'
                = map (with_message (ch_id ch) (cons m)) (channels_cache g)
             /\ next_id g' = (next_id g + 1)%N)
  \/ (r = Throw /\ channels_cache g' = channels_cache g /\ next_id g' = next_id g).
Proof.
  unfold channel_send, await, bind, fresh_id, set_cache, modify, ret.
  destruct (rejects (calls g) _); simpl; intros H; inversion H; subst; simpl; eauto.
Qed.

Lemma message_react_effect ch m emoji g r g' :
  message_react rejects clientUser ch m emoji g = (r, g') ->
  next_id g' = next_id g
  /\ ((exists f, r = Ok tt
                 /\ channels_cache g'
                    = map (with_message (ch_id ch) f) (channels_cache g))
      \/ (r = Throw /\ channels_cache g' = channels_cache g)).
Proof.
  unfold message_react, await, bind, set_cache, modify.
  destruct (rejects (calls g) _); simpl; intros H; inversion H; subst; simpl;
    split; eauto.
Qed.

Lemma reconciling_delete ch :
  In ch (channels_cache g0) -> kept category desired ch = false ->
  hoare J (channel_delete rejects ch) (fun _ => J) J.
Proof.
  intros Hch Hstale g r g' HJ H. apply channel_delete_effect in H.
  destruct H as (N & [(-> & C) | (-> & C)]);
    [|exact (reconciling_frame g g' C N HJ)].
  destruct HJ as ((ND & Hlt) & Hn & K & New & O). unfold reconciling, wf_guild.
  rewrite C, N.
  assert (Hother : forall c, In c (channels_cache g0) ->
                             kept category desired c = true ->
                             negb (ch_id c =? ch_id ch)%N = true).
  { intros c Hc Hk. apply negb_true_iff, N.eqb_neq. intros E.
    destruct wf0 as (ND0 & _).
    rewrite (NoDup_ids_unique _ c ch ND0 Hc Hch E) in Hk. congruence. }
  split; [split|]; [| |split; [|split; [|split]]]; auto.
  - apply NoDup_id_filter_keep. exact ND.
  - intros c Hc. apply filter_In in Hc. apply Hlt. tauto.
  - intros c Hc Hk. apply filter_In. split; auto.
  - intros c Hc. apply filter_In in Hc. apply New. tauto.
  - rewrite <- O. apply filter_filter_keep. intros c Hc Hp.
    apply negb_true_iff in Hp. destruct (New c Hc) as [Hold | (_ & Hp' & _)].
    + apply Hother; auto. unfold kept. rewrite Hp. reflexivity.
    + congruence.
Qed.

Lemma reconciling_create nm :
  In nm desired ->
  hoare J (channels_create rejects nm GuildText (Some (ch_id category)))
          (fun ch g => J g /\ (next_id g0 <= ch_id ch)%N) J.
Proof.
  intros Hnm g r g' HJ H. apply channels_create_effect in H.
  destruct H as [(-> & C & N) | (-> & C & N)];
    [|exact (reconciling_frame g g' C N HJ)].
  destruct HJ as ((ND & Hlt) & Hn & K & New & O). split; [|simpl; lia].
  assert (Hnew : is_planning_text category
                   (mkChannel (next_id g) nm (Some (ch_id category)) GuildText [])
                 = true).
  { unfold is_planning_text, parent_is. simpl. rewrite N.eqb_refl. reflexivity. }
  unfold reconciling, wf_guild. rewrite C, N.
  split; [split|]; [| |split; [|split; [|split]]].
  - rewrite map_app. simpl. apply NoDup_app; auto.
    + repeat constructor. simpl. tauto.
    + intros a Ha [<- | []]. apply in_map_iff in Ha.
      destruct Ha as (c & E & Hc). specialize (Hlt c Hc). lia.
  - intros c Hc. apply in_app_iff in Hc. destruct Hc as [Hc | [<- | []]].
    + specialize (Hlt c Hc). lia.
    + simpl. lia.
  - lia.
  - intros c Hc Hk. apply in_app_iff. left. auto.
  - intros c Hc. apply in_app_iff in Hc.
    destruct Hc as [Hc | [<- | []]]; [exact (New c Hc)|].
    right. simpl. split; [lia|]. split; [exact Hnew|exact Hnm].
  - rewrite filter_app. cbn [filter]. rewrite Hnew. simpl.
    rewrite app_nil_r. exact O.
Qed.

Lemma reconciling_with_message n f g g' :
  (next_id g0 <= n)%N ->
  channels_cache g' = map (with_message n f) (channels_cache g) ->
  (next_id g <= next_id g')%N ->
  J g -> J g'.
Proof.
  intros Hn C N ((ND & Hlt) & Hn0 & K & New & O). unfold reconciling, wf_guild.
  rewrite C. rewrite with_message_ids.
  split; [split|]; [| |split; [|split; [|split]]]; auto.
  - intros c Hc. apply in_map_iff in Hc. destruct Hc as (c0 & <- & Hc0).
    specialize (Hlt c0 Hc0). unfold with_message.
    destruct (ch_id c0 =? n)%N; simpl; lia.
  - lia.
  - intros c Hc Hk. apply in_map_iff. exists c. split; auto.
    unfold with_message. destruct (ch_id c =? n)%N eqn:E; auto.
    apply N.eqb_eq in E. destruct wf0 as (_ & Hlt0). specialize (Hlt0 c Hc). lia.
  - intros c Hc. apply in_map_iff in Hc. destruct Hc as (c0 & <- & Hc0).
    unfold with_message. destruct (ch_id c0 =? n)%N eqn:E; auto.
    apply N.eqb_eq in E. destruct (New c0 Hc0) as [Hold | (Hid & Hp & Hd)].
    + destruct wf0 as (_ & Hlt0). specialize (Hlt0 c0 Hold). lia.
    + right. simpl. auto.
  - rewrite <- O. apply filter_map_fix. intros c Hc. split.
    + unfold with_message. destruct (ch_id c =? n)%N; reflexivity.
    + intros Hp. apply negb_true_iff in Hp. unfold with_message.
      destruct (ch_id c =? n)%N eqn:E; auto. apply N.eqb_eq in E.
      destruct (New c Hc) as [Hold | (_ & Hp' & _)]; [|congruence].
      destruct wf0 as (_ & Hlt0). specialize (Hlt0 c Hold). lia.
Qed.

Lemma reconciling_send ch body :
  (next_id g0 <= ch_id ch)%N ->
  hoare J (channel_send rejects ch body) (fun _ => J) J.
Proof.
  intros Hn g r g' HJ H. apply channel_send_effect in H.
  destruct H as [(m & -> & C & N) | (-> & C & N)];
    [|exact (reconciling_frame g g' C N HJ)].
  apply (reconciling_with_message (ch_id ch) (cons m) g g'); auto. lia.
Qed.

Lemma reconciling_react ch m emoji :
  (next_id g0 <= ch_id ch)%N ->
  hoare J (message_react rejects clientUser ch m emoji) (fun _ => J) J.
Proof.
  intros Hn g r g' HJ H. apply message_react_effect in H.
  destruct H as (N & [(f & -> & C) | (-> & C)]);
    [|exact (reconciling_frame g g' C N HJ)].
  apply (reconciling_with_message (ch_id ch) f g g'); auto. lia.
Qed.

Lemma reconciling_logger level msg : hoare J (logger level msg) (fun _ => J) J.
Proof.
  apply hoare_frame; [exact reconciling_frame|]. intros g r g'. apply logger_frame.
Qed.

Lemma reconciling_initialize ch dayLabel :
  (next_id g0 <= ch_id ch)%N ->
  hoare J (initializePlanningChannel rejects clientUser config ch dayLabel)
        (fun _ => J) J.
Proof.
  intros Hn. unfold initializePlanningChannel.
  eapply hoare_bind with (R := fun _ => J); [apply reconciling_send; exact Hn|].
  intros _.
  apply hoare_forEach. intros slot _.
  eapply hoare_bind with (R := fun _ => J); [apply reconciling_send; exact Hn|].
  intros m.
  apply reconciling_react. exact Hn.
Qed.

Lemma reconciling_syncPlanning :
  hoare (fun g => g = g0)
        (syncPlanning toLocaleDateString toLowerCase rejects clientUser config
                      today category)
        (fun _ => J) J.
Proof.
  unfold syncPlanning.
  pose proof (allowed_is_desired toLocaleDateString toLowerCase config today)
    as Hallowed.
  destruct window as [desiredChannels allowedNames] eqn:W.
  cbn [fst snd] in Hallowed |- *.
  assert (ED : map name desiredChannels = desired) by (rewrite W; reflexivity).
  rewrite ED in Hallowed |- *.
  eapply hoare_bind with (R := fun cache g => cache = channels_cache g0 /\ J g).
  { intros g r g' Eg H. subst g. injection H as Hr Hg. subst r g'. split; auto.
    apply reconciling_start. }
  intros cache. eapply hoare_bind with (R := fun _ => J).
  - intros g r g' (Ec & HJ). subst cache. revert g r g' HJ.
    refine (hoare_forEach J _ _ _).
    intros ch Hch. apply filter_In in Hch. destruct Hch as (Hch & Hp).
    destruct (negb (set_has allowedNames (ch_name ch))) eqn:E; [|apply hoare_ret].
    eapply hoare_bind with (R := fun _ => J); [apply reconciling_logger|].
    intros _.
    apply reconciling_delete; auto.
    unfold kept. rewrite Hp, <- Hallowed, E. reflexivity.
  - intros _. apply hoare_forEach. intros d Hd.
    eapply hoare_bind with (R := fun _ => J).
    { apply hoare_frame; [exact reconciling_frame|].
      intros g r g' H. inversion H; auto. }
    intros cache'. destruct (find _ cache'); [apply hoare_ret|].
    eapply hoare_bind with (R := fun _ => J); [apply reconciling_logger|].
    intros _.
    eapply hoare_bind; [apply reconciling_create; rewrite <- ED; apply in_map; exact Hd|]. cbv beta.
    intros newChannel g r g' (HJ & Hn). revert g r g' HJ.
    exact (reconciling_initialize _ _ Hn).
Qed.

(** The invariant holds of the state a pass ends in, whether it
    completed or stopped on a rejected call. *)
Lemma syncPlanning_reconciling :
  J (snd (syncPlanning toLocaleDateString toLowerCase rejects clientUser
                       config today category g0)).
Proof.
  destruct (syncPlanning _ _ _ _ _ _ _ g0) as [r g'] eqn:H. cbn [snd].
  pose proof (reconciling_syncPlanning g0 r g' eq_refl H) as HJ.
  destruct r; exact HJ.
Qed.

(** X2. Whatever its outcome, a reconcile pass never deletes nor alters
    a channel it has no reason to delete: every channel that is not a
    text channel under the category, and every text channel under it
    named by a desired slug, is afterwards in the cache exactly as it
    was, messages included (an existing day channel is never seeded
    again).  The channels that are not text channels under the category
    keep their order.  The only channels it adds are text channels under
    the category named by desired slugs. *)
Theorem syncPlanning_leaves_others_alone :
  let g' := snd (syncPlanning toLocaleDateString toLowerCase rejects clientUser
                              config today category g0) in
  (forall c, In c (channels_cache g0) ->
             is_planning_text category c = false \/ In (ch_name c) desired ->
             In c (channels_cache g'))
  /\ filter (fun c => negb (is_planning_text category c)) (channels_cache g')
     = filter (fun c => negb (is_planning_text category c)) (channels_cache g0)
  /\ (forall c, In c (channels_cache g') -> ~ In c (channels_cache g0) ->
                ch_type c = GuildText
                /\ ch_parentId c = Some (ch_id category)
                /\ In (ch_name c) desired).
Proof.
  cbv zeta. destruct syncPlanning_reconciling as (_ & _ & K & New & O).
  split; [|split; [exact O|]].
  - intros c Hc Hkeep. apply K; auto. unfold kept.
    destruct Hkeep as [-> | Hd]; auto.
    apply set_has_In in Hd. rewrite Hd, andb_false_r. reflexivity.
  - intros c Hc Hnew. destruct (New c Hc) as [Hold | (_ & Hp & Hd)]; [contradiction|].
    unfold is_planning_text in Hp. apply andb_true_iff in Hp. destruct Hp as (Hp & Ht).
    apply parent_is_eq in Hp. apply ChannelType_eqb_eq in Ht. auto.
Qed.

End Frame.

(* ================================================================== *)
(** * Further properties: the correlator only reads *)
(* ================================================================== *)

Lemma hoare_tryCatch {S A} P (body handler : M S A) Q E' E :
  hoare P body Q E' -> hoare E' handler Q E -> hoare P (tryCatch body handler) Q E.
Proof.
  intros Hb Hh g r g' HP H. unfold tryCatch in H.
  destruct (body g) as [[a|] g1] eqn:Hbody.
  - inversion H; subst. exact (Hb g (Ok a) g' HP Hbody).
  - exact (Hh g1 r g' (Hb g Throw g1 HP Hbody) H).
Qed.

Lemma hoare_throw_weaken {S A} P (m : M S A) Q (E E' : S -> Prop) :
  (forall g, E g -> E' g) -> hoare P m Q E -> hoare P m Q E'.
Proof.
  intros HE Hm g r g' HP H. specialize (Hm g r g' HP H).
  destruct r; auto.
Qed.

Lemma reading_refl g : reading g g.
Proof.
  unfold reading. repeat split. exists []. rewrite app_nil_r. auto.
Qed.

Lemma reading_call g0 g g' c ok :
  is_fetch c = true ->
  channels_cache g' = channels_cache g -> next_id g' = next_id g ->
  calls g' = calls g ++ [(c, ok)] ->
  reading g0 g -> reading g0 g'.
Proof.
  intros Hc C N K (C0 & N0 & delta & K0 & F). unfold reading.
  rewrite C, N, K. repeat split; auto.
  exists (delta ++ [(c, ok)]). rewrite K0, app_assoc. split; auto.
  apply Forall_app. split; auto.
Qed.

Section ReadOnly.
Variable toLocaleDateString : Date -> jsstring.
Variable toLowerCase : jsstring -> jsstring.
Variable rejects : list (ApiCall * bool) -> ApiCall -> bool.
Variable accounts : Snowflake -> option User.
Variable config : PlanningConfig.
Variable g0 : Guild.

Local Abbreviation R := (reading g0).
Local Abbreviation G := (gave_up g0).

Lemma reading_logger level msg (E : Guild -> Prop) :
  hoare R (logger level msg) (fun _ : unit => R) E.
Proof.
  intros g r g' HR H. unfold logger, modify in H. inversion H; subst. exact HR.
Qed.

Lemma reading_ret {A} (a : A) (E : Guild -> Prop) : hoare R (ret a) (fun _ => R) E.
Proof. intros g r g' HR H. inversion H; subst. exact HR. Qed.

Lemma reading_page c :
  is_page_fetch c = true -> hoare R (await rejects c) (fun _ => R) G.
Proof.
  intros Hc g r g' HR H. unfold await in H.
  assert (Hf : is_fetch c = true) by (destruct c; simpl in *; congruence).
  destruct (rejects (calls g) c) eqn:Hr; simpl in H; inversion H; subst.
  - split.
    + refine (reading_call g0 g _ c false Hf _ _ _ HR); reflexivity.
    + exists (calls g), c. simpl. auto.
  - refine (reading_call g0 g _ c true Hf _ _ _ HR); reflexivity.
Qed.

Lemma reading_users_fetch i :
  hoare R (users_fetch accounts i) (fun _ => R) R.
Proof.
  intros g r g' HR H. unfold users_fetch in H.
  destruct (accounts i); inversion H; subst.
  - refine (reading_call g0 g _ (UsersFetch i) true eq_refl _ _ _ HR);
      reflexivity.
  - refine (reading_call g0 g _ (UsersFetch i) false eq_refl _ _ _ HR);
      reflexivity.
Qed.

Lemma reading_collect_users (us : list User) :
  forall s, hoare R (collect_users us s) (fun _ => R) G.
Proof.
  induction us as [|u us IH]; intros s; simpl.
  - apply reading_ret.
  - destruct (negb (user_bot u)); [|apply IH].
    eapply hoare_bind with (R := fun _ => R); [apply reading_logger|].
    intros _. apply IH.
Qed.

Lemma reading_scan_slots (messages : list Message) (slots : list jsstring) :
  forall s, hoare R (scan_slots rejects messages slots s) (fun _ => R) G.
Proof.
  induction slots as [|slot slots IH]; intros s; simpl.
  - apply reading_ret.
  - eapply hoare_bind with (R := fun _ => R); [apply reading_logger|].
    intros _. destruct (find _ messages) as [slotMessage|].
    + eapply hoare_bind with (R := fun _ => R); [apply reading_logger|].
      intros _. destruct (find _ (msg_reactions slotMessage)) as [reaction|].
      * eapply hoare_bind with (R := fun _ => R).
        { unfold reaction_users_fetch.
          eapply hoare_bind with (R := fun _ => R);
            [apply reading_page; reflexivity|].
          intros _. apply reading_ret. }
        intros reactedUsers.
        eapply hoare_bind with (R := fun _ => R); [apply reading_logger|].
        intros _.
        eapply hoare_bind with (R := fun _ => R); [apply reading_collect_users|].
        intros s'. apply IH.
      * eapply hoare_bind with (R := fun _ => R); [apply reading_logger|].
        intros _. apply IH.
    + eapply hoare_bind with (R := fun _ => R); [apply reading_logger|].
      intros _. apply IH.
Qed.

Lemma reading_resolve_users (ids : list Snowflake) :
  forall users, hoare R (resolve_users accounts ids users) (fun _ => R) G.
Proof.
  induction ids as [|i ids IH]; intros users; simpl.
  - apply reading_ret.
  - eapply hoare_bind with (R := fun _ => R); [|intros users'; apply IH].
    apply hoare_tryCatch with (E' := R).
    + eapply hoare_bind with (R := fun _ => R); [apply reading_users_fetch|].
      intros u. apply reading_ret.
    + eapply hoare_bind with (R := fun _ => R); [apply reading_logger|].
      intros _. apply reading_ret.
Qed.

Lemma reading_getUsersFromPlanning today dayOfWeek slots :
  hoare R (getUsersFromPlanning toLocaleDateString toLowerCase rejects accounts
                                config today dayOfWeek slots)
        (fun _ => R) G.
Proof.
  unfold getUsersFromPlanning.
  eapply hoare_bind with (R := fun _ => R); [apply reading_logger|].
  intros _.
  eapply hoare_bind with (R := fun _ => R).
  { intros g r g' HR H. inversion H; subst. exact HR. }
  intros cache. destruct (find _ cache) as [planningCategory|].
  2:{ eapply hoare_bind with (R := fun _ => R); [apply reading_logger|].
      intros _. apply reading_ret. }
  destruct (find _ cache) as [planningChannel|].
  2:{ eapply hoare_bind with (R := fun _ => R); [apply reading_logger|].
      intros _. apply reading_ret. }
  eapply hoare_bind with (R := fun _ => R); [apply reading_logger|].
  intros _.
  eapply hoare_bind with (R := fun _ => R).
  { unfold messages_fetch.
    eapply hoare_bind with (R := fun _ => R); [apply reading_page; reflexivity|].
    intros _. apply reading_ret. }
  intros messages.
  eapply hoare_bind with (R := fun _ => R); [apply reading_logger|].
  intros _.
  eapply hoare_bind with (R := fun _ => R); [apply reading_scan_slots|].
  intros usersSet.
  eapply hoare_bind with (R := fun _ => R); [apply reading_logger|].
  intros _. apply reading_resolve_users.
Qed.

(** X3. The correlator only reads.  Whatever its outcome it leaves the
    channels, their messages and reactions as they were, and every call
    it issues is a fetch (messages, reacting users, accounts).  It
    throws only when a fetch of messages or of reacting users is
    rejected, and that rejected fetch is then the last call it issued;
    an account that cannot be fetched never makes it throw. *)
Theorem getUsersFromPlanning_only_reads today dayOfWeek slots :
  let run := getUsersFromPlanning toLocaleDateString toLowerCase rejects
                                  accounts config today dayOfWeek slots g0 in
  channels_cache (snd run) = channels_cache g0
  /\ next_id (snd run) = next_id g0
  /\ (exists delta, calls (snd run) = calls g0 ++ delta
                    /\ Forall (fun x => is_fetch (fst x) = true) delta)
  /\ (fst run = Throw ->
      exists pre c, calls (snd run) = pre ++ [(c, false)]
                    /\ is_page_fetch c = true).
Proof.
  cbv zeta.
  destruct (getUsersFromPlanning _ _ _ _ _ _ _ _ g0) as [r g'] eqn:H.
  cbn [fst snd].
  pose proof (reading_getUsersFromPlanning today dayOfWeek slots g0 r g'
                                           (reading_refl g0) H) as HR.
  destruct r as [users|].
  - destruct HR as (C & N & D). repeat split; auto. discriminate.
  - destruct HR as ((C & N & D) & L). repeat split; auto.
Qed.

End ReadOnly.

(* ================================================================== *)
(** * Further properties: configuration loader and gate service *)
(* ================================================================== *)

Lemma strings_truthy (values : list (option jsstring)) :
  forall n, In n (Config.strings (filter Config.truthy values))
            <-> n <> [] /\ In (Some n) values.
Proof.
  induction values as [|v values IH]; intros n; simpl; [tauto|].
  destruct v as [[|c v]|]; simpl.
  - rewrite IH. split; [tauto|]. intros (Hn & [E | H]); [|tauto].
    inversion E; subst. congruence.
  - rewrite IH. split.
    + intros [<- | (Hn & H)]; [split; [discriminate|auto] | tauto].
    + intros (Hn & [E | H]); [inversion E; auto | auto].
  - rewrite IH. split; [tauto|]. intros (Hn & [E | H]); [discriminate|tauto].
Qed.

Section ConfigLoading.
Import Config.
Variable env : jsstring -> option jsstring.
Variable Number : jsstring -> JsNumber.

Lemma getRequiredEnv_run key :
  (truthy (env key) = true /\ exists v, env key = Some v
                                        /\ getRequiredEnv env key = Value v)
  \/ (truthy (env key) = false /\ getRequiredEnv env key = MissingRequired key).
Proof.
  unfold getRequiredEnv. destruct (env key) as [[|c v]|]; simpl; eauto.
Qed.

(** X4. Loading the configuration fails exactly when one of
    [DISCORD_TOKEN], [DISCORD_CLIENT_ID], [DISCORD_GUILD_ID] is unset or
    empty, and the error names the first of them, in that order, that
    is.  No other variable makes it fail: an unset or non-numeric
    window size, missing Twilio credentials or an empty category name
    are all accepted. *)
Theorem config_fails_on_first_missing_required :
  let required := [lit "DISCORD_TOKEN"; lit "DISCORD_CLIENT_ID";
                   lit "DISCORD_GUILD_ID"] in
  match config env Number with
  | Value c =>
      forall key, In key required -> truthy (env key) = true
  | MissingRequired key =>
      exists before after,
        required = before ++ key :: after
        /\ truthy (env key) = false
        /\ forall k, In k before -> truthy (env k) = true
  end.
Proof.
  cbv zeta. unfold config.
  destruct (getRequiredEnv_run (lit "DISCORD_TOKEN")) as [(T1 & v1 & _ & ->) | (T1 & ->)].
  2:{ exists [], [lit "DISCORD_CLIENT_ID"; lit "DISCORD_GUILD_ID"].
      split; [reflexivity|]. split; [exact T1|]. intros k []. }
  destruct (getRequiredEnv_run (lit "DISCORD_CLIENT_ID")) as [(T2 & v2 & _ & ->) | (T2 & ->)].
  2:{ exists [lit "DISCORD_TOKEN"], [lit "DISCORD_GUILD_ID"].
      split; [reflexivity|]. split; [exact T2|]. intros k [<- | []]. exact T1. }
  destruct (getRequiredEnv_run (lit "DISCORD_GUILD_ID")) as [(T3 & v3 & _ & ->) | (T3 & ->)].
  2:{ exists [lit "DISCORD_TOKEN"; lit "DISCORD_CLIENT_ID"], [].
      split; [reflexivity|]. split; [exact T3|].
      intros k [<- | [<- | []]]; assumption. }
  intros key [<- | [<- | [<- | []]]]; assumption.
Qed.

End ConfigLoading.

Section GateService.
Import Gate.
Variable rejects : list (GateCall * bool) -> GateCall -> bool.
Variable sid : list (GateCall * bool) -> jsstring.
Variable localizedTime : jsstring.
Variable formattedDate : jsstring.

Local Abbreviation open_gate := (handleOpenGate rejects sid localizedTime formattedDate).

Lemma gate_await_run c e r e' :
  gate_await rejects c e = (r, e') ->
  exists ok, gate_calls e' = gate_calls e ++ [(c, ok)]
             /\ gate_log e' = gate_log e
             /\ r = (if ok then Ok tt else Throw)
             /\ ok = negb (rejects (gate_calls e) c).
Proof.
  unfold gate_await. destruct (rejects (gate_calls e) c); simpl;
    intros H; inversion H; subst; simpl; eauto.
Qed.

Lemma notify_run from body (numbers : list jsstring) :
  forall results e r e',
    notify rejects sid from body numbers results e = (r, e') ->
    exists attempts lines,
      r = Ok (results ++ lines)
      /\ gate_calls e' = gate_calls e ++ attempts
      /\ map fst attempts = map (fun n => MessagesCreate n from body) numbers
      /\ Forall2 reports attempts lines
      /\ gate_log e' = gate_log e ++ flat_map failure attempts.
Proof.
  induction numbers as [|number rest IH]; intros results e r e' H.
  - inversion H; subst. exists [], []. rewrite !app_nil_r. repeat split; auto.
  - cbn [notify] in H. unfold bind at 1 in H.
    unfold tryCatch, messages_create, bind, gets, gate_await, gate_logger,
      modify, ret in H.
    destruct (rejects (gate_calls e) (MessagesCreate number from body)) eqn:Hr;
      simpl in H; apply IH in H;
      destruct H as (attempts & lines & -> & C & A & F & L); simpl in C, L.
    + exists ((MessagesCreate number from body, false) :: attempts),
             (EchecEnvoi number :: lines).
      rewrite <- !app_assoc in *. simpl in *.
      split; [reflexivity|]. split; [exact C|]. split; [f_equal; exact A|].
      split; [constructor; [reflexivity|exact F]|exact L].
    + exists ((MessagesCreate number from body, true) :: attempts),
             (MessageEnvoye number (sid (gate_calls e)) :: lines).
      rewrite <- !app_assoc in *. simpl in *.
      split; [reflexivity|]. split; [exact C|]. split; [f_equal; exact A|].
      split; [constructor; [eexists; reflexivity|exact F]|exact L].
Qed.

Lemma handleOpenGate_outcome this interaction twilio cfg e :
  client this = Some twilio -> twilioConfig this = Some cfg ->
  Config.gateNotificationNumbers cfg <> [] ->
  exists delta logs,
    gate_calls (snd (open_gate this interaction e)) = gate_calls e ++ delta
    /\ gate_log (snd (open_gate this interaction e)) = gate_log e ++ logs
    /\ gate_outcome (Config.fromNumber cfg)
                    (mkSmsBody (displayName interaction) localizedTime)
                    (Config.gateNotificationNumbers cfg) formattedDate
                    delta logs (fst (open_gate this interaction e))
    /\ (rejects (gate_calls e) DeferReply = true <-> delta = [(DeferReply, false)]).
Proof.
  intros Hc Hcfg Hn. unfold handleOpenGate. rewrite Hc, Hcfg.
  destruct (Config.gateNotificationNumbers cfg) as [|n0 ns] eqn:En; [congruence|].
  cbn [length Nat.eqb].
  assert (Ename :
    match match member interaction with
          | Some (GuildMember nickname) => nickname
          | _ => None
          end with
    | Some nickname => nickname
    | None => username interaction
    end = displayName interaction).
  { unfold displayName. destruct (member interaction) as [[[n|]|]|]; reflexivity. }
  rewrite Ename.
  destruct (bind _ _ e) as [r e'] eqn:H. cbn [fst snd].
  run_bind H u e1 H1.
  2:{ apply gate_await_run in H1.
      destruct H1 as ([] & C & L & R & Hd); [discriminate|].
      subst r. exists [(DeferReply, false)], []. rewrite app_nil_r.
      split; [exact C|]. split; [exact L|]. split; [apply defer_rejected|].
      apply (f_equal negb) in Hd. rewrite negb_involutive in Hd. simpl in Hd.
      split; auto. }
  apply gate_await_run in H1.
  destruct H1 as ([] & C1 & L1 & R1 & Hd); [|discriminate].
  apply (f_equal negb) in Hd. rewrite negb_involutive in Hd. simpl in Hd.
  assert (Hno : forall x, rejects (gate_calls e) DeferReply = true <->
                          (DeferReply, true) :: x = [(DeferReply, false)]).
  { intros x. rewrite <- Hd. split; discriminate. }
  run_bind H results e2 H2.
  2:{ apply notify_run in H2. destruct H2 as (? & ? & ? & _). discriminate. }
  apply notify_run in H2.
  destruct H2 as (attempts & lines & Er & C2 & A & F & L2).
  simpl in Er. inversion Er; subst results. clear Er.
  run_bind H u' e3 H3.
  - apply gate_await_run in H3.
    destruct H3 as ([] & C3 & L3 & R3 & _); [|discriminate].
    unfold logGateOpening, tryCatch, gate_await, gate_logger, modify in H.
    destruct (rejects (gate_calls e3) _) eqn:Hj; simpl in H; inversion H; subst;
      simpl.
    + exists ((DeferReply, true) :: attempts
              ++ [(EditReply lines, true);
                  (AppendFile PORTAL_LOG_FILE formattedDate
                              (displayName interaction), false)]),
             (flat_map failure attempts ++ [ErrorEcriture]).
      split; [rewrite C3, C2, C1, <- !app_assoc; reflexivity|].
      split; [rewrite L3, L2, L1, <- !app_assoc; reflexivity|].
      split; [|apply Hno].
      apply (@answered (Config.fromNumber cfg)
                      (mkSmsBody (displayName interaction) localizedTime)
                      (n0 :: ns) formattedDate attempts lines false A F).
    + exists ((DeferReply, true) :: attempts
              ++ [(EditReply lines, true);
                  (AppendFile PORTAL_LOG_FILE formattedDate
                              (displayName interaction), true)]),
             (flat_map failure attempts).
      split; [rewrite C3, C2, C1, <- !app_assoc; reflexivity|].
      split; [rewrite L3, L2, L1; reflexivity|].
      pose proof (@answered (Config.fromNumber cfg)
                      (mkSmsBody (displayName interaction) localizedTime)
                      (n0 :: ns) formattedDate attempts lines true A F) as O.
      rewrite app_nil_r in O. split; [exact O|apply Hno].
  - apply gate_await_run in H3.
    destruct H3 as ([] & C3 & L3 & R3 & _); [discriminate|].
    subst r.
    exists ((DeferReply, true) :: attempts ++ [(EditReply lines, false)]),
           (flat_map failure attempts).
    split; [rewrite C3, C2, C1, <- !app_assoc; reflexivity|].
    split; [rewrite L3, L2, L1; reflexivity|].
    split; [apply edit_rejected; auto|apply Hno].
Qed.

Lemma attempts_are_sms from body (numbers : list jsstring)
      (attempts : list (GateCall * bool)) :
  map fst attempts = map (fun n => MessagesCreate n from body) numbers ->
  Forall (fun x => is_sms (fst x) = true) attempts.
Proof.
  revert numbers. induction attempts as [|a attempts IH]; intros [|n ns] H;
    try discriminate; constructor.
  - simpl in H. injection H as H _. rewrite H. reflexivity.
  - simpl in H. injection H as _ H. exact (IH ns H).
Qed.

(** The two ways the service declines, each a single reply. *)
Lemma handleOpenGate_declines this interaction e :
  client this = None \/ twilioConfig this = None
  \/ (exists cfg, twilioConfig this = Some cfg
                  /\ Config.gateNotificationNumbers cfg = []) ->
  exists content,
    open_gate this interaction e = gate_await rejects (Reply content) e
    /\ (content = AucunNumero <-> client this <> None /\ twilioConfig this <> None).
Proof.
  intros H. unfold handleOpenGate.
  destruct (client this) as [cl|] eqn:Hc.
  - destruct (twilioConfig this) as [cfg|] eqn:Hcfg.
    + destruct H as [H | [H | (cfg' & E & Hn)]]; try discriminate.
      inversion E; subst cfg'. rewrite Hn. cbn [length Nat.eqb].
      exists AucunNumero. repeat split; auto; discriminate.
    + exists Indisponible. split; auto. split; [discriminate|].
      intros (_ & F). congruence.
  - exists Indisponible. split; auto. split; [discriminate|].
    intros (F & _). congruence.
Qed.

(** X5. A gate request the service cannot serve is answered by one
    reply and nothing else: without a Twilio client the reply says the
    feature is unavailable, with a client but no number to notify it
    says that no number is configured; no text message is attempted, no
    line is written to the journal, nothing is logged, and the handler
    throws exactly when that reply is rejected. *)
Theorem handleOpenGate_unavailable this interaction e :
  client this = None \/ twilioConfig this = None
  \/ (exists cfg, twilioConfig this = Some cfg
                  /\ Config.gateNotificationNumbers cfg = []) ->
  exists content ok,
    gate_calls (snd (open_gate this interaction e))
    = gate_calls e ++ [(Reply content, ok)]
    /\ (content = AucunNumero <-> client this <> None /\ twilioConfig this <> None)
    /\ gate_log (snd (open_gate this interaction e)) = gate_log e
    /\ fst (open_gate this interaction e) = if ok then Ok tt else Throw.
Proof.
  intros H.
  destruct (handleOpenGate_declines this interaction e H) as (content & E & Hc).
  rewrite E. exists content.
  destruct (gate_await rejects (Reply content) e) as [r e'] eqn:A.
  apply gate_await_run in A. destruct A as (ok & C & L & R & _).
  exists ok. cbn [fst snd]. auto.
Qed.

(** X6. Once the deferred reply is accepted, the service tries every
    configured number, once and in order, whatever happens to the
    others: a rejected text message is logged and does not stop the
    loop.  The reply is then edited to one line per number, in the same
    order, each telling the outcome of its attempt; every message is
    sent from the configured sender and is signed with the name the
    event router displays for the member. *)
Theorem handleOpenGate_notifies_every_number this interaction twilio cfg e :
  client this = Some twilio -> twilioConfig this = Some cfg ->
  Config.gateNotificationNumbers cfg <> [] ->
  rejects (gate_calls e) DeferReply = false ->
  exists attempts lines ok rest,
    new_gate_calls e (snd (open_gate this interaction e))
    = (DeferReply, true) :: attempts ++ (EditReply lines, ok) :: rest
    /\ map fst attempts
       = map (fun n => MessagesCreate n (Config.fromNumber cfg)
                         (mkSmsBody (displayName interaction) localizedTime))
             (Config.gateNotificationNumbers cfg)
    /\ Forall2 reports attempts lines
    /\ Forall (fun x => is_sms (fst x) = false) rest
    /\ gate_log (snd (open_gate this interaction e))
       = gate_log e ++ flat_map failure attempts
         ++ (if existsb (fun x => is_journal (fst x) && negb (snd x)) rest
             then [ErrorEcriture] else []).
Proof.
  intros Hc Hcfg Hn Hd.
  destruct (handleOpenGate_outcome this interaction twilio cfg e Hc Hcfg Hn)
    as (delta & logs & C & L & O & D).
  unfold new_gate_calls. rewrite C, skipn_length_app, L.
  inversion O as [E1 E2 E3 | attempts lines A F E1 E2 E3
                  | attempts lines written A F E1 E2 E3]; subst delta logs.
  - exfalso. destruct D as (_ & D). rewrite (D eq_refl) in Hd. discriminate.
  - exists attempts, lines, false, []. rewrite app_nil_r. repeat split; auto.
  - exists attempts, lines, true,
           [(AppendFile PORTAL_LOG_FILE formattedDate (displayName interaction),
             written)].
    repeat split; auto.
    simpl. destruct written; reflexivity.
Qed.


End GateService.

Section GateFromEnv.
Import Gate.
Variable env : jsstring -> option jsstring.
Variable rejects : list (GateCall * bool) -> GateCall -> bool.
Variable sid : list (GateCall * bool) -> jsstring.
Variable localizedTime : jsstring.
Variable formattedDate : jsstring.

Lemma buildTwilioConfig_some cfg :
  Config.buildTwilioConfig env = Some cfg ->
  Config.truthy (env (lit "TWILIO_ACCOUNT_SID")) = true
  /\ Config.truthy (env (lit "TWILIO_AUTH_TOKEN")) = true
  /\ env (lit "TWILIO_PHONE_NUMBER") = Some (Config.fromNumber cfg)
  /\ Config.fromNumber cfg <> []
  /\ Config.gateNotificationNumbers cfg = Config.collectGateNumbers env.
Proof.
  unfold Config.buildTwilioConfig.
  destruct (env (lit "TWILIO_ACCOUNT_SID")) as [[|c1 a]|]; simpl; try discriminate.
  destruct (env (lit "TWILIO_AUTH_TOKEN")) as [[|c2 t]|]; simpl; try discriminate.
  destruct (env (lit "TWILIO_PHONE_NUMBER")) as [[|c3 f]|]; simpl; try discriminate.
  intros H. inversion H; subst; simpl. repeat split; auto. discriminate.
Qed.

Lemma buildTwilioConfig_none :
  Config.buildTwilioConfig env = None <->
  Config.truthy (env (lit "TWILIO_ACCOUNT_SID")) = false
  \/ Config.truthy (env (lit "TWILIO_AUTH_TOKEN")) = false
  \/ Config.truthy (env (lit "TWILIO_PHONE_NUMBER")) = false.
Proof.
  unfold Config.buildTwilioConfig.
  destruct (env (lit "TWILIO_ACCOUNT_SID")) as [[|c1 a]|]; simpl; auto;
  destruct (env (lit "TWILIO_AUTH_TOKEN")) as [[|c2 t]|]; simpl; auto;
  destruct (env (lit "TWILIO_PHONE_NUMBER")) as [[|c3 f]|]; simpl; auto;
    try tauto.
  split; [discriminate|]. intros [H | [H | H]]; discriminate.
Qed.


End GateFromEnv.

(* ================================================================== *)
(** * Further properties: the planning manager as a whole *)
(* ================================================================== *)

Lemma find_app {A} (p : A -> bool) (l l' : list A) :
  find p (l ++ l') = match find p l with
                     | Some x => Some x
                     | None => find p l'
                     end.
Proof.
  induction l as [|x l IH]; simpl; auto. destruct (p x); auto.
Qed.

Lemma find_filter_sub {A} (p q : A -> bool) (l : list A) :
  (forall x, p x = true -> q x = true) -> find p (filter q l) = find p l.
Proof.
  intros H. induction l as [|x l IH]; simpl; auto.
  destruct (q x) eqn:Q; simpl.
  - destruct (p x); auto.
  - destruct (p x) eqn:P; auto. rewrite (H x P) in Q. discriminate.
Qed.

Lemma stop_length (task : nat) (tasks : list bool) :
  length (stop task tasks) = length tasks.
Proof.
  revert task. induction tasks as [|t tasks IH]; intros [|task]; simpl; auto.
Qed.

Lemma stop_nth (task : nat) (tasks : list bool) (i : nat) :
  nth_error (stop task tasks) i = Some true ->
  i <> task /\ nth_error tasks i = Some true.
Proof.
  revert task i. induction tasks as [|t tasks IH]; intros [|task] [|i]; simpl;
    try discriminate; auto.
  intros H. destruct (IH _ _ H). auto.
Qed.

Lemma category_is_not_planning_text (category c : Channel) :
  ChannelType_eqb (ch_type c) GuildCategory = true ->
  is_planning_text category c = false.
Proof.
  intros H. apply ChannelType_eqb_eq in H. unfold is_planning_text.
  rewrite H. simpl. apply andb_false_r.
Qed.

Section PlannerProperties.
Import Planner.
Variable toLocaleDateString : Date -> jsstring.
Variable toLowerCase : jsstring -> jsstring.
Variable rejects : list (ApiCall * bool) -> ApiCall -> bool.
Variable unreachable : list bool -> bool.
Variable clientUser : User.
Variable config : PlanningConfig.

Local Abbreviation sync_pass today category :=
  (syncPlanning toLocaleDateString toLowerCase rejects clientUser config
                today category).
Local Abbreviation desired today :=
  (map name (fst (planningWindow toLocaleDateString toLowerCase config today))).

Lemma lift_run {A} (m : M Guild A) this r this' :
  lift m this = (r, this') ->
  m (guild this) = (r, guild this')
  /\ this' = mkManager (guild this') (guilds_fetched this) (categoryId this)
                       (maintenanceTask this) (cron_tasks this)
                       (planner_log this).
Proof.
  unfold lift. destruct (m (guild this)) as [r0 g']. intros H.
  inversion H; subst. simpl. auto.
Qed.

Lemma fetchGuild_run this r this' :
  fetchGuild unreachable this = (r, this') ->
  guild this' = guild this /\ categoryId this' = categoryId this
  /\ maintenanceTask this' = maintenanceTask this
  /\ cron_tasks this' = cron_tasks this
  /\ planner_log this' = planner_log this.
Proof.
  unfold fetchGuild. destruct (unreachable _); simpl; intros H;
    inversion H; subst; simpl; auto.
Qed.

(** The two ways [ensureCategory] returns, and the way it throws. *)
Lemma ensureCategory_run this r this' :
  ensureCategory rejects config this = (r, this') ->
  categoryId this' = categoryId this
  /\ maintenanceTask this' = maintenanceTask this
  /\ cron_tasks this' = cron_tasks this
  /\ guilds_fetched this' = guilds_fetched this
  /\ ((exists existing,
         find (is_planning_category config) (channels_cache (guild this))
         = Some existing
         /\ r = Ok existing /\ this' = this)
      \/ (find (is_planning_category config) (channels_cache (guild this)) = None
          /\ exists ok,
              calls (guild this')
              = calls (guild this)
                ++ [(ChannelsCreate (categoryName config) GuildCategory None, ok)]
              /\ if ok
                 then r = Ok (mkChannel (next_id (guild this))
                                        (categoryName config) None GuildCategory [])
                      /\ channels_cache (guild this')
                         = channels_cache (guild this)
                           ++ [mkChannel (next_id (guild this))
                                         (categoryName config) None
                                         GuildCategory []]
                      /\ next_id (guild this') = (next_id (guild this) + 1)%N
                      /\ planner_log this'
                         = planner_log this
                           ++ [(length (log (guild this)), Info,
                                CategorieCreee (categoryName config))]
                 else r = Throw
                      /\ channels_cache (guild this')
                         = channels_cache (guild this)
                      /\ next_id (guild this') = next_id (guild this)
                      /\ planner_log this' = planner_log this)).
Proof.
  unfold ensureCategory. unfold bind at 1. unfold lift at 1, gets. cbn [fst snd].
  change (fun channel : Channel =>
            ChannelType_eqb (ch_type channel) GuildCategory
            && eqb (ch_name channel) (categoryName config))
    with (is_planning_category config).
  destruct this as [g gf cid mt ct pl]. cbn [guild guilds_fetched categoryId
    maintenanceTask cron_tasks planner_log].
  destruct (find (is_planning_category config) (channels_cache g)) as [existing|].
  - intros H. inversion H; subst. simpl. repeat split; auto.
    left. exists existing. auto.
  - unfold bind, lift, channels_create, bind, await, fresh_id, set_cache,
      planner_logger, modify, ret. simpl.
    destruct (rejects (calls g) _); simpl; intros H; inversion H; subst; simpl;
      repeat split; auto; right; (split; [reflexivity|]).
    + exists false. simpl. auto.
    + exists true. simpl. auto.
Qed.

Lemma is_planning_category_spec c :
  is_planning_category config c = true <->
  ch_type c = GuildCategory /\ ch_name c = categoryName config.
Proof.
  unfold is_planning_category. rewrite andb_true_iff, ChannelType_eqb_eq, eqb_eq.
  tauto.
Qed.

(** The category [ensureCategory] hands back is then the first of the
    cache. *)
Lemma ensureCategory_found this category this1 :
  ensureCategory rejects config this = (Ok category, this1) ->
  find (is_planning_category config) (channels_cache (guild this1))
  = Some category
  /\ calls (guild this1)
     = calls (guild this)
       ++ (if existsb (is_planning_category config)
                      (channels_cache (guild this))
           then []
           else [(ChannelsCreate (categoryName config) GuildCategory None,
                  true)]).
Proof.
  intros H. apply ensureCategory_run in H.
  destruct H as (_ & _ & _ & _ & [(existing & F & E & ->) | (F & ok & C & O)]).
  - inversion E; subst. split; auto.
    destruct (existsb _ _) eqn:X; [rewrite app_nil_r; auto|].
    exfalso. apply find_some in F. destruct F as (Hin & Hp).
    assert (X' : existsb (is_planning_category config)
                         (channels_cache (guild this)) = true)
      by (apply existsb_exists; eauto).
    congruence.
  - destruct ok; destruct O as (E & Cache & _); [|discriminate].
    inversion E; subst. rewrite Cache, find_app, F. simpl.
    unfold is_planning_category at 1. simpl. rewrite eqb_refl. simpl.
    split; auto. rewrite C.
    destruct (existsb _ _) eqn:X; auto.
    exfalso. apply existsb_exists in X. destruct X as (x & Hx & Hp).
    pose proof (proj1 (find_none_iff _ _) F x Hx). congruence.
Qed.

(** X9. [ensureCategory] reuses before it creates.  When it returns, the
    category it hands back is in the cache, is a category channel of the
    configured name, and is the first such channel of the cache; it
    issued no call at all when such a channel existed, and one creation
    otherwise; and asking again returns the same category without any
    further call or log line. *)
Theorem ensureCategory_reuses this category this1 :
  ensureCategory rejects config this = (Ok category, this1) ->
  find (is_planning_category config) (channels_cache (guild this1))
  = Some category
  /\ In category (channels_cache (guild this1))
  /\ ch_type category = GuildCategory
  /\ ch_name category = categoryName config
  /\ (calls (guild this1)
      = calls (guild this)
        ++ (if existsb (is_planning_category config)
                       (channels_cache (guild this))
            then []
            else [(ChannelsCreate (categoryName config) GuildCategory None,
                   true)]))
  /\ ensureCategory rejects config this1 = (Ok category, this1).
Proof.
  intros H. destruct (ensureCategory_found _ _ _ H) as (F & C).
pose proof (find_some _ _ F) as (Hin & Hp).
  apply is_planning_category_spec in Hp. destruct Hp as (Ht & Hn).
  repeat split; auto.
  unfold ensureCategory. unfold bind at 1. unfold lift at 1, gets. cbn [fst snd].
  change (fun channel : Channel =>
            ChannelType_eqb (ch_type channel) GuildCategory
            && eqb (ch_name channel) (categoryName config))
    with (is_planning_category config).
  rewrite F. destruct this1; reflexivity.
Qed.

Lemma ensureCategory_wf this r this' :
  ensureCategory rejects config this = (r, this') ->
  wf_guild (guild this) -> wf_guild (guild this').
Proof.
  intros H (ND & Hlt). apply ensureCategory_run in H.
  destruct H as (_ & _ & _ & _ & [(existing & F & E & ->) | (F & ok & C & O)]);
    [split; auto|].
  destruct ok.
  - destruct O as (_ & Cache & N & _). unfold wf_guild. rewrite Cache, N. split.
    + rewrite map_app. simpl. apply NoDup_app; auto.
      * repeat constructor. simpl. tauto.
      * intros a Ha [<- | []]. apply in_map_iff in Ha.
        destruct Ha as (c & E & Hc). specialize (Hlt c Hc). lia.
    + intros c Hc. apply in_app_iff in Hc. destruct Hc as [Hc | [<- | []]].
      * specialize (Hlt c Hc). lia.
      * simpl. lia.
  - destruct O as (_ & Cache & N & _). unfold wf_guild. rewrite Cache, N. auto.
Qed.

(** *** The schedule *)

Local Abbreviation scheduled T K :=
  (fun this : Manager => cron_tasks this = T /\ maintenanceTask this = K).

Lemma scheduled_fetchGuild T K :
  hoare (scheduled T K) (fetchGuild unreachable) (fun _ => scheduled T K)
        (scheduled T K).
Proof.
  intros this r this' (HT & HK) H. apply fetchGuild_run in H.
  destruct H as (_ & _ & M & C & _). rewrite M, C. destruct r; auto.
Qed.

Lemma scheduled_ensureCategory T K :
  hoare (scheduled T K) (ensureCategory rejects config)
        (fun _ => scheduled T K) (scheduled T K).
Proof.
  intros this r this' (HT & HK) H. apply ensureCategory_run in H.
  destruct H as (_ & M & C & _). rewrite M, C. destruct r; auto.
Qed.

Lemma scheduled_lift {A} (m : M Guild A) T K :
  hoare (scheduled T K) (lift m) (fun _ => scheduled T K) (scheduled T K).
Proof.
  intros this r this' (HT & HK) H. apply lift_run in H.
  destruct H as (_ & ->). simpl. destruct r; auto.
Qed.

Lemma scheduled_set_categoryId id T K :
  hoare (scheduled T K) (set_categoryId id) (fun _ => scheduled T K)
        (scheduled T K).
Proof.
  intros this r this' (HT & HK) H. unfold set_categoryId, modify in H.
  inversion H; subst. simpl. auto.
Qed.

Lemma scheduled_syncPlanningCommand today T K :
  hoare (scheduled T K)
        (syncPlanningCommand toLocaleDateString toLowerCase rejects unreachable
                             clientUser config today)
        (fun _ => scheduled T K) (scheduled T K).
Proof.
  unfold syncPlanningCommand.
  eapply hoare_bind with (R := fun _ => scheduled T K);
    [apply scheduled_fetchGuild|]. intros _.
  eapply hoare_bind with (R := fun _ => scheduled T K);
    [apply scheduled_ensureCategory|]. intros category.
  eapply hoare_bind with (R := fun _ => scheduled T K);
    [apply scheduled_set_categoryId|]. intros _.
  apply scheduled_lift.
Qed.

Lemma scheduleMaintenance_run this :
  scheduleMaintenance this
  = (Ok tt,
     mkManager (guild this) (guilds_fetched this) (categoryId this)
               (Some (length (cron_tasks this)))
               (match maintenanceTask this with
                | Some task => stop task (cron_tasks this)
                | None => cron_tasks this
                end ++ [true])
               (planner_log this)).
Proof.
  unfold scheduleMaintenance, bind, get, modify, ret.
  destruct (maintenanceTask this); simpl; auto. rewrite stop_length. reflexivity.
Qed.

Lemma tracked_after_schedule (tasks : list bool) (held : option nat) :
  (forall task, nth_error tasks task = Some true -> held = Some task) ->
  forall task,
    nth_error (match held with
               | Some t => stop t tasks
               | None => tasks
               end ++ [true]) task = Some true ->
    task = length tasks.
Proof.
  intros Htr task H.
  assert (Hlen : length (match held with
                         | Some t => stop t tasks
                         | None => tasks
                         end) = length tasks)
    by (destruct held; [apply stop_length|reflexivity]).
  destruct (Nat.lt_ge_cases task (length tasks)) as [Hlt | Hge].
  - exfalso. rewrite nth_error_app1 in H by lia. destruct held as [t|].
    + apply stop_nth in H. destruct H as (Hne & H). apply Htr in H. congruence.
    + apply Htr in H. discriminate.
  - rewrite nth_error_app2 in H by lia. rewrite Hlen in H.
    destruct (task - length tasks) as [|[|k]] eqn:E; simpl in H;
      try discriminate. lia.
Qed.

(** X10. [initialize] schedules the maintenance only once the first
    pass went through: when it throws (guild unreachable, category not
    created, or reconcile pass stopped on a rejected call) no task is
    scheduled and the task held, if any, is neither stopped nor let go.
    When it returns, the task held before is stopped and a new running
    task is held.  In both cases every running task is the one the
    manager holds: however often [initialize] runs, at most one
    maintenance task is running. *)
Theorem initialize_schedules_after_first_pass today this :
  let run := initialize toLocaleDateString toLowerCase rejects unreachable
                        clientUser config today this in
  match fst run with
  | Throw =>
      cron_tasks (snd run) = cron_tasks this
      /\ maintenanceTask (snd run) = maintenanceTask this
  | Ok _ =>
      cron_tasks (snd run)
      = match maintenanceTask this with
        | Some task => stop task (cron_tasks this)
        | None => cron_tasks this
        end ++ [true]
      /\ maintenanceTask (snd run) = Some (length (cron_tasks this))
  end
  /\ (tracked this -> tracked (snd run)).
Proof.
  cbv zeta.
  assert (H : hoare (scheduled (cron_tasks this) (maintenanceTask this))
                (initialize toLocaleDateString toLowerCase rejects unreachable
                            clientUser config today)
                (fun _ s =>
                   cron_tasks s
                   = match maintenanceTask this with
                     | Some task => stop task (cron_tasks this)
                     | None => cron_tasks this
                     end ++ [true]
                   /\ maintenanceTask s = Some (length (cron_tasks this)))
                (scheduled (cron_tasks this) (maintenanceTask this))).
  { unfold initialize.
    eapply hoare_bind
      with (R := fun _ => scheduled (cron_tasks this) (maintenanceTask this));
      [apply scheduled_fetchGuild|]. intros _.
    eapply hoare_bind
      with (R := fun _ => scheduled (cron_tasks this) (maintenanceTask this));
      [apply scheduled_ensureCategory|]. intros category.
    eapply hoare_bind
      with (R := fun _ => scheduled (cron_tasks this) (maintenanceTask this));
      [apply scheduled_set_categoryId|]. intros _.
    eapply hoare_bind
      with (R := fun _ => scheduled (cron_tasks this) (maintenanceTask this));
      [apply scheduled_lift|]. intros _.
    intros s r s' (HT & HK) Hs. rewrite scheduleMaintenance_run in Hs.
    inversion Hs; subst. simpl. rewrite HT, HK. auto. }
  destruct (initialize _ _ _ _ _ _ _ this) as [r this'] eqn:Hrun.
  specialize (H this r this' (conj eq_refl eq_refl) Hrun). cbn [fst snd].
  split; [destruct r; exact H|].
  intros Htr task Htask. destruct r as [u|].
  - destruct H as (HT & HK). rewrite HT in Htask. rewrite HK. f_equal.
    symmetry. exact (tracked_after_schedule _ _ Htr task Htask).
  - destruct H as (HT & HK). rewrite HT in Htask. rewrite HK. auto.
Qed.

(** A manual pass, step by step. *)
Lemma syncPlanningCommand_run today this r this' :
  syncPlanningCommand toLocaleDateString toLowerCase rejects unreachable
                      clientUser config today this = (r, this') ->
  (r = Throw /\ guild this' = guild this
   /\ planner_log this' = planner_log this)
  \/ exists this0 this1 rc,
      guild this0 = guild this /\ planner_log this0 = planner_log this
      /\ ensureCategory rejects config this0 = (rc, this1)
      /\ match rc with
         | Throw => r = Throw /\ this' = this1
         | Ok category =>
             sync_pass today category (guild this1) = (r, guild this')
             /\ categoryId this' = Some (ch_id category)
             /\ planner_log this' = planner_log this1
         end.
Proof.
  unfold syncPlanningCommand. intros H. run_bind H u this0 H0.
  2:{ left. apply fetchGuild_run in H0. subst r. tauto. }
  right. apply fetchGuild_run in H0. destruct H0 as (G0 & _ & _ & _ & L0).
  run_bind H category this1 H1.
  2:{ exists this0, this', Throw. subst r. auto. }
  exists this0, this1, (Ok category). split; auto. split; auto. split; auto.
  unfold bind at 1, set_categoryId at 1, modify in H.
  apply lift_run in H. simpl in H. destruct H as (H & ->). simpl. auto.
Qed.

Lemma syncPlanningCommand_wf today this r this' :
  syncPlanningCommand toLocaleDateString toLowerCase rejects unreachable
                      clientUser config today this = (r, this') ->
  wf_guild (guild this) -> wf_guild (guild this').
Proof.
  intros H W. apply syncPlanningCommand_run in H.
  destruct H as [(_ & -> & _) | (this0 & this1 & rc & G0 & _ & He & H)]; auto.
  rewrite <- G0 in W. pose proof (ensureCategory_wf _ _ _ He W) as W1.
  destruct rc as [category|].
  - destruct H as (H & _).
    pose proof (syncPlanning_reconciling toLocaleDateString toLowerCase rejects
                  clientUser config today category (guild this1) W1) as J.
    rewrite H in J. exact (proj1 J).
  - destruct H as (_ & ->). exact W1.
Qed.

(** X11. A maintenance run is contained: the callback handed to the
    scheduler never throws, whatever call is rejected; a pass that
    failed is logged as one error line and nothing is logged for one
    that went through; the schedule is left as it is, so a failed run
    does not stop the next ones; and the guild stays well formed. *)
Theorem maintenance_is_contained today this :
  let run := maintenance toLocaleDateString toLowerCase rejects unreachable
                         clientUser config today this in
  let pass := syncPlanningCommand toLocaleDateString toLowerCase rejects
                                  unreachable clientUser config today this in
  fst run = Ok tt
  /\ cron_tasks (snd run) = cron_tasks this
  /\ maintenanceTask (snd run) = maintenanceTask this
  /\ planner_log (snd run)
     = planner_log (snd pass)
       ++ match fst pass with
          | Ok _ => []
          | Throw => [(length (log (guild (snd pass))), Error,
                       ErreurSynchronisationPlanifiee)]
          end
  /\ (wf_guild (guild this) -> wf_guild (guild (snd run))).
Proof.
  cbv zeta. unfold maintenance, tryCatch.
  change (bind (fetchGuild unreachable) _)
    with (syncPlanningCommand toLocaleDateString toLowerCase rejects unreachable
                              clientUser config today).
  pose proof (scheduled_syncPlanningCommand today (cron_tasks this)
                                            (maintenanceTask this)) as H.
  destruct (syncPlanningCommand _ _ _ _ _ _ _ this) as [r this'] eqn:Hrun.
  specialize (H this r this' (conj eq_refl eq_refl) Hrun).
  pose proof (syncPlanningCommand_wf _ _ _ _ Hrun) as W.
  destruct r as [[]|]; cbn [fst snd].
  - destruct H as (HT & HK). rewrite app_nil_r. auto.
  - destruct H as (HT & HK). unfold planner_logger, modify. simpl. auto.
Qed.

(** What a completed pass leaves in a guild whose first category of the
    configured name is [category]. *)
Lemma sync_pass_keeps_category today category g g' :
  wf_guild g ->
  find (is_planning_category config) (channels_cache g) = Some category ->
  sync_pass today category g = (Ok tt, g') ->
  find (is_planning_category config) (channels_cache g') = Some category
  /\ forall n, In n (planning_names category (channels_cache g'))
               <-> In n (desired today).
Proof.
  intros W F H. split.
  - pose proof (syncPlanning_reconciling toLocaleDateString toLowerCase rejects
                  clientUser config today category g W) as J.
    rewrite H in J. destruct J as (_ & _ & _ & _ & O). cbn [snd] in O.
    assert (Hsub : forall x, is_planning_category config x = true ->
                             negb (is_planning_text category x) = true).
    { intros x Hx. unfold is_planning_category in Hx.
      apply andb_true_iff in Hx. destruct Hx as (Hx & _).
      rewrite (category_is_not_planning_text category x Hx). reflexivity. }
    rewrite <- (find_filter_sub _ _ (channels_cache g') Hsub), O,
      (find_filter_sub _ _ (channels_cache g) Hsub). exact F.
  - exact (syncPlanning_converges_aux toLocaleDateString toLowerCase rejects
             clientUser config today category g g' (proj1 W) H).
Qed.

(** Where a manual pass that completes ends. *)
Lemma syncPlanningCommand_ends today this this' :
  wf_guild (guild this) ->
  syncPlanningCommand toLocaleDateString toLowerCase rejects unreachable
                      clientUser config today this = (Ok tt, this') ->
  exists category,
    categoryId this' = Some (ch_id category)
    /\ find (is_planning_category config) (channels_cache (guild this'))
       = Some category
    /\ (forall n, In n (planning_names category (channels_cache (guild this')))
                  <-> In n (desired today)).
Proof.
  intros W H. apply syncPlanningCommand_run in H.
  destruct H as [(E & _) | (this0 & this1 & rc & G0 & _ & He & H)];
    [discriminate|].
  destruct rc as [category|]; [|destruct H; discriminate].
  destruct H as (H & Hid & _). rewrite <- G0 in W.
  pose proof (ensureCategory_wf _ _ _ He W) as W1.
  destruct (ensureCategory_found _ _ _ He) as (F & _).
  destruct (sync_pass_keeps_category today category _ _ W1 F H) as (F' & Names).
  exists category. auto.
Qed.

(** X12. A manual pass that completes, end to end: the manager then
    holds the identifier of the first category channel of the configured
    name, which is in the cache, and the text channels under that
    category are named exactly by the desired slugs of the window. *)
Theorem syncPlanningCommand_converges today this this' :
  wf_guild (guild this) ->
  syncPlanningCommand toLocaleDateString toLowerCase rejects unreachable
                      clientUser config today this = (Ok tt, this') ->
  exists category,
    categoryId this' = Some (ch_id category)
    /\ find (is_planning_category config) (channels_cache (guild this'))
       = Some category
    /\ ch_type category = GuildCategory
    /\ ch_name category = categoryName config
    /\ (forall n, In n (planning_names category (channels_cache (guild this')))
                  <-> exists i : Z,
                        (0 <= i)%Z /\ (inject_Z i < daysAhead config)%Q
                        /\ n = name (window_entry toLocaleDateString toLowerCase
                                                  today i))
    /\ wf_guild (guild this').
Proof.
  intros W H. pose proof (syncPlanningCommand_wf _ _ _ _ H W) as W'.
  destruct (syncPlanningCommand_ends today this this' W H)
    as (category & Hid & F & Names).
  pose proof (find_some _ _ F) as (_ & Hp).
  apply is_planning_category_spec in Hp. destruct Hp as (Ht & Hn).
  exists category. do 4 (split; [assumption|]). split; [|exact W'].
  intros n. rewrite Names.
  apply (desired_names_spec toLocaleDateString toLowerCase config today).
Qed.

End PlannerProperties.

(* ================================================================== *)
(** * Further properties: the reminder service *)
(* ================================================================== *)

Lemma reading_grows g0 g : reading g0 g -> exists delta, calls g = calls g0 ++ delta.
Proof. intros (_ & _ & delta & C & _). eauto. Qed.

Lemma join_mentions_nonempty (u : User) (users : list User) :
  join (lit " ") (map Reminder.mention (u :: users)) <> [].
Proof.
  simpl. destruct (map Reminder.mention users); unfold Reminder.mention;
    simpl; discriminate.
Qed.

Section ReminderProperties.
Import Reminder.
Variable toLocaleDateString : Date -> jsstring.
Variable toLowerCase : jsstring -> jsstring.
Variable rejects : list (ApiCall * bool) -> ApiCall -> bool.
Variable unreachable : list bool -> bool.
Variable accounts : Snowflake -> option User.
Variable clientUser : User.
Variable config : PlanningConfig.
Variable channelName : jsstring.

Local Abbreviation correlate today dayOfWeek slots :=
  (getUsersFromPlanning toLocaleDateString toLowerCase rejects accounts config
                        today dayOfWeek slots).
Local Abbreviation send_reminder :=
  (sendReminder toLocaleDateString toLowerCase rejects unreachable accounts
                config).

(** *** The correlator after a reconcile pass *)

Lemma first_call_grows {A} (m : M Guild A) g0 c :
  (forall g1, hoare (reading g1) m (fun _ => reading g1) (gave_up g1)) ->
  hoare (first_call g0 c) m (fun _ => first_call g0 c) (first_call g0 c).
Proof using Type.
  intros Hm g r g' (ok & rest & C) H.
  specialize (Hm g g r g' (reading_refl g) H).
  assert (HR : reading g g') by (destruct r; [exact Hm | exact (proj1 Hm)]).
  apply reading_grows in HR. destruct HR as (delta & C').
  assert (first_call g0 c g').
  { exists ok, (rest ++ delta). rewrite C', C, <- app_assoc. reflexivity. }
  destruct r; auto.
Qed.

Lemma first_call_logger g0 c level msg :
  hoare (first_call g0 c) (logger level msg) (fun _ => first_call g0 c)
        (first_call g0 c).
Proof using Type.
  intros g r g' HF H. unfold logger, modify in H. inversion H; subst. exact HF.
Qed.

Lemma correlator_reads_channel today dayOfWeek slots g category ch :
  find (is_planning_category config) (channels_cache g) = Some category ->
  find (fun channel =>
          parent_is channel (ch_id category)
          && ChannelType_eqb (ch_type channel) GuildText
          && eqb (ch_name channel)
                 (reminderChannelName toLocaleDateString toLowerCase today))
       (channels_cache g) = Some ch ->
  first_call g (MessagesFetch (ch_id ch) 100)
             (snd (correlate today dayOfWeek slots g)).
Proof using Type.
  intros F1 F2.
  assert (H : hoare (fun s => s = g) (correlate today dayOfWeek slots)
                    (fun _ => first_call g (MessagesFetch (ch_id ch) 100))
                    (first_call g (MessagesFetch (ch_id ch) 100))).
  { unfold getUsersFromPlanning.
    eapply hoare_bind with (R := fun _ s => calls s = calls g
                                            /\ channels_cache s = channels_cache g).
    { intros s r s' -> H. unfold logger, modify in H. inversion H; subst.
      simpl. auto. }
    intros _.
    eapply hoare_bind with (R := fun cache s => calls s = calls g
                                            /\ cache = channels_cache g).
    { intros s r s' (C & Ca) H. inversion H; subst. auto. }
    intros cache.
    intros s r s' (C & Ec). subst cache. revert s r s' C.
    unfold is_planning_category in F1. rewrite F1, F2.
    refine (hoare_bind (fun s => calls s = calls g) _ _
                       (fun _ s => calls s = calls g) _ _ _ _).
    { intros s r s' C H. unfold logger, modify in H. inversion H; subst.
      simpl. auto. }
    intros _.
    eapply hoare_bind
      with (R := fun _ => first_call g (MessagesFetch (ch_id ch) 100)).
    { intros s r s' C H. unfold messages_fetch, bind, await, ret in H.
      destruct (rejects (calls s) _); simpl in H; inversion H; subst; simpl;
        rewrite C; eexists; exists []; reflexivity. }
    intros messages.
    eapply hoare_bind
      with (R := fun _ => first_call g (MessagesFetch (ch_id ch) 100));
      [apply first_call_logger|]. intros _.
    eapply hoare_bind
      with (R := fun _ => first_call g (MessagesFetch (ch_id ch) 100)).
    { apply first_call_grows. intros g1. apply reading_scan_slots. }
    intros usersSet.
    eapply hoare_bind
      with (R := fun _ => first_call g (MessagesFetch (ch_id ch) 100));
      [apply first_call_logger|]. intros _.
    apply first_call_grows. intros g1. apply reading_resolve_users. }
  destruct (correlate today dayOfWeek slots g) as [r g'] eqn:Hrun.
  specialize (H g r g' eq_refl Hrun). destruct r; exact H.
Qed.

(** X13. The reconciler and the correlator agree on the channel of the
    day.  After a manual pass that completed with a window of at least
    one day, the correlator run for the same day finds the planning
    category and, under it, the text channel of that day: the first
    call it issues fetches the messages of that channel. *)
Theorem correlator_finds_today_after_sync today dayOfWeek slots this this' :
  wf_guild (Planner.guild this) ->
  (0 < daysAhead config)%Q ->
  Planner.syncPlanningCommand toLocaleDateString toLowerCase rejects unreachable
                              clientUser config today this = (Ok tt, this') ->
  exists category ch,
    Planner.categoryId this' = Some (ch_id category)
    /\ In ch (channels_cache (Planner.guild this'))
    /\ ch_parentId ch = Some (ch_id category)
    /\ ch_type ch = GuildText
    /\ ch_name ch = reminderChannelName toLocaleDateString toLowerCase today
    /\ first_call (Planner.guild this') (MessagesFetch (ch_id ch) 100)
                  (snd (correlate today dayOfWeek slots (Planner.guild this'))).
Proof using Type.
  intros W Hpos H.
  destruct (syncPlanningCommand_ends toLocaleDateString toLowerCase rejects
              unreachable clientUser config today this this' W H)
    as (category & Hid & F & Names).
  exists category.
  set (today_name := reminderChannelName toLocaleDateString toLowerCase today).
  assert (Hname : In today_name
                     (planning_names category
                                     (channels_cache (Planner.guild this')))).
  { apply Names.
    apply (desired_names_spec toLocaleDateString toLowerCase config today).
    exists 0%Z. split; [lia|]. split; [exact Hpos|].
    unfold today_name, reminderChannelName, window_entry. simpl.
    rewrite Z.add_0_r. reflexivity. }
  destruct (find (fun channel =>
                    parent_is channel (ch_id category)
                    && ChannelType_eqb (ch_type channel) GuildText
                    && eqb (ch_name channel) today_name)
                 (channels_cache (Planner.guild this'))) as [ch|] eqn:F2.
  - exists ch. pose proof (find_some _ _ F2) as (Hin & Hp).
    apply andb_true_iff in Hp. destruct Hp as (Hp & Hn).
    apply andb_true_iff in Hp. destruct Hp as (Hp & Ht).
    apply parent_is_eq in Hp. apply ChannelType_eqb_eq in Ht. apply eqb_eq in Hn.
    repeat split; auto.
    exact (correlator_reads_channel today dayOfWeek slots _ category ch F F2).
  - exfalso. apply planning_names_In in Hname.
    destruct Hname as (c & Hc & Hp & Hn).
    pose proof (proj1 (find_none_iff _ _) F2 c Hc) as Hno.
    cbv beta in Hno. unfold is_planning_text in Hp.
    rewrite Hp, Hn, eqb_refl in Hno. discriminate.
Qed.

(** *** Sending a reminder *)

Lemma reminder_lift_run {A} (m : M Guild A) this r this' :
  lift m this = (r, this') ->
  m (guild this) = (r, guild this')
  /\ this' = mkService (guild this') (guilds_fetched this) (channelId this)
                       (reminderTasks this) (cron_tasks this)
                       (reminder_log this).
Proof using Type.
  unfold lift. destruct (m (guild this)) as [r0 g']. intros H.
  inversion H; subst. simpl. auto.
Qed.

Lemma message_is_reminder_message ty (users : list User) :
  match (if (0 <? length users)%nat
         then join (lit " ") (map mention users)
         else []) with
  | _ :: _ => reminderText ty ++ [10; 10]%N
              ++ (if (0 <? length users)%nat
                  then join (lit " ") (map mention users)
                  else [])
  | [] => reminderText ty
  end = reminder_message ty users.
Proof using Type.
  unfold reminder_message. destruct users as [|u users].
  - simpl. rewrite app_nil_r. reflexivity.
  - cbn [length Nat.ltb Nat.leb].
    pose proof (join_mentions_nonempty u users) as Hne.
    destruct (join (lit " ") (map mention (u :: users))); [congruence|].
    reflexivity.
Qed.

(** The runs of [sendReminder]. *)
Lemma sendReminder_run today reminderConfig this r this' :
  send_reminder today reminderConfig this = (r, this') ->
  channelId this' = channelId this
  /\ reminderTasks this' = reminderTasks this
  /\ cron_tasks this' = cron_tasks this
  /\ match channelId this with
     | None =>
         r = Ok tt /\ guild this' = guild this
         /\ guilds_fetched this' = guilds_fetched this
         /\ reminder_log this'
            = reminder_log this
              ++ [(length (log (guild this)), Error, ChannelNonInitialise)]
     | Some id =>
         exists reached,
           guilds_fetched this' = guilds_fetched this ++ [reached]
           /\ if reached
              then
                match find (fun channel => (ch_id channel =? id)%N)
                           (channels_cache (guild this)) with
                | None =>
                    r = Ok tt /\ guild this' = guild this
                    /\ reminder_log this'
                       = reminder_log this
                         ++ [(length (log (guild this)), Error,
                              ChannelRappelsIntrouvable id)]
                | Some channel =>
                    exists ru g1,
                      correlate today (Z.of_N (dayOfWeek reminderConfig))
                                (reminder_timeSlots reminderConfig) (guild this)
                      = (ru, g1)
                      /\ match ru with
                         | Throw =>
                             r = Throw /\ guild this' = g1
                             /\ reminder_log this' = reminder_log this
                         | Ok users =>
                             exists rs,
                               channel_send rejects channel
                                 (TextBody (reminder_message
                                              (type reminderConfig) users)) g1
                               = (rs, guild this')
                               /\ match rs with
                                  | Throw =>
                                      r = Throw
                                      /\ reminder_log this' = reminder_log this
                                  | Ok _ =>
                                      r = Ok tt
                                      /\ reminder_log this'
                                         = reminder_log this
                                           ++ [(length (log (guild this')), Info,
                                                RappelEnvoye
                                                  (match type reminderConfig with
                                                   | noir => lit "noire"
                                                   | jaune => lit "jaune"
                                                   end)
                                                  (length users))]
                                  end
                         end
                end
              else r = Throw /\ guild this' = guild this
                   /\ reminder_log this' = reminder_log this
     end.
Proof using Type.
  unfold sendReminder. unfold bind at 1, get at 1.
  destruct this as [g gf cid rt ct rl]. cbn [channelId guild guilds_fetched
    reminderTasks cron_tasks reminder_log].
  destruct cid as [id|].
  2:{ unfold reminder_logger, modify. intros H. inversion H; subst. simpl.
      repeat split; auto. }
  unfold bind at 1, fetchGuild at 1. cbn [guilds_fetched guild].
  destruct (unreachable gf); cbn [negb].
  { intros H. inversion H; subst. simpl. repeat split; auto.
    exists false. auto. }
  unfold bind at 1, lift at 1, gets. cbn [guild fst snd].
  destruct (find (fun channel => (ch_id channel =? id)%N) (channels_cache g))
    as [channel|] eqn:F.
  2:{ unfold reminder_logger, modify. intros H. inversion H; subst. simpl.
      repeat split; auto. exists true. auto. }
  unfold bind at 1, lift at 1. cbn [guild guilds_fetched channelId reminderTasks
    cron_tasks reminder_log].
  destruct (correlate today (Z.of_N (dayOfWeek reminderConfig))
                      (reminder_timeSlots reminderConfig) g) as [ru g1] eqn:Hcor.
  destruct ru as [users|].
  2:{ intros H. inversion H; subst. simpl. repeat split; auto.
      exists true. split; [reflexivity|].
      exists Throw, g1. split; [reflexivity|]. auto. }
  rewrite message_is_reminder_message.
  unfold bind at 1, lift at 1. cbn [guild guilds_fetched channelId reminderTasks
    cron_tasks reminder_log].
  destruct (channel_send rejects channel _ g1) as [rs g2] eqn:Hsend.
  destruct rs as [msg|].
  2:{ intros H. inversion H; subst. simpl. repeat split; auto.
      exists true. split; [reflexivity|].
      exists (Ok users), g1. split; [reflexivity|].
      exists Throw. split; [exact Hsend|]. auto. }
  unfold reminder_logger, modify. intros H. inversion H; subst. simpl.
  repeat split; auto. exists true. split; [reflexivity|].
  exists (Ok users), g1. split; [reflexivity|].
  exists (Ok msg). split; [exact Hsend|]. auto.
Qed.

Lemma channel_send_call ch body g r g' :
  channel_send rejects ch body g = (r, g') ->
  exists ok, calls g' = calls g ++ [(ChannelSend (ch_id ch) body, ok)]
             /\ (ok = true <-> exists m, r = Ok m).
Proof using Type.
  unfold channel_send, bind, await, fresh_id, set_cache, modify, ret.
  destruct (rejects (calls g) _); simpl; intros H; inversion H; subst; simpl.
  - exists false. split; auto. split; [discriminate|]. intros (m & E). discriminate.
  - exists true. split; auto. split; eauto.
Qed.

(** X14. Without its channel the reminder sends nothing.  When the
    service holds no channel identifier it logs an error and returns
    without contacting the platform at all, not even to fetch the guild;
    when the channel it holds is no longer in the cache, the guild fetch
    is the only thing it does before logging the error.  In both cases
    the guild is left as it was and the planning is not read. *)
Theorem sendReminder_needs_its_channel today reminderConfig this :
  channelId this = None
  \/ (exists id, channelId this = Some id
                 /\ forall c, In c (channels_cache (guild this)) -> ch_id c <> id) ->
  let run := sendReminder toLocaleDateString toLowerCase rejects unreachable
                          accounts config today reminderConfig this in
  guild (snd run) = guild this
  /\ (channelId this = None ->
      fst run = Ok tt /\ guilds_fetched (snd run) = guilds_fetched this)
  /\ (fst run = Ok tt ->
      exists line,
        reminder_log (snd run)
        = reminder_log this ++ [(length (log (guild this)), Error, line)]
        /\ line = match channelId this with
                  | None => ChannelNonInitialise
                  | Some id => ChannelRappelsIntrouvable id
                  end).
Proof using Type.
  intros Hc. cbv zeta.
  destruct (send_reminder today reminderConfig this) as [r this'] eqn:H.
  cbn [fst snd]. apply sendReminder_run in H. destruct H as (_ & _ & _ & H).
  destruct Hc as [Hc | (id & Hc & Hno)]; rewrite Hc in *.
  - destruct H as (-> & G & F & L). repeat split; auto.
    intros _. eexists. split; [exact L|reflexivity].
  - destruct H as (reached & F & H).
    assert (Hfind : find (fun channel => (ch_id channel =? id)%N)
                         (channels_cache (guild this)) = None).
    { apply find_none_iff. intros c Hin. apply N.eqb_neq. auto. }
    rewrite Hfind in H. destruct reached.
    + destruct H as (-> & G & L). repeat split; auto; try discriminate.
      intros _. eexists. split; [exact L|reflexivity].
    + destruct H as (-> & G & L). repeat split; auto; discriminate.
Qed.

(** X15. What a reminder says and to whom.  When [sendReminder]
    returns and its channel is in the cache, the calls it issued are
    the fetches of the correlator followed by exactly one message, sent
    to the reminder channel: the text of the reminder, followed, when
    the correlator returned users, by an empty line and one mention per
    user, in the correlator's order, separated by spaces.  The message
    is sent also when nobody is registered. *)
Theorem sendReminder_mentions_registered_users today reminderConfig this this'
        id channel :
  channelId this = Some id ->
  find (fun c => (ch_id c =? id)%N) (channels_cache (guild this)) = Some channel ->
  send_reminder today reminderConfig this = (Ok tt, this') ->
  exists users g1 fetches,
    correlate today (Z.of_N (dayOfWeek reminderConfig))
              (reminder_timeSlots reminderConfig) (guild this) = (Ok users, g1)
    /\ calls g1 = calls (guild this) ++ fetches
    /\ Forall (fun x => is_fetch (fst x) = true) fetches
    /\ calls (guild this')
       = calls g1
         ++ [(ChannelSend id
                (TextBody (reminder_message (type reminderConfig) users)), true)]
    /\ channels_cache (guild this')
       = map (with_message id
                (cons (mkMessage (next_id (guild this))
                         (TextBody (reminder_message (type reminderConfig) users))
                         [])))
             (channels_cache (guild this)).
Proof using Type.
  intros Hc F H. apply sendReminder_run in H. destruct H as (_ & _ & _ & H).
  rewrite Hc in H. destruct H as (reached & _ & H).
  destruct reached; [|destruct H; discriminate]. rewrite F in H.
  destruct H as (ru & g1 & Hcor & H).
  destruct ru as [users|]; [|destruct H; discriminate].
  destruct H as (rs & Hsend & H).
  destruct rs as [msg|]; [|destruct H; discriminate].
  pose proof (reading_getUsersFromPlanning toLocaleDateString toLowerCase rejects
                accounts config (guild this) today
                (Z.of_N (dayOfWeek reminderConfig))
                (reminder_timeSlots reminderConfig) (guild this) (Ok users) g1
                (reading_refl _) Hcor) as (Cache & Next & fetches & Cf & Ff).
  pose proof (find_some _ _ F) as (_ & Hid). apply N.eqb_eq in Hid.
  exists users, g1, fetches. split; auto. split; auto. split; auto.
  unfold channel_send, bind, await, fresh_id, set_cache, modify, ret in Hsend.
  destruct (rejects (calls g1) _); simpl in Hsend; [discriminate|].
  inversion Hsend as [[Hm Hg]]. simpl. rewrite Hid, Cache, Next. auto.
Qed.

(** X16. A reminder run is contained.  The callback handed to the
    scheduler never throws; it leaves the schedule and the channel held
    as they are; the calls it issues are fetches followed by at most one
    message, which goes to the channel the service holds; and a failure
    (guild unreachable, page of messages or of reacting users not
    fetched, message rejected) is logged as one error line. *)
Theorem reminder_is_contained today reminderConfig this :
  let run := reminder toLocaleDateString toLowerCase rejects unreachable
                      accounts config today reminderConfig this in
  let sent := send_reminder today reminderConfig this in
  fst run = Ok tt
  /\ channelId (snd run) = channelId this
  /\ reminderTasks (snd run) = reminderTasks this
  /\ cron_tasks (snd run) = cron_tasks this
  /\ reminder_calls (channelId this)
                    (new_calls (guild this) (guild (snd run)))
  /\ reminder_log (snd run)
     = reminder_log (snd sent)
       ++ match fst sent with
          | Ok _ => []
          | Throw => [(length (log (guild (snd sent))), Error,
                       ErreurEnvoiRappel (type reminderConfig))]
          end.
Proof using Type.
  cbv zeta. unfold reminder, tryCatch.
  destruct (send_reminder today reminderConfig this) as [r this'] eqn:H.
  assert (Hrun : channelId this' = channelId this
                 /\ reminderTasks this' = reminderTasks this
                 /\ cron_tasks this' = cron_tasks this
                 /\ reminder_calls (channelId this)
                                   (new_calls (guild this) (guild this'))).
  { apply sendReminder_run in H. destruct H as (Hc & Ht & Hk & H).
    split; auto. split; auto. split; auto. unfold new_calls.
    assert (Hnone : forall g, g = guild this ->
                              reminder_calls (channelId this)
                                (skipn (length (calls (guild this))) (calls g))).
    { intros g ->. rewrite <- (app_nil_r (calls (guild this))) at 2.
      rewrite skipn_length_app. exists [], []. auto. }
    destruct (channelId this) as [id|]; [|apply Hnone; exact (proj1 (proj2 H))].
    destruct H as (reached & _ & H).
    destruct reached; [|apply Hnone; exact (proj1 (proj2 H))].
    destruct (find _ _) as [channel|] eqn:F;
      [|apply Hnone; exact (proj1 (proj2 H))].
    destruct H as (ru & g1 & Hcor & H).
    pose proof (reading_getUsersFromPlanning toLocaleDateString toLowerCase
                  rejects accounts config (guild this) today
                  (Z.of_N (dayOfWeek reminderConfig))
                  (reminder_timeSlots reminderConfig) (guild this) ru g1
                  (reading_refl _) Hcor) as HR.
    assert (HR' : reading (guild this) g1)
      by (destruct ru; [exact HR | exact (proj1 HR)]).
    destruct HR' as (_ & _ & fetches & Cf & Ff).
    pose proof (find_some _ _ F) as (_ & Hid). apply N.eqb_eq in Hid.
    destruct ru as [users|].
    - destruct H as (rs & Hsend & H). apply channel_send_call in Hsend.
      destruct Hsend as (ok & Cs & _). rewrite Cs, Cf, <- app_assoc,
        skipn_length_app.
      exists fetches, [(ChannelSend (ch_id channel)
                          (TextBody (reminder_message (type reminderConfig) users)),
                        ok)].
      split; auto. split; auto. right. rewrite Hid. eauto.
    - destruct H as (_ & -> & _). rewrite Cf, skipn_length_app.
      exists fetches, []. rewrite app_nil_r. auto. }
  destruct Hrun as (Hc & Ht & Hk & Hcalls).
  destruct r as [[]|]; cbn [fst snd].
  - rewrite app_nil_r. repeat (split; [assumption || reflexivity|]). reflexivity.
  - unfold reminder_logger, modify. simpl.
    repeat (split; [assumption || reflexivity|]). reflexivity.
Qed.

(** *** Starting the service *)

Lemma reminder_fetchGuild_run this r this' :
  fetchGuild unreachable this = (r, this') ->
  guild this' = guild this /\ channelId this' = channelId this
  /\ reminderTasks this' = reminderTasks this
  /\ cron_tasks this' = cron_tasks this.
Proof using Type.
  unfold fetchGuild. destruct (unreachable _); simpl; intros H;
    inversion H; subst; simpl; auto.
Qed.

Lemma ensureChannel_run this channel this' :
  ensureChannel rejects channelName this = (Ok channel, this') ->
  reminderTasks this' = reminderTasks this
  /\ cron_tasks this' = cron_tasks this
  /\ In channel (channels_cache (guild this'))
  /\ ch_type channel = GuildText
  /\ ch_name channel = channelName
  /\ (wf_guild (guild this) -> wf_guild (guild this')).
Proof using Type.
  unfold ensureChannel. unfold bind at 1. unfold lift at 1, gets. cbn [fst snd].
  destruct this as [g gf cid rt ct rl]. cbn [guild guilds_fetched channelId
    reminderTasks cron_tasks reminder_log].
  destruct (find _ (channels_cache g)) as [existing|] eqn:F.
  - intros H. inversion H; subst. simpl. apply find_some in F.
    destruct F as (Hin & Hp). apply andb_true_iff in Hp. destruct Hp as (Ht & Hn).
    apply ChannelType_eqb_eq in Ht. apply eqb_eq in Hn.
    do 5 (split; [assumption || reflexivity|]). auto.
  - unfold bind, lift, channels_create, bind, await, fresh_id, set_cache,
      reminder_logger, modify, ret. simpl.
    destruct (rejects (calls g) _); simpl; intros H; inversion H; subst; simpl.
    split; auto. split; auto. split; [apply in_app_iff; right; left; reflexivity|].
    split; auto. split; auto.
    intros (ND & Hlt). unfold wf_guild. simpl. split.
    + rewrite map_app. simpl. apply NoDup_app; auto.
      * repeat constructor. intros [].
      * intros a Ha [<- | []]. apply in_map_iff in Ha.
        destruct Ha as (c & E & Hc). specialize (Hlt c Hc). lia.
    + intros c Hc. apply in_app_iff in Hc. destruct Hc as [Hc | [<- | []]].
      * specialize (Hlt c Hc). lia.
      * simpl. lia.
Qed.

Lemma stop_task_length (task : nat) (tasks : list (jsstring * bool)) :
  length (stop_task task tasks) = length tasks.
Proof using Type.
  revert task. induction tasks as [|[e b] tasks IH]; intros [|task]; simpl; auto.
Qed.

Lemma stop_task_nth (task : nat) (tasks : list (jsstring * bool)) i e :
  nth_error (stop_task task tasks) i = Some (e, true) ->
  i <> task /\ nth_error tasks i = Some (e, true).
Proof using Type.
  revert task i. induction tasks as [|[e0 b] tasks IH]; intros [|task] [|i]; simpl;
    try discriminate; auto.
  intros H. destruct (IH _ _ H). auto.
Qed.

Lemma stop_all_nth (stopped : list nat) :
  forall (tasks : list (jsstring * bool)) i e,
    nth_error (fold_left (fun ts t => stop_task t ts) stopped tasks) i
    = Some (e, true) ->
    ~ In i stopped /\ nth_error tasks i = Some (e, true).
Proof using Type.
  induction stopped as [|t stopped IH]; intros tasks i e H; simpl in *; auto.
  apply IH in H. destruct H as (Hnot & H). apply stop_task_nth in H.
  destruct H as (Hne & H). split; auto. intros [E | Hin]; auto.
Qed.

Lemma stop_all_length (stopped : list nat) :
  forall tasks : list (jsstring * bool),
    length (fold_left (fun ts t => stop_task t ts) stopped tasks) = length tasks.
Proof using Type.
  induction stopped as [|t stopped IH]; intros tasks; simpl; auto.
  rewrite IH. apply stop_task_length.
Qed.

Lemma stop_all_run (stopped : list nat) :
  forall this,
    forEach stopped (fun task =>
      modify (fun this =>
        mkService (guild this) (guilds_fetched this) (channelId this)
                  (reminderTasks this) (stop_task task (cron_tasks this))
                  (reminder_log this))) this
    = (Ok tt,
       mkService (guild this) (guilds_fetched this) (channelId this)
                 (reminderTasks this)
                 (fold_left (fun ts t => stop_task t ts) stopped (cron_tasks this))
                 (reminder_log this)).
Proof using Type.
  induction stopped as [|t stopped IH]; intros this; simpl.
  - destruct this; reflexivity.
  - unfold bind, modify. rewrite IH. reflexivity.
Qed.

Lemma scheduleReminders_run this :
  exists logs,
    scheduleReminders this
    = (Ok tt,
       mkService (guild this) (guilds_fetched this) (channelId this)
                 [length (cron_tasks this); S (length (cron_tasks this))]
                 (fold_left (fun ts t => stop_task t ts) (reminderTasks this)
                            (cron_tasks this)
                    ++ [(lit "0 20 * * 3", true); (lit "0 20 * * 4", true)])
                 (reminder_log this ++ logs)).
Proof using Type.
  assert (E3 : cronExpression (mkReminderConfig noir 3 20 relevantTimeSlots)
               = lit "0 20 * * 3") by (vm_compute; reflexivity).
  assert (E4 : cronExpression (mkReminderConfig jaune 4 20 relevantTimeSlots)
               = lit "0 20 * * 4") by (vm_compute; reflexivity).
  unfold scheduleReminders. unfold bind at 1, get at 1. unfold bind at 1.
  rewrite stop_all_run. unfold reminderConfigs. cbn [forEach]. rewrite E3, E4.
  unfold bind, modify, reminder_logger, modify, ret.
  cbn [guild guilds_fetched channelId reminderTasks cron_tasks reminder_log app].
  rewrite !length_app, !stop_all_length. cbn [length].
  rewrite <- !app_assoc. cbn [app].
  replace (length (cron_tasks this) + 1) with (S (length (cron_tasks this))) by lia.
  eexists. reflexivity.
Qed.

(** X17. Starting the reminder service.  When [initialize] returns,
    the service holds the identifier of a text channel of the configured
    name that is in the cache, so that a reminder will find its channel;
    the tasks it held before are stopped, and it holds two running
    tasks, "0 20 * * 3" and "0 20 * * 4"; every running task is one it
    holds, however often [initialize] ran before. *)
Theorem reminder_initialize_holds_channel_and_tasks this this' :
  wf_guild (guild this) ->
  initialize rejects unreachable channelName this = (Ok tt, this') ->
  (exists channel,
      channelId this' = Some (ch_id channel)
      /\ find (fun c => (ch_id c =? ch_id channel)%N)
              (channels_cache (guild this')) = Some channel
      /\ ch_type channel = GuildText
      /\ ch_name channel = channelName)
  /\ reminderTasks this'
     = [length (cron_tasks this); S (length (cron_tasks this))]
  /\ nth_error (cron_tasks this') (length (cron_tasks this))
     = Some (lit "0 20 * * 3", true)
  /\ nth_error (cron_tasks this') (S (length (cron_tasks this)))
     = Some (lit "0 20 * * 4", true)
  /\ (held this -> held this').
Proof using Type.
  intros W H. unfold initialize in H.
  run_bind H u this0 H0; [|discriminate].
  apply reminder_fetchGuild_run in H0. destruct H0 as (G0 & _ & T0 & K0).
  run_bind H channel this1 H1; [|discriminate].
  rewrite <- G0 in W. apply ensureChannel_run in H1.
  destruct H1 as (T1 & K1 & Hin & Hty & Hnm & W1). specialize (W1 W).
  unfold bind at 1, set_channelId at 1, modify in H.
  match type of H with
  | bind _ _ ?s = _ => destruct (scheduleReminders_run s) as (logs & Hs)
  end.
  unfold bind at 1 in H. rewrite Hs in H. unfold reminder_logger, modify in H.
  inversion H; subst this'.
  cbn [guild guilds_fetched channelId reminderTasks cron_tasks reminder_log].
  clear H Hs. rewrite K1, K0, T1, T0.
  assert (Hlen : length (fold_left (fun ts t => stop_task t ts)
                                   (reminderTasks this) (cron_tasks this))
                 = length (cron_tasks this)) by apply stop_all_length.
  split; [|split; [reflexivity|split; [|split]]].
  - exists channel. split; [reflexivity|]. split; [|auto].
    destruct (find (fun c => (ch_id c =? ch_id channel)%N)
                   (channels_cache (guild this1))) as [c|] eqn:F.
    + apply find_some in F. destruct F as (Hc & E). apply N.eqb_eq in E.
      f_equal. exact (NoDup_ids_unique _ c channel (proj1 W1) Hc Hin E).
    + exfalso. pose proof (proj1 (find_none_iff _ _) F channel Hin) as Hno.
      simpl in Hno. rewrite N.eqb_refl in Hno. discriminate.
  - rewrite nth_error_app2 by lia. rewrite Hlen, Nat.sub_diag. reflexivity.
  - rewrite nth_error_app2 by lia. rewrite Hlen.
    replace (S (length (cron_tasks this)) - length (cron_tasks this)) with 1 by lia.
    reflexivity.
  - intros Hheld task e Ht. cbn [cron_tasks reminderTasks] in Ht |- *.
    destruct (Nat.lt_ge_cases task (length (cron_tasks this))) as [Hlt | Hge].
    + exfalso. rewrite nth_error_app1 in Ht by lia.
      apply stop_all_nth in Ht. destruct Ht as (Hnot & Ht).
      exact (Hnot (Hheld _ _ Ht)).
    + rewrite nth_error_app2 in Ht by lia. rewrite Hlen in Ht.
      destruct (task - length (cron_tasks this)) as [|[|k]] eqn:E; simpl in Ht.
      * left. lia.
      * right. left. lia.
      * destruct k; discriminate.
Qed.

End ReminderProperties.

(* ================================================================== *)
(** * Further properties: publishing the status, routing the events *)
(* ================================================================== *)

Section Publishing.
Import Status.
Variable images : GymStatus -> jsstring.
Variable rejects : list (StatusCall * bool) -> StatusCall -> bool.

(** X18. [publishStatus] replaces the tracked message.  It tries to
    delete the tracked message, if any, and whatever comes of that it
    sends the current rendering to the channel, once.  When the send is
    fulfilled the new message is returned and tracked; when it is
    rejected the method throws and keeps tracking the old message, also
    when that message was just deleted.  A deletion that fails is logged
    as a warning and nothing else; the status and the last actor are
    not touched. *)
Theorem publishStatus_replaces_tracked_message channel (m : Manager) :
  let run := publishStatus images rejects channel m in
  let removal :=
    match statusMessage m with
    | Some old => [(MessageDelete (sm_id old),
                    negb (rejects (status_calls m) (MessageDelete (sm_id old))))]
    | None => []
    end in
  status (snd run) = status m
  /\ lastActionBy (snd run) = lastActionBy m
  /\ status_log (snd run)
     = status_log m
       ++ map (fun _ => WarnSuppressionImpossible)
              (filter (fun x => negb (snd x)) removal)
  /\ exists sent,
      new_status_calls m (snd run)
      = removal ++ [(Send channel (render images m), sent)]
      /\ if sent
         then fst run = Ok (mkStatusMessage (status_next_id m) channel GuildText)
              /\ statusMessage (snd run)
                 = Some (mkStatusMessage (status_next_id m) channel GuildText)
         else fst run = Throw /\ statusMessage (snd run) = statusMessage m.
Proof.
  cbv zeta. unfold publishStatus, new_status_calls.
  destruct m as [st la sm cs lg nx]. simpl.
  unfold send, set_statusMessage, status_logger, bind, tryCatch, status_await,
    get, modify, ret. simpl.
  destruct sm as [old|]; simpl.
  - destruct (rejects cs (MessageDelete (sm_id old))) eqn:D; simpl;
      unfold render, buildEmbed, buildActionRow; simpl;
      match goal with
      | |- context [rejects ?h ?c] => destruct (rejects h c) eqn:S
      end; simpl;
      rewrite <- ?app_assoc, ?skipn_length_app; simpl;
      (split; [reflexivity|]); (split; [reflexivity|]);
      (split; [first [reflexivity | symmetry; apply app_nil_r]|]);
      eexists; (split; [reflexivity|]); simpl; auto.
  - unfold render, buildEmbed, buildActionRow; simpl;
      match goal with
      | |- context [rejects ?h ?c] => destruct (rejects h c) eqn:S
      end; simpl;
      rewrite ?skipn_length_app; simpl;
      (split; [reflexivity|]); (split; [reflexivity|]);
      (split; [symmetry; apply app_nil_r|]);
      eexists; (split; [reflexivity|]); simpl; auto.
Qed.

End Publishing.

Lemma keeps_ret {S A X} (f : S -> X) (a : A) : keeps f (ret a).
Proof. intros s r s' H. inversion H; reflexivity. Qed.

Lemma keeps_throw {S A X} (f : S -> X) : keeps f (@throw S A).
Proof. intros s r s' H. inversion H; reflexivity. Qed.

Lemma keeps_get {S X} (f : S -> X) : keeps f (@get S).
Proof. intros s r s' H. inversion H; reflexivity. Qed.

Lemma keeps_bind {S A B X} (f : S -> X) (m : M S A) (k : A -> M S B) :
  keeps f m -> (forall a, keeps f (k a)) -> keeps f (bind m k).
Proof.
  intros Hm Hk s r s' H. run_bind H a s1 H1.
  - rewrite (Hk a _ _ _ H). exact (Hm _ _ _ H1).
  - exact (Hm _ _ _ H1).
Qed.

Lemma keeps_tryCatch {S A X} (f : S -> X) (body handler : M S A) :
  keeps f body -> keeps f handler -> keeps f (tryCatch body handler).
Proof.
  intros Hb Hh s r s' H. unfold tryCatch in H.
  destruct (body s) as [[a|] s1] eqn:B.
  - inversion H; subst. exact (Hb _ _ _ B).
  - rewrite (Hh _ _ _ H). exact (Hb _ _ _ B).
Qed.

Section Routing.
Import Router.
Variable images : Status.GymStatus -> jsstring.
Variable status_rejects : list (Status.StatusCall * bool) -> Status.StatusCall -> bool.
Variable toLocaleDateString : Date -> jsstring.
Variable toLowerCase : jsstring -> jsstring.
Variable rejects : list (ApiCall * bool) -> ApiCall -> bool.
Variable unreachable : list bool -> bool.
Variable clientUser : User.
Variable config : PlanningConfig.
Variable today : Date.
Variable gate_rejects : list (Gate.GateCall * bool) -> Gate.GateCall -> bool.
Variable sid : list (Gate.GateCall * bool) -> jsstring.
Variable localizedTime : jsstring.
Variable gate_formattedDate : jsstring.
Variable rules_config : Rules.RulesConfig.
Variable rules_rejects : list (Rules.RulesCall * bool) -> Rules.RulesCall -> bool.
Variable rules_formattedDate : jsstring.
Variable interaction_rejects
  : list (InteractionCall * bool) -> InteractionCall -> bool.

Local Abbreviation update_status :=
  (updateGymStatus images status_rejects interaction_rejects).
Local Abbreviation update_status_dist :=
  (updateGymStatus_dist images status_rejects interaction_rejects).

(** X19. A status button, in the source.  With no status message
    published the handler only replies that there is none and leaves the
    manager as it is.  Otherwise it records the new status and the
    actor, tries once to edit the tracked message with the new rendering
    and, whether or not that edit went through, confirms the update to
    the user by one reply (never a follow-up, the interaction being
    fresh); it throws exactly when that reply is rejected. *)
Theorem updateGymStatus_confirms_once status actor ctx :
  fresh ctx ->
  let run := update_status status actor ctx in
  let m := statusManager ctx in
  match Status.statusMessage m with
  | None =>
      statusManager (snd run) = m
      /\ exists ok,
          new_interaction_calls ctx (snd run) = [(Reply AucunMessageDeStatut, ok)]
          /\ fst run = if ok then Ok tt else Throw
  | Some current =>
      Status.status (statusManager (snd run)) = status
      /\ Status.lastActionBy (statusManager (snd run)) = Some actor
      /\ Status.statusMessage (statusManager (snd run)) = Some current
      /\ (exists edited,
             new_status_calls m (statusManager (snd run))
             = [(Status.MessageEdit (Status.sm_id current)
                   (Status.render images
                      (Status.mkManager status (Some actor) (Some current)
                         (Status.status_calls m) (Status.status_log m)
                         (Status.status_next_id m))),
                 edited)])
      /\ exists ok,
          new_interaction_calls ctx (snd run)
          = [(Reply (StatutMisAJour status), ok)]
          /\ fst run = if ok then Ok tt else Throw
  end.
Proof using Type.
  intros (Hr & Hd). cbv zeta. unfold new_interaction_calls, new_status_calls.
  destruct (update_status status actor ctx) as [r ctx'] eqn:H.
  cbn [fst snd]. unfold updateGymStatus in H.
  destruct ctx as [m pm gs ge re rp df ic rl]. simpl in Hr, Hd. subst rp df.
  destruct m as [st la sm cs lg nx]. unfold hasStatusMessage in H.
  cbn [interaction_calls statusManager Status.statusMessage Status.status_calls
       Status.status_log Status.status_next_id].
  simpl in H. destruct sm as [current|]; simpl in H.
  - unfold liftStatus, Status.updateStatus, Status.refreshStatusMessage,
      Status.status_await, Status.status_logger, reply, interaction_await,
      set_replied, bind, tryCatch, get, modify, throw in H. simpl in H.
    destruct (status_rejects cs _); simpl in H;
      destruct (interaction_rejects ic _); simpl in H;
      inversion H; subst; simpl;
      rewrite ?skipn_length_app;
      repeat split; eauto.
  - unfold reply, interaction_await, set_replied, bind, get, modify, throw in H.
    simpl in H.
    destruct (interaction_rejects ic _); simpl in H; inversion H; subst; simpl;
      rewrite ?skipn_length_app; split; eauto.
Qed.


(** *** The commands *)

Local Abbreviation status_command :=
  (handleGymStatusCommand images status_rejects interaction_rejects).
Local Abbreviation chat_input :=
  (handleChatInputInteraction images status_rejects toLocaleDateString
     toLowerCase rejects unreachable clientUser config today
     interaction_rejects).

(** [deferReply(); work; editReply(content)] on a fresh interaction, for
    a [work] that does not answer the interaction itself. *)
Lemma deferred_work {A} (work : M Context A) content ctx r ctx' :
  fresh ctx ->
  (forall c rw c', work c = (rw, c') ->
                   replied c' = replied c /\ deferred c' = deferred c
                   /\ interaction_calls c' = interaction_calls c) ->
  bind (deferReply interaction_rejects)
       (fun _ => bind work (fun _ => editReply interaction_rejects content)) ctx
  = (r, ctx') ->
  if interaction_rejects (interaction_calls ctx) DeferReply
  then r = Throw
       /\ ctx' = mkContext (statusManager ctx) (planningManager ctx)
                           (gateService ctx) (gate_env ctx) (rules_env ctx)
                           (replied ctx) (deferred ctx)
                           (interaction_calls ctx ++ [(DeferReply, false)])
                           (router_log ctx)
  else
    exists rw c1,
      work (mkContext (statusManager ctx) (planningManager ctx)
                      (gateService ctx) (gate_env ctx) (rules_env ctx)
                      false true
                      (interaction_calls ctx ++ [(DeferReply, true)])
                      (router_log ctx)) = (rw, c1)
      /\ match rw with
         | Throw => r = Throw /\ ctx' = c1
         | Ok _ =>
             exists ok,
               interaction_calls ctx'
               = interaction_calls ctx
                 ++ [(DeferReply, true); (EditReply content, ok)]
               /\ r = (if ok then Ok tt else Throw)
               /\ statusManager ctx' = statusManager c1
               /\ planningManager ctx' = planningManager c1
               /\ gate_env ctx' = gate_env c1
               /\ rules_env ctx' = rules_env c1
               /\ router_log ctx' = router_log c1
         end.
Proof using Type.
  intros (Hr & Hd) Hw H.
  destruct ctx as [m pm gs ge re rp df ic rl]. simpl in Hr, Hd. subst rp df.
  cbn [interaction_calls statusManager planningManager gateService gate_env
       rules_env replied deferred router_log].
  unfold bind at 1, deferReply at 1, bind at 1, get at 1 in H. simpl in H.
  unfold bind at 1, interaction_await at 1 in H. simpl in H.
  destruct (interaction_rejects ic DeferReply) eqn:D; simpl in H.
  - inversion H; subst. auto.
  - unfold set_deferred, modify in H. simpl in H.
    unfold bind at 1 in H.
    match type of H with
    | context [work ?c] => destruct (work c) as [rw c1] eqn:W
    end.
    exists rw, c1. split; [reflexivity|].
    destruct rw as [a|]; [|inversion H; subst; auto].
    destruct (Hw _ _ _ W) as (R1 & D1 & I1). simpl in R1, D1, I1.
    unfold editReply, bind, get, interaction_await, set_replied, modify, throw
      in H. simpl in H. rewrite R1, D1 in H. simpl in H. rewrite I1 in H.
    destruct (interaction_rejects _ (EditReply content)); simpl in H;
      inversion H; subst; simpl; rewrite <- app_assoc; simpl.
    + exists false. repeat split; auto.
    + exists true. repeat split; auto.
Qed.

Lemma liftStatus_interaction {A} (m : M Status.Manager A) c r c' :
  liftStatus m c = (r, c') ->
  replied c' = replied c /\ deferred c' = deferred c
  /\ interaction_calls c' = interaction_calls c.
Proof using Type.
  unfold liftStatus. destruct (m (statusManager c)). intros H.
  inversion H; subst. simpl. auto.
Qed.

Lemma liftPlanning_interaction {A} (m : M Planner.Manager A) c r c' :
  liftPlanning m c = (r, c') ->
  replied c' = replied c /\ deferred c' = deferred c
  /\ interaction_calls c' = interaction_calls c.
Proof using Type.
  unfold liftPlanning. destruct (m (planningManager c)). intros H.
  inversion H; subst. simpl. auto.
Qed.

(** X21. The status command.  Outside a text channel the handler only
    replies that the command is unavailable and the manager is left as
    it is.  In a text channel it defers the reply first; when that is
    rejected nothing is published.  Otherwise it publishes the status in
    that channel and edits the reply only when the publication
    returned: a publication that throws leaves the interaction deferred
    and unanswered. *)
Theorem handleGymStatusCommand_publishes_in_text_channels interaction ctx :
  fresh ctx ->
  let run := status_command interaction ctx in
  let calls' := new_interaction_calls ctx (snd run) in
  match channel interaction with
  | Some (id, GuildText) =>
      if interaction_rejects (interaction_calls ctx) DeferReply
      then fst run = Throw
           /\ statusManager (snd run) = statusManager ctx
           /\ calls' = [(DeferReply, false)]
      else
        let published :=
          Status.publishStatus images status_rejects id (statusManager ctx) in
        statusManager (snd run) = snd published
        /\ match fst published with
           | Throw => fst run = Throw /\ calls' = [(DeferReply, true)]
           | Ok _ =>
               exists ok,
                 calls' = [(DeferReply, true); (EditReply StatutPublie, ok)]
                 /\ fst run = if ok then Ok tt else Throw
           end
  | _ =>
      statusManager (snd run) = statusManager ctx
      /\ exists ok,
          calls' = [(Reply CommandeIndisponible, ok)]
          /\ fst run = if ok then Ok tt else Throw
  end.
Proof using Type.
  intros Hf. cbv zeta. unfold new_interaction_calls.
  destruct (status_command interaction ctx) as [r ctx'] eqn:H. cbn [fst snd].
  unfold handleGymStatusCommand in H.
  assert (Hreply : forall r ctx',
             reply interaction_rejects CommandeIndisponible ctx = (r, ctx') ->
             statusManager ctx' = statusManager ctx
             /\ exists ok,
                 skipn (length (interaction_calls ctx)) (interaction_calls ctx')
                 = [(Reply CommandeIndisponible, ok)]
                 /\ r = if ok then Ok tt else Throw).
  { clear H. intros r1 c1 H. destruct Hf as (Hr & Hd).
    unfold reply, bind, get, interaction_await, set_replied, modify, throw in H.
    rewrite Hr, Hd in H. simpl in H.
    destruct (interaction_rejects _ _); simpl in H; inversion H; subst; simpl;
      rewrite skipn_length_app; split; eauto. }
  destruct (channel interaction) as [[id ty]|]; [|exact (Hreply _ _ H)].
  destruct ty; simpl in H; try exact (Hreply _ _ H).
  apply deferred_work in H; auto; [|intros c rw c'; apply liftStatus_interaction].
  destruct (interaction_rejects (interaction_calls ctx) DeferReply).
  - destruct H as (-> & ->). simpl. rewrite skipn_length_app. auto.
  - destruct H as (rw & c1 & W & H). unfold liftStatus in W. simpl in W.
    destruct (Status.publishStatus images status_rejects id (statusManager ctx))
      as [rp s]. injection W as E1 E2. subst rw c1. cbn [fst snd].
    destruct rp as [msg|].
    + destruct H as (ok & C & -> & S & _). simpl in S. split; auto.
      exists ok. rewrite C, skipn_length_app. auto.
    + destruct H as (-> & ->). simpl. rewrite skipn_length_app. auto.
Qed.

(** X22. The chat commands.  A command that is not [gym], and a
    subcommand of [gym] that is neither [status] nor [setup], do nothing
    at all.  [gym setup] defers the reply first and runs the manual pass
    only when that was accepted; the reply is edited to report the end
    of the synchronisation only when the pass returned: a pass that
    throws leaves the interaction deferred and unanswered. *)
Theorem handleChatInputInteraction_setup interaction commandName subCommand ctx :
  fresh ctx ->
  let run := chat_input interaction commandName subCommand ctx in
  let calls' := new_interaction_calls ctx (snd run) in
  (commandName <> lit "gym"
   \/ (subCommand <> lit "status" /\ subCommand <> lit "setup") ->
   run = (Ok tt, ctx))
  /\ (commandName = lit "gym" -> subCommand = lit "setup" ->
      if interaction_rejects (interaction_calls ctx) DeferReply
      then fst run = Throw
           /\ planningManager (snd run) = planningManager ctx
           /\ calls' = [(DeferReply, false)]
      else
        let pass :=
          Planner.syncPlanningCommand toLocaleDateString toLowerCase rejects
            unreachable clientUser config today (planningManager ctx) in
        planningManager (snd run) = snd pass
        /\ match fst pass with
           | Throw => fst run = Throw /\ calls' = [(DeferReply, true)]
           | Ok _ =>
               exists ok,
                 calls' = [(DeferReply, true);
                           (EditReply SynchronisationTerminee, ok)]
                 /\ fst run = if ok then Ok tt else Throw
           end).
Proof using Type.
  intros Hf. cbv zeta. unfold new_interaction_calls, handleChatInputInteraction.
  assert (Hneq : forall a b : jsstring, a <> b -> eqb a b = false).
  { intros a b Hab. destruct (eqb a b) eqn:E; auto. apply eqb_eq in E.
    exfalso. exact (Hab E). }
  split.
  - intros [Hc | (Hs1 & Hs2)].
    + rewrite (Hneq _ _ Hc). reflexivity.
    + rewrite (Hneq _ _ Hs1), (Hneq _ _ Hs2).
      destruct (negb _); reflexivity.
  - intros -> ->. rewrite eqb_refl. cbn [negb].
    replace (eqb (lit "setup") (lit "status")) with false by reflexivity.
    rewrite eqb_refl.
    match goal with
    | |- context [bind ?d ?k ctx] => destruct (bind d k ctx) as [r ctx'] eqn:H
    end.
    cbn [fst snd].
    apply deferred_work in H; auto; [|intros c rw c'; apply liftPlanning_interaction].
    destruct (interaction_rejects (interaction_calls ctx) DeferReply).
    + destruct H as (-> & ->). simpl. rewrite skipn_length_app. auto.
    + destruct H as (rw & c1 & W & H). unfold liftPlanning in W. simpl in W.
      destruct (Planner.syncPlanningCommand _ _ _ _ _ _ _ (planningManager ctx))
        as [rp s]. injection W as E1 E2. subst rw c1. cbn [fst snd].
      destruct rp as [u|].
      * destruct H as (ok & C & -> & _ & P & _). simpl in P. split; auto.
        exists ok. rewrite C, skipn_length_app. auto.
      * destruct H as (-> & ->). simpl. rewrite skipn_length_app. auto.
Qed.

(** *** The listener *)

Local Abbreviation on_interaction :=
  (onInteractionCreate images status_rejects toLocaleDateString toLowerCase
     rejects unreachable clientUser config today gate_rejects sid localizedTime
     gate_formattedDate rules_config rules_rejects rules_formattedDate
     interaction_rejects).

Ltac keeps_primitive :=
  let s := fresh "s" in
  let r := fresh "r" in
  let s' := fresh "s'" in
  let H := fresh "H" in
  intros s r s' H;
  unfold reply, deferReply, deferUpdate, followUp, editReply, interaction_await,
    set_replied, set_deferred, router_logger, liftStatus, liftPlanning,
    liftGate, liftRules, bind, get, modify, throw in H;
  simpl in H;
  repeat match type of H with
         | context [if ?b then _ else _] => destruct b; simpl in H
         | context [let (_, _) := ?m in _] => destruct m; simpl in H
         end;
  inversion H; reflexivity.

Ltac keeps_steps :=
  repeat first
    [ apply keeps_ret
    | apply keeps_get
    | apply keeps_throw
    | apply keeps_tryCatch
    | apply keeps_bind; [|intros ?]
    | match goal with
      | |- keeps _ (if ?b then _ else _) => destruct b
      | |- keeps _ (match ?x with _ => _ end) => destruct x
      end ].

Lemma updateGymStatus_keeps_planning status actor :
  keeps planningManager (update_status status actor).
Proof using Type.
  unfold updateGymStatus. keeps_steps; keeps_primitive.
Qed.

(** X23. The listener of interactions is contained and keeps the
    services apart.  It never throws, whatever the handlers do.  An
    interaction that is neither a chat command nor a button changes
    nothing.  A button never touches the planning manager; a chat
    command never touches the gate service nor the rules service; and a
    button of an unknown identifier is only logged. *)
Theorem onInteractionCreate_is_contained interaction ctx :
  let run := on_interaction interaction ctx in
  fst run = Ok tt
  /\ match kind interaction with
     | OtherInteraction => snd run = ctx
     | ChatInputCommand _ _ =>
         gate_env (snd run) = gate_env ctx /\ rules_env (snd run) = rules_env ctx
     | ButtonPress customId =>
         planningManager (snd run) = planningManager ctx
         /\ (~ In customId [lit "openGym"; lit "closeGym"; lit "openGate";
                            lit "acceptRules"] ->
             snd run
             = mkContext (statusManager ctx) (planningManager ctx)
                         (gateService ctx) (gate_env ctx) (rules_env ctx)
                         (replied ctx) (deferred ctx) (interaction_calls ctx)
                         (router_log ctx ++ [BoutonNonGere customId]))
     end.
Proof using Type.
  cbv zeta. split.
  - unfold onInteractionCreate, tryCatch.
    match goal with
    | |- fst (match ?b ctx with _ => _ end) = _ =>
        destruct (b ctx) as [[[]|] c1]
    end; reflexivity.
  - destruct (kind interaction) as [commandName subCommand|customId|] eqn:K;
      unfold onInteractionCreate; rewrite K.
    + split.
      * match goal with
        | |- gate_env (snd (?m ctx)) = _ =>
            assert (Hk : keeps gate_env m)
        end.
        { apply keeps_tryCatch; [|keeps_primitive].
          unfold handleChatInputInteraction, handleGymStatusCommand.
          keeps_steps; keeps_primitive. }
        match goal with
        | |- gate_env (snd (?m ctx)) = _ =>
            destruct (m ctx) as [r c1] eqn:H
        end.
        exact (Hk _ _ _ H).
      * match goal with
        | |- rules_env (snd (?m ctx)) = _ =>
            assert (Hk : keeps rules_env m)
        end.
        { apply keeps_tryCatch; [|keeps_primitive].
          unfold handleChatInputInteraction, handleGymStatusCommand.
          keeps_steps; keeps_primitive. }
        match goal with
        | |- rules_env (snd (?m ctx)) = _ =>
            destruct (m ctx) as [r c1] eqn:H
        end.
        exact (Hk _ _ _ H).
    + split.
      * match goal with
        | |- planningManager (snd (?m ctx)) = _ =>
            assert (Hk : keeps planningManager m)
        end.
        { apply keeps_tryCatch; [|keeps_primitive].
          unfold handleButtonInteraction.
          repeat match goal with
                 | |- keeps _ (if ?b then _ else _) => destruct b
                 end;
            try apply updateGymStatus_keeps_planning.
          - apply keeps_bind; [apply keeps_get|]. intros c. keeps_primitive.
          - keeps_primitive.
          - keeps_primitive. }
        match goal with
        | |- planningManager (snd (?m ctx)) = _ =>
            destruct (m ctx) as [r c1] eqn:H
        end.
        exact (Hk _ _ _ H).
      * intros Hno. unfold handleButtonInteraction.
        assert (Hneq : forall b : jsstring,
                   In b [lit "openGym"; lit "closeGym"; lit "openGate";
                         lit "acceptRules"] -> eqb customId b = false).
        { intros b Hb. destruct (eqb customId b) eqn:E; auto.
          apply eqb_eq in E. subst b. exfalso. exact (Hno Hb). }
        rewrite !Hneq by (simpl; auto 10). reflexivity.
    + reflexivity.
Qed.

End Routing.

(* ================================================================== *)
(** * Further properties: what the member is told *)
(* ================================================================== *)

Section RulesReplies.
Import Rules.
Variable config : RulesConfig.
Variable rejects : list (RulesCall * bool) -> RulesCall -> bool.
Variable formattedDate : jsstring.

Local Abbreviation accept := (handleAcceptRules config rejects formattedDate).

Ltac pick_one := solve [repeat first [left; reflexivity | right]].

(** X24. What the member is told when the member role exists.  The
    thanks are attempted exactly when the role grant was fulfilled,
    whether or not the acceptance could be written to the journal: a
    journal that cannot be written is logged and changes nothing else.
    The acceptance is logged exactly when the thanks went through; when
    they are rejected, the member, who has the role, is told that the
    role could not be added and that error is logged.  The handler
    throws only when the deferred reply, or the reply that reports the
    failure, is rejected, that call being its last. *)
Theorem handleAcceptRules_thanks_follow_grant interaction roles role e :
  guild_roles interaction = Some roles ->
  findRole config roles = Some role ->
  let run := accept interaction e in
  let delta := new_rules_calls e (snd run) in
  let logs := skipn (length (rules_log e)) (rules_log (snd run)) in
  let u := user interaction in
  let thanks := EditReply (Merci (iu_username u) (role_name role)) in
  ((exists ok, In (thanks, ok) delta) <-> In (RolesAdd (iu_id u) role, true) delta)
  /\ (In (InfoAccepte (iu_tag u)) logs <-> In (thanks, true) delta)
  /\ (In (thanks, false) delta ->
      In ErrorAjoutRole logs
      /\ exists ok, In (EditReply ErreurAjoutRole, ok) delta)
  /\ (forall path tag id date,
         In (AppendFile path tag id date, false) delta ->
         In ErrorJournal logs /\ exists ok, In (thanks, ok) delta)
  /\ (fst run = Throw ->
      exists pre c, delta = pre ++ [(c, false)]
                    /\ (c = DeferReply \/ c = EditReply ErreurAjoutRole)).
Proof.
  intros Hg Hr. cbv zeta.
  destruct (handleAcceptRules_outcome config rejects formattedDate interaction
              roles role e Hg Hr) as (delta & logs & C & L & O).
  unfold new_rules_calls. rewrite C, L, !skipn_length_app.
  inversion O as [E1 E2 E3 | ok E1 E2 E3 | ok E1 E2 E3 | logged E1 E2 E3
                  | logged ok E1 E2 E3]; subst delta logs; clear O.
  all: (split; [|split; [|split; [|split]]]); simpl.
  all: try solve [intros; intuition discriminate].
  all: try solve [split; intros; intuition discriminate].
  all: try solve [split; [intros _; pick_one | intros _; exists true; pick_one]].
  all: try solve [split; [intros _; pick_one | intros _; exists false; pick_one]].
  all: try solve [split; [intros (ok' & H); exfalso; intuition discriminate
                         | intros H; exfalso; intuition discriminate]].
  all: try solve [intros Ht; try (destruct ok; [discriminate|]);
                  match goal with
                  | |- exists pre c, ?l = _ /\ _ =>
                      exists (removelast l), (fst (last l (DeferReply, false)))
                  end; simpl; auto].
  all: try solve [split; [intros H; exfalso; destruct logged; simpl in H;
                          intuition discriminate
                         | intros H; exfalso; intuition discriminate]].
  all: try solve [split; [intros _; pick_one
                         | intros _; destruct logged; simpl; auto]].
  all: try solve [intros _; split; [destruct logged; simpl; auto
                                   | eexists; pick_one]].
  all: try solve [intros path tag id date H;
                  assert (logged = false)
                    by (intuition (try discriminate; congruence));
                  subst logged; split; [simpl; auto | eexists; pick_one]].
Qed.

End RulesReplies.

(* ================================================================== *)
(** * The further properties on concrete services *)
(* ================================================================== *)

Module FurtherWitnesses.
Import Examples ServiceExamples.

Lemma guildA_wf : wf_guild guildA.
Proof.
  split.
  - repeat (constructor; [simpl; intuition discriminate|]). constructor.
  - intros c Hc. simpl in Hc.
    destruct Hc as [<- | [<- | [<- | [<- | []]]]]; reflexivity.
Defined.

Lemma guildB_older : older_messages 102%N (channels_cache guildB) (next_id guildB).
Proof.
  intros c m Hc Hid Hm. simpl in Hc.
  destruct Hc as [<- | [<- | [<- | []]]]; simpl in Hid, Hm; try discriminate.
  destruct Hm as [<- | [<- | [<- | [<- | []]]]]; reflexivity.
Defined.

(** Today's channel of scenario B is seeded again: the three slot
    messages are shadowed by fresh ones that carry the bot's reaction
    only. *)
Lemma initializePlanningChannel_round_trip_witness :
  older_messages 102%N (channels_cache guildB) (next_id guildB)
  /\ (forall c, In c (channels_cache
                        (snd (initializePlanningChannel (@never ApiCall) bot
                                config3 (today_channel messagesB)
                                (lit "lundi 2 novembre") guildB))) ->
                ch_id c = 102%N ->
                slot_reactors (firstn 100 (ch_messages c)) (lit "18:00 - 20:00")
                = [bot]).
Proof.
  split; [exact guildB_older|]. intros c Hc Hid.
  refine (proj2 (initializePlanningChannel_round_trip (@never ApiCall) bot config3
                   (today_channel messagesB) (lit "lundi 2 novembre") guildB _
                   guildB_older _) _ c (lit "18:00 - 20:00") Hc Hid _).
  - vm_compute. reflexivity.
  - vm_compute. lia.
  - left. reflexivity.
Defined.

(** Scenario A: the channel outside the category is still there after
    the pass. *)
Lemma syncPlanning_leaves_others_alone_witness :
  wf_guild guildA /\ In general (channels_cache (snd (sync_monday config3 guildA))).
Proof.
  split; [exact guildA_wf|].
  apply (proj1 (syncPlanning_leaves_others_alone FrFR.toLocaleDateString
                  FrFR.toLowerCase (@never ApiCall) bot config3 FrFR.monday
                  category guildA guildA_wf) general).
  - simpl. auto 10.
  - left. reflexivity.
Defined.

(** A service without Twilio configuration. *)
Lemma handleOpenGate_unavailable_witness :
  Gate.client GateExamples.disabled = None
  /\ exists content ok,
      Gate.gate_calls
        (snd (Gate.handleOpenGate (@never Gate.GateCall) GateExamples.sid
                GateExamples.time GateExamples.date GateExamples.disabled
                GateExamples.press GateExamples.empty))
      = [(Gate.Reply content, ok)].
Proof.
  split; [reflexivity|].
  destruct (handleOpenGate_unavailable (@never Gate.GateCall) GateExamples.sid
              GateExamples.time GateExamples.date GateExamples.disabled
              GateExamples.press GateExamples.empty (or_introl eq_refl))
    as (content & ok & C & _).
  exists content, ok. exact C.
Defined.

Lemma service_has_numbers :
  Config.gateNotificationNumbers GateExamples.cfg <> [].
Proof. discriminate. Defined.

(** Two numbers, the second unreachable: both are tried and the reply
    has a line for each. *)
Lemma handleOpenGate_notifies_every_number_witness :
  Config.gateNotificationNumbers GateExamples.cfg <> []
  /\ exists attempts lines ok rest,
      Gate.new_gate_calls GateExamples.empty
        (snd (Gate.handleOpenGate GateExamples.second_fails GateExamples.sid
                GateExamples.time GateExamples.date GateExamples.service
                GateExamples.press GateExamples.empty))
      = (Gate.DeferReply, true) :: attempts ++ (Gate.EditReply lines, ok) :: rest
      /\ map snd attempts = [true; false]
      /\ Forall2 Gate.reports attempts lines.
Proof.
  split; [exact service_has_numbers|].
  destruct (handleOpenGate_notifies_every_number GateExamples.second_fails
              GateExamples.sid GateExamples.time GateExamples.date
              GateExamples.service GateExamples.press _ GateExamples.cfg
              GateExamples.empty eq_refl eq_refl service_has_numbers eq_refl)
    as (attempts & lines & ok & rest & C & A & F & _).
  exists attempts, lines, ok, rest. split; [exact C|]. split; [|exact F].
  vm_compute in C. destruct attempts as [|a1 [|a2 [|a3 attempts]]];
    try discriminate A.
  simpl in C. injection C as E1 E2 _. subst a1 a2. reflexivity.
Defined.


Lemma manager0_run :
  Planner.ensureCategory (@never ApiCall) config3 manager0
  = (Ok created_category, manager1).
Proof. vm_compute. reflexivity. Defined.

(** A guild without the category: it is created once, then reused. *)
Lemma ensureCategory_reuses_witness :
  Planner.ensureCategory (@never ApiCall) config3 manager0
  = (Ok created_category, manager1)
  /\ Planner.ensureCategory (@never ApiCall) config3 manager1
     = (Ok created_category, manager1).
Proof.
  split; [exact manager0_run|].
  exact (proj2 (proj2 (proj2 (proj2 (proj2
           (ensureCategory_reuses (@never ApiCall) config3 manager0
              created_category manager1 manager0_run)))))).
Defined.

Lemma managerA_run : setup_monday managerA = (Ok tt, managerA').
Proof. vm_compute. reflexivity. Defined.

Lemma syncPlanningCommand_converges_witness :
  wf_guild (Planner.guild managerA)
  /\ setup_monday managerA = (Ok tt, managerA')
  /\ exists category,
      Planner.categoryId managerA' = Some (ch_id category)
      /\ ch_name category = planning.
Proof.
  split; [exact guildA_wf|]. split; [exact managerA_run|].
  destruct (syncPlanningCommand_converges FrFR.toLocaleDateString
              FrFR.toLowerCase (@never ApiCall) reachable bot config3 FrFR.monday
              managerA managerA' guildA_wf managerA_run)
    as (cat & Hid & _ & _ & Hn & _).
  exists cat. split; [exact Hid | exact Hn].
Defined.

Lemma config3_positive : (0 < daysAhead config3)%Q.
Proof. reflexivity. Defined.

Lemma correlator_finds_today_after_sync_witness :
  wf_guild (Planner.guild managerA)
  /\ (0 < daysAhead config3)%Q
  /\ exists ch,
      ch_name ch = lit "lundi-2-novembre"
      /\ first_call (Planner.guild managerA') (MessagesFetch (ch_id ch) 100%nat)
           (snd (getUsersFromPlanning FrFR.toLocaleDateString FrFR.toLowerCase
                   (@never ApiCall) directory config3 FrFR.monday 3%Z slots3
                   (Planner.guild managerA'))).
Proof.
  split; [exact guildA_wf|]. split; [exact config3_positive|].
  destruct (correlator_finds_today_after_sync FrFR.toLocaleDateString
              FrFR.toLowerCase (@never ApiCall) reachable directory bot config3
              FrFR.monday 3%Z slots3 managerA managerA' guildA_wf config3_positive
              managerA_run)
    as (cat & ch & _ & _ & _ & _ & Hn & Hf).
  exists ch. split; [|exact Hf]. rewrite Hn. vm_compute. reflexivity.
Defined.

(** A service that was never started sends nothing. *)
Lemma sendReminder_needs_its_channel_witness :
  Reminder.channelId unstarted = None
  /\ Reminder.guild (snd (remind_monday noir_reminder unstarted)) = guildB.
Proof.
  split; [reflexivity|].
  exact (proj1 (sendReminder_needs_its_channel FrFR.toLocaleDateString
                  FrFR.toLowerCase (@never ApiCall) reachable directory config3
                  FrFR.monday noir_reminder unstarted (or_introl eq_refl))).
Defined.

Lemma serviceR_run : remind_monday noir_reminder serviceR = (Ok tt, serviceR').
Proof. vm_compute. reflexivity. Defined.

(** Scenario B: Alice, Bob and Carol are mentioned, once each. *)
Lemma sendReminder_mentions_registered_users_witness :
  remind_monday noir_reminder serviceR = (Ok tt, serviceR')
  /\ exists users g1,
      getUsersFromPlanning FrFR.toLocaleDateString FrFR.toLowerCase
        (@never ApiCall) directory config3 FrFR.monday 3%Z
        Reminder.relevantTimeSlots guildR = (Ok users, g1)
      /\ calls (Reminder.guild serviceR')
         = calls g1
           ++ [(ChannelSend 104%N
                  (TextBody (reminder_message Reminder.noir users)), true)].
Proof.
  split; [exact serviceR_run|].
  destruct (sendReminder_mentions_registered_users FrFR.toLocaleDateString
              FrFR.toLowerCase (@never ApiCall) reachable directory config3
              FrFR.monday noir_reminder serviceR serviceR' 104%N reminders
              eq_refl eq_refl serviceR_run)
    as (users & g1 & fetches & Hcor & _ & _ & Hcalls & _).
  exists users, g1. split; [exact Hcor | exact Hcalls].
Defined.

Lemma unstarted_run : start_reminders unstarted = (Ok tt, started).
Proof. vm_compute. reflexivity. Defined.

Lemma guildB_wf : wf_guild guildB.
Proof.
  split.
  - repeat (constructor; [simpl; intuition discriminate|]). constructor.
  - intros c Hc. simpl in Hc. destruct Hc as [<- | [<- | [<- | []]]]; reflexivity.
Defined.

Lemma reminder_initialize_holds_channel_and_tasks_witness :
  wf_guild (Reminder.guild unstarted)
  /\ start_reminders unstarted = (Ok tt, started)
  /\ Reminder.reminderTasks started = [0; 1]%nat.
Proof.
  split; [exact guildB_wf|]. split; [exact unstarted_run|].
  exact (proj1 (proj2 (reminder_initialize_holds_channel_and_tasks
                         (@never ApiCall) reachable (lit "rappels-poubelles")
                         unstarted started guildB_wf unstarted_run))).
Defined.

Lemma ctx0_fresh : Router.fresh RouterExamples.ctx0.
Proof. split; reflexivity. Defined.

(** A member closes the gym under the published message. *)
Lemma updateGymStatus_confirms_once_witness :
  Router.fresh RouterExamples.ctx0
  /\ Status.status
       (Router.statusManager
          (snd (Router.updateGymStatus StatusExamples.images StatusExamples.never
                  (@never Router.InteractionCall) Status.Fermee (lit "bob")
                  RouterExamples.ctx0)))
     = Status.Fermee.
Proof.
  split; [exact ctx0_fresh|].
  pose proof (updateGymStatus_confirms_once StatusExamples.images
                StatusExamples.never (@never Router.InteractionCall)
                Status.Fermee (lit "bob") RouterExamples.ctx0 ctx0_fresh) as T.
  cbv zeta in T.
  change (Status.statusMessage (Router.statusManager RouterExamples.ctx0))
    with (Some RouterExamples.tracked_message) in T.
  exact (proj1 T).
Defined.


Lemma handleGymStatusCommand_publishes_in_text_channels_witness :
  Router.fresh RouterExamples.ctx0
  /\ exists ok,
      Router.new_interaction_calls RouterExamples.ctx0
        (snd (Router.handleGymStatusCommand StatusExamples.images
                StatusExamples.never (@never Router.InteractionCall)
                RouterExamples.command_in_text_channel RouterExamples.ctx0))
      = [(Router.DeferReply, true); (Router.EditReply Router.StatutPublie, ok)].
Proof.
  split; [exact ctx0_fresh|].
  pose proof (handleGymStatusCommand_publishes_in_text_channels
                StatusExamples.images StatusExamples.never
                (@never Router.InteractionCall)
                RouterExamples.command_in_text_channel RouterExamples.ctx0
                ctx0_fresh) as T.
  cbv zeta in T.
  change (Router.channel RouterExamples.command_in_text_channel)
    with (Some (500%N, GuildText)) in T.
  unfold never in T. cbv iota beta in T.
  destruct T as (_ & T).
  change (fst (Status.publishStatus StatusExamples.images StatusExamples.never
                 500%N (Router.statusManager RouterExamples.ctx0)))
    with (Ok (Status.mkStatusMessage 901%N 500%N GuildText)) in T.
  destruct T as (ok & C & _). exists ok. exact C.
Defined.

(** A command of another application is ignored. *)
Lemma handleChatInputInteraction_setup_witness :
  Router.fresh RouterExamples.ctx0
  /\ Router.handleChatInputInteraction StatusExamples.images StatusExamples.never
       FrFR.toLocaleDateString FrFR.toLowerCase (@never ApiCall) reachable bot
       config3 FrFR.monday (@never Router.InteractionCall)
       RouterExamples.command_in_text_channel (lit "ping") (lit "status")
       RouterExamples.ctx0
     = (Ok tt, RouterExamples.ctx0).
Proof.
  split; [exact ctx0_fresh|].
  apply (proj1 (handleChatInputInteraction_setup StatusExamples.images
                  StatusExamples.never FrFR.toLocaleDateString FrFR.toLowerCase
                  (@never ApiCall) reachable bot config3 FrFR.monday
                  (@never Router.InteractionCall)
                  RouterExamples.command_in_text_channel (lit "ping")
                  (lit "status") RouterExamples.ctx0 ctx0_fresh)).
  left. discriminate.
Defined.

(** Scenario: the grant is refused; no thanks are attempted. *)
Lemma handleAcceptRules_thanks_follow_grant_witness :
  Rules.findRole RulesExamples.config [RulesExamples.staff; RulesExamples.member]
  = Some RulesExamples.member
  /\ ~ In (Rules.RolesAdd 14%N RulesExamples.member, true)
          (new_rules_calls RulesExamples.empty
             (snd (Rules.handleAcceptRules RulesExamples.config
                     RulesExamples.grant_refused RulesExamples.date
                     RulesExamples.press RulesExamples.empty)))
  /\ ~ exists ok,
        In (Rules.EditReply (Rules.Merci (lit "dave") (lit "Membre")), ok)
           (new_rules_calls RulesExamples.empty
              (snd (Rules.handleAcceptRules RulesExamples.config
                      RulesExamples.grant_refused RulesExamples.date
                      RulesExamples.press RulesExamples.empty))).
Proof.
  assert (Hno : ~ In (Rules.RolesAdd 14%N RulesExamples.member, true)
                     (new_rules_calls RulesExamples.empty
                        (snd (Rules.handleAcceptRules RulesExamples.config
                                RulesExamples.grant_refused RulesExamples.date
                                RulesExamples.press RulesExamples.empty)))).
  { vm_compute. intros [H | [H | [H | [H | []]]]]; discriminate H. }
  split; [reflexivity|]. split; [exact Hno|].
  intros Hex. apply Hno.
  exact (proj1 (proj1 (handleAcceptRules_thanks_follow_grant RulesExamples.config
                         RulesExamples.grant_refused RulesExamples.date
                         RulesExamples.press
                         [RulesExamples.staff; RulesExamples.member]
                         RulesExamples.member RulesExamples.empty eq_refl eq_refl))
               Hex).
Defined.

End FurtherWitnesses.
